(** * The paged AVL+ tree with history ([avl/avl_3.go])

    A shallow embedding of the page engine of [avl_3.go] and the
    properties of its specification.

    Conventions of the embedding.
    - [uint32] and [uint64] values are integers of [Z]; every arithmetic
      operation of the source is followed by its wrap-around ([u32], [u64]).
    - [[]byte] is [list byte]; a [nil] slice and an empty slice are both [[]].
    - The tree of the source is built of heap objects that are updated in
      place.  Inside the current tree every node is referenced from one
      place only (its parent slot or [t.root]), so the tree is an inductive
      value and an in-place update is the construction of the updated
      value.
    - The [arrow] slot of a node holds a pointer to an [Arrow3] of the tree
      of the previous version ([t.prevRoot]); the fields [parent] and
      [parentC] of that [Arrow3] say where it hangs.  The pointer is
      represented by the position of the arrow in [t.prevRoot], a list of
      sides read from the root; [parent == nil] is the empty position.
      Updates made through the pointer ([a.parent.left = ...],
      [r.arrow.pageId = ...]) are updates of [t.prevRoot] at that position.
    - The engine is the one that [NewAvl3] returns: no files
      ([pageFile], [valueFile] and [verFile] are [nil]), [compare] is
      [bytes.Compare], tracing is off.  The page cache is not modelled: the
      source never reads or fills it.
    - A Go [panic] is the result [Panic]; loops and recursions that follow
      page references take a fuel argument and return [OutOfFuel] when it
      is used up. *)

From Stdlib Require Import ZArith List Lia Bool.
From Stdlib Require Import Strings.Byte.
From stdpp Require Import base decidable countable gmap sets list numbers.

Open Scope Z_scope.

(** ** Machine integers and byte strings *)

Definition u32 (x : Z) : Z := x mod 2 ^ 32.
Definition u64 (x : Z) : Z := x mod 2 ^ 64.

Abbreviation bytes := (list byte).

#[global] Instance byte_eq_dec : EqDecision byte := Byte.byte_eq_dec.

#[global] Program Instance byte_countable : Countable byte :=
  inj_countable Byte.to_N Byte.of_N _.
Next Obligation. intros x. apply Byte.of_to_N. Qed.

(** [len(b)] as an integer. *)
Definition len {A} (l : list A) : Z := Z.of_nat (length l).

(** [bytes.Compare]: [Lt], [Eq] and [Gt] stand for -1, 0 and 1. *)
Fixpoint bytes_Compare (a b : bytes) : comparison :=
  match a, b with
  | [], [] => Eq
  | [], _ :: _ => Lt
  | _ :: _, [] => Gt
  | x :: a', y :: b' =>
      match N.compare (Byte.to_N x) (Byte.to_N y) with
      | Eq => bytes_Compare a' b'
      | c => c
      end
  end.

(** [bytes.Equal]. *)
Definition bytes_Equal (a b : bytes) : bool := bool_decide (a = b).

(** Modelled from the spec: [maxu32] is declared in another file of the
    package; the specification uses it as the maximum of two heights
    ("height(f) = 1 + max(height(left), height(right))"). *)
Definition maxu32 (a b : Z) : Z := if a >? b then a else b.

(** Modelled from the spec: [commonPrefix] is declared in another file of
    the package; the specification describes the [prefix] metric as the
    "common byte prefix of all keys". *)
Fixpoint commonPrefix (a b : bytes) : bytes :=
  match a, b with
  | x :: a', y :: b' => if bool_decide (x = y) then x :: commonPrefix a' b' else []
  | _, _ => []
  end.

(** ** Configuration

    [PageSize], [InlineValueMax] and [HashLength] are constants of the
    package declared outside [avl_3.go]; the development is parametric in
    them. *)
Class Config := {
  PageSize : Z;
  InlineValueMax : Z;
  HashLength : Z;
}.

(** ** Node model *)

Definition PageID := Z.
Definition Version := Z.

(** [parentC]: -1 for the left branch, 1 for the right branch. *)
Inductive Side := SideL | SideR.

#[global] Instance Side_eq_dec : EqDecision Side.
Proof. solve_decision. Defined.

(** A pointer to an [Arrow3] of the previous-version tree. *)
Definition ArrowPtr := list Side.

(** [type Node3 struct]. *)
Record Node3 := mkNode3 {
  arrow : option ArrowPtr;
  pinnedPageId : PageID;
}.

(** [type Ref3 interface], with its three implementations [*Leaf3],
    [*Fork3], [*Arrow3] and the [nil] reference. *)
Inductive Ref3 :=
| Nil
| Leaf3 (nd : Node3) (key value : bytes) (valueId : Z) (valueLen : Z)
| Fork3 (nd : Node3) (height : Z) (left right : Ref3) (max : bytes)
| Arrow3 (arr : option ArrowPtr) (pageId : PageID) (height : Z) (max : bytes).

Definition node0 : Node3 := mkNode3 None 0.

(** [type PinnedPageID struct { id PageID; pinned bool }] (declared in
    another file of the package; the fields are those [avl_3.go] uses). *)
Record PinnedPageID := mkPin { pin_id : PageID; pin_pinned : bool }.

Definition pin0 : PinnedPageID := mkPin 0 false.

#[global] Instance PinnedPageID_eq_dec : EqDecision PinnedPageID.
Proof. solve_decision. Defined.

(** ** The engine: [type Avl3 struct] *)

Record Avl3 := mkAvl3 {
  currentVersion : Version;
  maxPageId : PageID;
  pageMap : gmap Z bytes;
  maxValueId : Z;
  valueMap : gmap Z bytes;
  valueHashes : gmap Z bytes;
  valueLens : gmap Z Z;
  freelist : list PageID;
  prevRoot : Ref3;
  root : Ref3;
  versions : gmap Z PageID;
  pagesToRecycle : gset Z;
  commitedCounter : Z;
  pageSpace : Z;
  hashLength : Z;
}.

(** [NewAvl3]. *)
Definition NewAvl3 : Avl3 :=
  {| currentVersion := 0; maxPageId := 0; pageMap := ∅; maxValueId := 0;
     valueMap := ∅; valueHashes := ∅; valueLens := ∅; freelist := [];
     prevRoot := Nil; root := Nil; versions := ∅; pagesToRecycle := ∅;
     commitedCounter := 0; pageSpace := 0; hashLength := 32 |}.

Definition set_currentVersion (v : Version) (t : Avl3) : Avl3 :=
  mkAvl3 v (maxPageId t) (pageMap t) (maxValueId t) (valueMap t) (valueHashes t)
    (valueLens t) (freelist t) (prevRoot t) (root t) (versions t)
    (pagesToRecycle t) (commitedCounter t) (pageSpace t) (hashLength t).
Definition set_maxPageId (v : PageID) (t : Avl3) : Avl3 :=
  mkAvl3 (currentVersion t) v (pageMap t) (maxValueId t) (valueMap t) (valueHashes t)
    (valueLens t) (freelist t) (prevRoot t) (root t) (versions t)
    (pagesToRecycle t) (commitedCounter t) (pageSpace t) (hashLength t).
Definition set_pageMap (v : gmap Z bytes) (t : Avl3) : Avl3 :=
  mkAvl3 (currentVersion t) (maxPageId t) v (maxValueId t) (valueMap t) (valueHashes t)
    (valueLens t) (freelist t) (prevRoot t) (root t) (versions t)
    (pagesToRecycle t) (commitedCounter t) (pageSpace t) (hashLength t).
Definition set_maxValueId (v : Z) (t : Avl3) : Avl3 :=
  mkAvl3 (currentVersion t) (maxPageId t) (pageMap t) v (valueMap t) (valueHashes t)
    (valueLens t) (freelist t) (prevRoot t) (root t) (versions t)
    (pagesToRecycle t) (commitedCounter t) (pageSpace t) (hashLength t).
Definition set_valueMap (v : gmap Z bytes) (t : Avl3) : Avl3 :=
  mkAvl3 (currentVersion t) (maxPageId t) (pageMap t) (maxValueId t) v (valueHashes t)
    (valueLens t) (freelist t) (prevRoot t) (root t) (versions t)
    (pagesToRecycle t) (commitedCounter t) (pageSpace t) (hashLength t).
Definition set_valueHashes (v : gmap Z bytes) (t : Avl3) : Avl3 :=
  mkAvl3 (currentVersion t) (maxPageId t) (pageMap t) (maxValueId t) (valueMap t) v
    (valueLens t) (freelist t) (prevRoot t) (root t) (versions t)
    (pagesToRecycle t) (commitedCounter t) (pageSpace t) (hashLength t).
Definition set_valueLens (v : gmap Z Z) (t : Avl3) : Avl3 :=
  mkAvl3 (currentVersion t) (maxPageId t) (pageMap t) (maxValueId t) (valueMap t)
    (valueHashes t) v (freelist t) (prevRoot t) (root t) (versions t)
    (pagesToRecycle t) (commitedCounter t) (pageSpace t) (hashLength t).
Definition set_freelist (v : list PageID) (t : Avl3) : Avl3 :=
  mkAvl3 (currentVersion t) (maxPageId t) (pageMap t) (maxValueId t) (valueMap t)
    (valueHashes t) (valueLens t) v (prevRoot t) (root t) (versions t)
    (pagesToRecycle t) (commitedCounter t) (pageSpace t) (hashLength t).
Definition set_prevRoot (v : Ref3) (t : Avl3) : Avl3 :=
  mkAvl3 (currentVersion t) (maxPageId t) (pageMap t) (maxValueId t) (valueMap t)
    (valueHashes t) (valueLens t) (freelist t) v (root t) (versions t)
    (pagesToRecycle t) (commitedCounter t) (pageSpace t) (hashLength t).
Definition set_root (v : Ref3) (t : Avl3) : Avl3 :=
  mkAvl3 (currentVersion t) (maxPageId t) (pageMap t) (maxValueId t) (valueMap t)
    (valueHashes t) (valueLens t) (freelist t) (prevRoot t) v (versions t)
    (pagesToRecycle t) (commitedCounter t) (pageSpace t) (hashLength t).
Definition set_versions (v : gmap Z PageID) (t : Avl3) : Avl3 :=
  mkAvl3 (currentVersion t) (maxPageId t) (pageMap t) (maxValueId t) (valueMap t)
    (valueHashes t) (valueLens t) (freelist t) (prevRoot t) (root t) v
    (pagesToRecycle t) (commitedCounter t) (pageSpace t) (hashLength t).
Definition set_pagesToRecycle (v : gset Z) (t : Avl3) : Avl3 :=
  mkAvl3 (currentVersion t) (maxPageId t) (pageMap t) (maxValueId t) (valueMap t)
    (valueHashes t) (valueLens t) (freelist t) (prevRoot t) (root t) (versions t)
    v (commitedCounter t) (pageSpace t) (hashLength t).
Definition set_commitedCounter (v : Z) (t : Avl3) : Avl3 :=
  mkAvl3 (currentVersion t) (maxPageId t) (pageMap t) (maxValueId t) (valueMap t)
    (valueHashes t) (valueLens t) (freelist t) (prevRoot t) (root t) (versions t)
    (pagesToRecycle t) v (pageSpace t) (hashLength t).
Definition set_pageSpace (v : Z) (t : Avl3) : Avl3 :=
  mkAvl3 (currentVersion t) (maxPageId t) (pageMap t) (maxValueId t) (valueMap t)
    (valueHashes t) (valueLens t) (freelist t) (prevRoot t) (root t) (versions t)
    (pagesToRecycle t) (commitedCounter t) v (hashLength t).
(** [SetHashLength]. *)
Definition SetHashLength (v : Z) (t : Avl3) : Avl3 :=
  mkAvl3 (currentVersion t) (maxPageId t) (pageMap t) (maxValueId t) (valueMap t)
    (valueHashes t) (valueLens t) (freelist t) (prevRoot t) (root t) (versions t)
    (pagesToRecycle t) (commitedCounter t) (pageSpace t) v.

(** ** Results and the state monad of the engine *)

Inductive Res (A : Type) :=
| Ok (a : A)
| Panic
| OutOfFuel.
Arguments Ok {A} a.
Arguments Panic {A}.
Arguments OutOfFuel {A}.

Definition M (A : Type) : Type := Avl3 → Res (A * Avl3).

#[global] Instance M_ret : MRet M := λ A a t, Ok (a, t).
#[global] Instance M_bind : MBind M := λ A B f m t,
  match m t with
  | Ok (a, t') => f a t'
  | Panic => Panic
  | OutOfFuel => OutOfFuel
  end.

Definition panic {A} : M A := λ _, Panic.
Definition outOfFuel {A} : M A := λ _, OutOfFuel.
Definition get : M Avl3 := λ t, Ok (t, t).
Definition modify (f : Avl3 → Avl3) : M unit := λ t, Ok (tt, f t).
Definition lift {A} (f : Avl3 → A * Avl3) : M A := λ t, Ok (f t).

(** ** Page store *)

(** The loop of [nextPageId] over [t.pagesToRecycle]: the largest page id
    above the initial [id = 0]. *)
Definition maxRecycle (s : gset Z) : PageID :=
  set_fold (fun pageId id => if pageId >? id then pageId else id) 0 s.

(** [nextPageId]. *)
Definition nextPageId (t : Avl3) : PageID * Avl3 :=
  let id := maxRecycle (pagesToRecycle t) in
  if negb (id =? 0) then
    (id, set_pagesToRecycle (pagesToRecycle t ∖ {[ id ]}) t)
  else
    match list.last (freelist t) with
    | Some nextId =>
        (nextId, set_freelist (take (length (freelist t) - 1)%nat (freelist t)) t)
    | None =>
        let m := u64 (maxPageId t + 1) in
        (m, set_maxPageId m t)
    end.

(** [freePageId]. *)
Definition freePageId (pageId : PageID) (t : Avl3) : Avl3 :=
  match pageMap t !! pageId with
  | Some data =>
      set_freelist (freelist t ++ [pageId])
        (set_pageMap (delete pageId (pageMap t))
           (set_pageSpace (u64 (pageSpace t - len data)) t))
  | None => t
  end.

(** ** Byte buffers

    The operations of Go on [[]byte] that the engine uses.  Each returns
    [None] where Go panics with an index or a slice bound out of range. *)

Definition Z_of_byte (b : byte) : Z := Z.of_N (Byte.to_N b).

Definition byte_of_Z (z : Z) : byte :=
  default "000"%byte (Byte.of_N (Z.to_N (z mod 256))).

(** The [n] bytes of [v], most significant first. *)
Fixpoint be_bytes (n : nat) (v : Z) : bytes :=
  match n with
  | O => []
  | S n' => byte_of_Z (Z.shiftr v (8 * Z.of_nat n')) :: be_bytes n' v
  end.

Definition be_value (l : bytes) : Z :=
  fold_left (λ acc b, acc * 256 + Z_of_byte b) l 0.

(** [make([]byte, n)]. *)
Definition make (n : Z) : bytes := replicate (Z.to_nat n) "000"%byte.

(** [copy(data[off:], src)]. *)
Definition copy_at (data : bytes) (off : Z) (src : bytes) : option bytes :=
  if (0 <=? off) && (off <=? len data) then
    let o := Z.to_nat off in
    let n := Nat.min (length src) (length data - o) in
    Some (take o data ++ take n src ++ drop (o + n) data)
  else None.

(** [data[off:off+n]], defined when the [n] bytes are there. *)
Definition read_at (data : bytes) (off : Z) (n : nat) : option bytes :=
  if (0 <=? off) && (off + Z.of_nat n <=? len data) then
    Some (take n (drop (Z.to_nat off) data))
  else None.

(** [binary.BigEndian.PutUint32(data[off:], v)]. *)
Definition PutUint32 (data : bytes) (off v : Z) : option bytes :=
  if (0 <=? off) && (off + 4 <=? len data) then copy_at data off (be_bytes 4 v)
  else None.

(** [binary.BigEndian.PutUint64(data[off:], v)]. *)
Definition PutUint64 (data : bytes) (off v : Z) : option bytes :=
  if (0 <=? off) && (off + 8 <=? len data) then copy_at data off (be_bytes 8 v)
  else None.

(** [binary.BigEndian.Uint32(data[off:])]. *)
Definition Uint32 (data : bytes) (off : Z) : option Z :=
  be_value <$> read_at data off 4.

(** [binary.BigEndian.Uint64(data[off:])]. *)
Definition Uint64 (data : bytes) (off : Z) : option Z :=
  be_value <$> read_at data off 8.

(** [data[base+(bit>>3)] |= uint8(1)<<(bit&7)]. *)
Definition set_bit (data : bytes) (base bit : Z) : option bytes :=
  let i := u32 (base + Z.shiftr bit 3) in
  match data !! Z.to_nat i with
  | Some b =>
      Some (<[Z.to_nat i := byte_of_Z (Z.lor (Z_of_byte b) (Z.shiftl 1 (Z.land bit 7)))]> data)
  | None => None
  end.

(** [(data[base+(bit>>3)] & (uint8(1)<<(bit&7))) != 0]. *)
Definition get_bit (data : bytes) (base bit : Z) : option bool :=
  let i := u32 (base + Z.shiftr bit 3) in
  match data !! Z.to_nat i with
  | Some b => Some (negb (Z.land (Z_of_byte b) (Z.shiftl 1 (Z.land bit 7)) =? 0))
  | None => None
  end.

(** [key[n:]]. *)
Definition slice_from (key : bytes) (n : Z) : option bytes :=
  if (0 <=? n) && (n <=? len key) then Some (drop (Z.to_nat n) key) else None.

(** [data[a:b]]. *)
Definition slice (data : bytes) (a b : Z) : option bytes :=
  if (0 <=? a) && (a <=? b) && (b <=? len data)
  then Some (take (Z.to_nat (b - a)) (drop (Z.to_nat a) data)) else None.

(** [bits.OnesCount32]. *)
Definition OnesCount32 (x : Z) : Z :=
  fold_right (λ i acc, (if Z.testbit x (Z.of_nat i) then 1 else 0) + acc) 0 (seq 0 32).

Definition liftO {A} (o : option A) : M A :=
  match o with Some a => mret a | None => panic end.

(** ** Uniform operations of [Ref3] *)

(** [getheight]; a method call on the [nil] reference panics. *)
Definition getheight (r : Ref3) : option Z :=
  match r with
  | Nil => None
  | Leaf3 _ _ _ _ _ => Some 1
  | Fork3 _ h _ _ _ => Some h
  | Arrow3 _ _ h _ => Some h
  end.

(** [getmax] (and [nkey], which returns the same field). *)
Definition getmax (r : Ref3) : option bytes :=
  match r with
  | Nil => None
  | Leaf3 _ k _ _ _ => Some k
  | Fork3 _ _ _ _ m => Some m
  | Arrow3 _ _ _ m => Some m
  end.

(** The [arrow] slot of a node. *)
Definition getarrow (r : Ref3) : option ArrowPtr :=
  match r with
  | Nil => None
  | Leaf3 nd _ _ _ _ => arrow nd
  | Fork3 nd _ _ _ _ => arrow nd
  | Arrow3 a _ _ _ => a
  end.

(** [n.arrow = a], in each of the three node types. *)
Definition setarrow (a : option ArrowPtr) (r : Ref3) : Ref3 :=
  match r with
  | Nil => Nil
  | Leaf3 nd k v vi vl => Leaf3 (mkNode3 a (pinnedPageId nd)) k v vi vl
  | Fork3 nd h l rr m => Fork3 (mkNode3 a (pinnedPageId nd)) h l rr m
  | Arrow3 _ p h m => Arrow3 a p h m
  end.

(** [xt.pinnedPageId = pageId], in [*Leaf3] and [*Fork3] only. *)
Definition setpinned (pageId : PageID) (r : Ref3) : Ref3 :=
  match r with
  | Leaf3 nd k v vi vl => Leaf3 (mkNode3 (arrow nd) pageId) k v vi vl
  | Fork3 nd h l rr m => Fork3 (mkNode3 (arrow nd) pageId) h l rr m
  | _ => r
  end.

(** [Leaf3.nvalue], without a value file. *)
Definition nvalue (t : Avl3) (value : bytes) (valueId : Z) : bytes :=
  if valueId =? 0 then value else default [] (valueMap t !! valueId).

(** [heightsCorrect]: the computed height and the flag. *)
Fixpoint heightsCorrect (r : Ref3) : option (Z * bool) :=
  match r with
  | Nil => None
  | Leaf3 _ _ _ _ _ => Some (1, true)
  | Fork3 _ h l rr _ =>
      '(leftHeight, leftCorrect) ← heightsCorrect l;
      '(rightHeight, rightCorrect) ← heightsCorrect rr;
      Some (u32 (1 + maxu32 leftHeight rightHeight),
            leftCorrect && rightCorrect &&
            bool_decide (u32 (1 + maxu32 leftHeight rightHeight) = h))
  | Arrow3 _ _ h _ => Some (h, true)
  end.

(** [balanceCorrect]. *)
Fixpoint balanceCorrect (r : Ref3) : option bool :=
  match r with
  | Nil => None
  | Leaf3 _ _ _ _ _ => Some true
  | Fork3 _ _ l rr _ =>
      lHeight ← getheight l;
      rHeight ← getheight rr;
      let balanced :=
        if rHeight >=? lHeight then u32 (rHeight - lHeight) <? 2
        else u32 (lHeight - rHeight) <? 2 in
      (* [&&] of Go evaluates its right operand only when the left holds *)
      if balanced then
        bl ← balanceCorrect l;
        if (bl : bool) then balanceCorrect rr else Some false
      else Some false
  | Arrow3 _ _ _ _ => Some true
  end.

(** ** Positions in the tree of the previous version *)

(** The update of the subtree at a position; a position that is not in the
    tree designates a detached object, whose update is not seen. *)
Fixpoint updateAt (p : ArrowPtr) (f : Ref3 → Ref3) (r : Ref3) : Ref3 :=
  match p with
  | [] => f r
  | s :: p' =>
      match r with
      | Fork3 nd h l rr m =>
          match s with
          | SideL => Fork3 nd h (updateAt p' f l) rr m
          | SideR => Fork3 nd h l (updateAt p' f rr) m
          end
      | _ => r
      end
  end.

Fixpoint lookupAt (p : ArrowPtr) (r : Ref3) : Ref3 :=
  match p with
  | [] => r
  | s :: p' =>
      match r with
      | Fork3 _ _ l rr _ => lookupAt p' (match s with SideL => l | SideR => rr end)
      | _ => Nil
      end
  end.

(** [a.pageId] for the arrow [a] at position [p]. *)
Definition arrowPageId (t : Avl3) (p : ArrowPtr) : PageID :=
  match lookupAt p (prevRoot t) with
  | Arrow3 _ pid _ _ => pid
  | _ => 0
  end.

(** [a.pageId = pageId] for the arrow [a] at position [p]. *)
Definition setArrowPageId (p : ArrowPtr) (pageId : PageID) (t : Avl3) : Avl3 :=
  set_prevRoot
    (updateAt p (λ r, match r with
                      | Arrow3 a _ h m => Arrow3 a pageId h m
                      | _ => r
                      end) (prevRoot t)) t.

(** [a.parent.left = r], [a.parent.right = r] or [t.prevRoot = r], as
    [a.parent] and [a.parentC] say, for the arrow [a] at position [p]. *)
Definition replaceArrow (p : ArrowPtr) (r : Ref3) (t : Avl3) : Avl3 :=
  set_prevRoot (updateAt p (λ _, r) (prevRoot t)) t.

(** ** Value store *)

(** [nextValueId]. *)
Definition nextValueId (t : Avl3) : Z := u64 (maxValueId t + 1).

(** [freeValueId]. *)
Definition freeValueId (valueId : Z) (t : Avl3) : Avl3 :=
  if valueId =? 0 then t
  else set_valueLens (delete valueId (valueLens t))
         (set_valueHashes (delete valueId (valueHashes t))
            (set_valueMap (delete valueId (valueMap t)) t)).

(** [addValue], without a value file. *)
Definition addValue (valueId : Z) (value : bytes) (t : Avl3) : Avl3 :=
  set_maxValueId (u64 (maxValueId t + 1))
    (set_valueLens (<[valueId := u32 (len value)]> (valueLens t))
       (set_valueMap (<[valueId := value]> (valueMap t)) t)).

(** ** Page serializer *)

(** The values that [serialisePass1] returns. *)
Record Metrics := mkMetrics {
  m_prefix : bytes;
  m_keyCount : Z;
  m_pageCount : Z;
  m_keyBodySize : Z;
  m_valBodySize : Z;
  m_structBits : Z;
  m_pinnedPageId : PinnedPageID;
}.

(** The cursors that [serialisePass2] receives by pointer. *)
Record Cursors := mkCursors {
  nodeIndex : Z;
  structBit : Z;
  keyHeaderOffset : Z;
  arrowHeaderOffset : Z;
  valueHeaderOffset : Z;
  keyBodyOffset : Z;
  valBodyOffset : Z;
}.

(** [pageSize]. *)
Definition pageSize (t : Avl3) (keyCount pageCount keyBodySize valBodySize structBits : Z)
    (prefix : bytes) : Z :=
  let nodeCount := u32 (keyCount + pageCount) in
  let prefixLen := u32 (len prefix) in
  u32 (4 + 4 * (u32 (nodeCount + 31) / 32) + 4 + 4 * nodeCount + 4
       + (12 + hashLength t) * pageCount + 4 * keyCount
       + 4 * (u32 (structBits + 31) / 32) + prefixLen
       + keyBodySize - nodeCount * prefixLen + valBodySize).

(** The test of [Fork3.serialisePass1] on the pins of the left child, of
    the right child and of the fork: whether the three can share a page,
    and the pin of the merged subtree. *)
Definition mergePin3 (pinnedPageL pinnedPageR pinnedPageId : PinnedPageID)
    : bool * PinnedPageID :=
  if (pin_id pinnedPageL =? 0) && (pin_id pinnedPageR =? 0) then (true, pinnedPageId)
  else if (pin_id pinnedPageL =? 0) && (pin_id pinnedPageId =? 0) then (true, pinnedPageR)
  else if (pin_id pinnedPageR =? 0) && (pin_id pinnedPageId =? 0) then (true, pinnedPageL)
  else if (pin_id pinnedPageL =? pin_id pinnedPageR)
          && eqb (pin_pinned pinnedPageL) (pin_pinned pinnedPageR)
          && (pin_id pinnedPageR =? pin_id pinnedPageId)
          && eqb (pin_pinned pinnedPageR) (pin_pinned pinnedPageId)
       then (true, pinnedPageId)
  else (false, pin0).

(** The test of [Fork3.serialisePass1] on the pin of one child and the pin
    of the fork ([mergableR] and [mergePinR]; [mergableL] and [mergePinL]). *)
Definition mergePin (pinnedPageC pinnedPageId : PinnedPageID) : bool * PinnedPageID :=
  if pin_id pinnedPageC =? 0 then (true, pinnedPageId)
  else if pin_id pinnedPageId =? 0 then (true, pinnedPageC)
  else if (pin_id pinnedPageC =? pin_id pinnedPageId)
          && eqb (pin_pinned pinnedPageC) (pin_pinned pinnedPageId)
       then (true, pinnedPageId)
  else (false, pin0).

Section Serializer.
Context `{cfg : Config}.

(** [serialiseKey]. *)
Definition serialiseKey (key data : bytes) (c : Cursors) : option (bytes * Cursors) :=
  data ← PutUint32 data (keyHeaderOffset c) (keyBodyOffset c);
  data ← copy_at data (keyBodyOffset c) key;
  Some (data,
        mkCursors (nodeIndex c) (structBit c) (u32 (keyHeaderOffset c + 4))
          (arrowHeaderOffset c) (valueHeaderOffset c)
          (u32 (keyBodyOffset c + len key)) (valBodyOffset c)).

(** [serialiseVal]; it returns the value id. *)
Definition serialiseVal (value : bytes) (valueId valueLen : Z) (data : bytes) (c : Cursors)
    : M (Z * bytes * Cursors) :=
  data ← liftO (PutUint32 data (valueHeaderOffset c) valueLen);
  let vho := u32 (valueHeaderOffset c + 4) in
  if valueLen >? InlineValueMax then
    t ← get;
    '(valueId, valueHash) ←
      (if valueId =? 0 then
         let valueId := nextValueId t in
         modify (addValue valueId value);;
         mret (valueId, make HashLength)
       else
         mret (valueId, default (make HashLength) (valueHashes t !! valueId)));
    data ← liftO (PutUint64 data (valBodyOffset c) valueId);
    let vbo := u32 (valBodyOffset c + 8) in
    data ← liftO (copy_at data vbo valueHash);
    mret (valueId, data,
          mkCursors (nodeIndex c) (structBit c) (keyHeaderOffset c)
            (arrowHeaderOffset c) vho (keyBodyOffset c) (u32 (vbo + HashLength)))
  else
    data ← liftO (copy_at data (valBodyOffset c) value);
    mret (valueId, data,
          mkCursors (nodeIndex c) (structBit c) (keyHeaderOffset c)
            (arrowHeaderOffset c) vho (keyBodyOffset c)
            (u32 (valBodyOffset c + valueLen))).

Definition incNodeIndex (c : Cursors) : Cursors :=
  mkCursors (u32 (nodeIndex c + 1)) (structBit c) (keyHeaderOffset c)
    (arrowHeaderOffset c) (valueHeaderOffset c) (keyBodyOffset c) (valBodyOffset c).

Definition incStructBit (c : Cursors) : Cursors :=
  mkCursors (nodeIndex c) (u32 (structBit c + 1)) (keyHeaderOffset c)
    (arrowHeaderOffset c) (valueHeaderOffset c) (keyBodyOffset c) (valBodyOffset c).

Definition addArrowHeaderOffset (n : Z) (c : Cursors) : Cursors :=
  mkCursors (nodeIndex c) (structBit c) (keyHeaderOffset c)
    (u32 (arrowHeaderOffset c + n)) (valueHeaderOffset c) (keyBodyOffset c)
    (valBodyOffset c).

(** [serialisePass2]; it returns the node (the value id of a leaf is
    updated), the page buffer and the cursors. *)
Fixpoint serialisePass2 (r : Ref3) (pageId : PageID) (data : bytes) (prefixLen : Z)
    (subtreePinned : bool) (pageBitsOffset structBitsOffset : Z) (c : Cursors)
    : M (Ref3 * bytes * Cursors) :=
  match r with
  | Nil => mret (r, data, c)
  | Leaf3 nd key value valueId valueLen =>
      k ← liftO (slice_from key prefixLen);
      '(data, c) ← liftO (serialiseKey k data c);
      '(valueId, data, c) ← serialiseVal value valueId valueLen data c;
      let c := incNodeIndex c in
      let pinned := subtreePinned || (pinnedPageId nd =? pageId) || bool_decide (arrow nd ≠ None) in
      data ← (if negb pinned then liftO (set_bit data structBitsOffset (structBit c))
              else mret data);
      let c := incStructBit c in
      match arrow nd with
      | Some a => modify (setArrowPageId a pageId)
      | None => mret tt
      end;;
      mret (Leaf3 nd key value valueId valueLen, data, c)
  | Fork3 nd height fl fr max =>
      let pinned := subtreePinned || (pinnedPageId nd =? pageId) || bool_decide (arrow nd ≠ None) in
      '(fl, data, c) ← serialisePass2 fl pageId data prefixLen pinned
                            pageBitsOffset structBitsOffset c;
      let c := incStructBit c in
      match arrow nd with
      | Some a => modify (setArrowPageId a pageId)
      | None => mret tt
      end;;
      '(fr, data, c) ← serialisePass2 fr pageId data prefixLen pinned
                             pageBitsOffset structBitsOffset c;
      data ← liftO (set_bit data structBitsOffset (structBit c));
      let c := incStructBit c in
      mret (Fork3 nd height fl fr max, data, c)
  | Arrow3 arr pid height max =>
      t ← get;
      data ← liftO (PutUint64 data (arrowHeaderOffset c) pid);
      let c := addArrowHeaderOffset 8 c in
      data ← liftO (PutUint32 data (arrowHeaderOffset c) height);
      let c := addArrowHeaderOffset 4 c in
      k ← liftO (slice_from max prefixLen);
      '(data, c) ← liftO (serialiseKey k data c);
      let c := addArrowHeaderOffset (hashLength t) c in
      data ← liftO (set_bit data pageBitsOffset (nodeIndex c));
      let c := incNodeIndex c in
      data ← (if negb subtreePinned then liftO (set_bit data structBitsOffset (structBit c))
              else mret data);
      let c := incStructBit c in
      mret (r, data, c)
  end.

(** [commitPage]; it returns the node after the second pass and the id of
    the page. *)
Definition commitPage (r : Ref3) (m : Metrics) : M (Ref3 * PageID) :=
  t ← get;
  let nodeCount := u32 (m_keyCount m + m_pageCount m) in
  let size := pageSize t (m_keyCount m) (m_pageCount m) (m_keyBodySize m)
                (m_valBodySize m) (m_structBits m) (m_prefix m) in
  let data := make size in
  let offset := 0 in
  data ← liftO (PutUint32 data offset nodeCount);
  let offset := u32 (offset + 4) in
  let pageBitsOffset := offset in
  let offset := u32 (offset + 4 * (u32 (nodeCount + 31) / 32)) in
  let prefixOffsetOffset := offset in
  let offset := u32 (offset + 4) in
  let keyHeaderOffset0 := offset in
  let offset := u32 (offset + (4 * nodeCount + 4)) in
  let arrowHeaderOffset0 := offset in
  let offset := u32 (offset + (12 + hashLength t) * m_pageCount m) in
  let valueHeaderOffset0 := offset in
  let offset := u32 (offset + 4 * m_keyCount m) in
  let structBitsOffset := offset in
  let offset := u32 (offset + 4 * (u32 (m_structBits m + 31) / 32)) in
  data ← liftO (PutUint32 data prefixOffsetOffset offset);
  data ← liftO (copy_at data offset (m_prefix m));
  let offset := u32 (offset + len (m_prefix m)) in
  let keyBodyOffset0 := offset in
  let offset := u32 (offset + (m_keyBodySize m - nodeCount * u32 (len (m_prefix m)))) in
  let valBodyOffset0 := offset in
  id ← (if pin_pinned (m_pinnedPageId m) then mret (pin_id (m_pinnedPageId m))
        else lift nextPageId);
  '(r, data, c) ← serialisePass2 r id data (len (m_prefix m)) false pageBitsOffset
                     structBitsOffset
                     (mkCursors 0 0 keyHeaderOffset0 arrowHeaderOffset0 valueHeaderOffset0
                        keyBodyOffset0 valBodyOffset0);
  data ← liftO (PutUint32 data (keyHeaderOffset c) (keyBodyOffset c));
  if negb (valBodyOffset c =? size) then panic
  else if negb (nodeIndex c =? nodeCount) then panic
  else if negb (structBit c =? m_structBits m) then panic
  else
    modify (λ t, set_pageSpace (u64 (pageSpace t + size))
                   (set_commitedCounter (u64 (commitedCounter t + 1))
                      (set_pageMap (<[id := data]> (pageMap t)) t)));;
    mret (r, id).

(** The pin of a node at the start of [serialisePass1] (the same statements
    in [Leaf3.serialisePass1] and [Fork3.serialisePass1]): an old pin, a new
    pin numbered by [*maxPageId], or none.  It returns the pin and
    [*maxPageId]. *)
Definition nodePin (nd : Node3) (maxPageId : PageID) : PinnedPageID * PageID :=
  if negb (pinnedPageId nd =? 0) then (mkPin (pinnedPageId nd) true, maxPageId)
  else
    match arrow nd with
    | Some _ => let m := u64 (maxPageId + 1) in (mkPin m false, m)
    | None => (pin0, maxPageId)
    end.

(** The statements of [Fork3.serialisePass1] that turn a child into an
    arrow: an [*Arrow3] is kept, another node is committed as a page and
    replaced by a new arrow to it. *)
Definition commitChild (child : Ref3) (m : Metrics) : M Ref3 :=
  match child with
  | Arrow3 _ _ _ _ => mret child
  | _ =>
      '(child, id) ← commitPage child m;
      h ← liftO (getheight child);
      mx ← liftO (getmax child);
      mret (Arrow3 None id h mx)
  end.

(** [pageSize] of the metrics of a subtree. *)
Definition metricsSize (t : Avl3) (m : Metrics) : Z :=
  pageSize t (m_keyCount m) (m_pageCount m) (m_keyBodySize m) (m_valBodySize m)
    (m_structBits m) (m_prefix m).

(** The metrics of a fork with its two children ([keyCountLFR], ...). *)
Definition metricsLFR (mL mR : Metrics) (pinnedPageId : PinnedPageID) : Metrics :=
  mkMetrics (commonPrefix (m_prefix mL) (m_prefix mR))
    (u32 (m_keyCount mL + m_keyCount mR))
    (u32 (m_pageCount mL + m_pageCount mR))
    (u32 (m_keyBodySize mL + m_keyBodySize mR))
    (u32 (m_valBodySize mL + m_valBodySize mR))
    (u32 (m_structBits mL + m_structBits mR + 2))
    pinnedPageId.

(** The metrics of a fork with one child of metrics [mC] and an arrow of
    key [amax] in the place of the other child ([pageCountFR], ... and
    [pageCountFL], ...). *)
Definition metricsFC (mC : Metrics) (amax : bytes) (pinnedPageId : PinnedPageID) : Metrics :=
  mkMetrics (commonPrefix (m_prefix mC) amax)
    (m_keyCount mC)
    (u32 (m_pageCount mC + 1))
    (u32 (m_keyBodySize mC + u32 (len amax)))
    (m_valBodySize mC)
    (u32 (m_structBits mC + 3))
    pinnedPageId.

(** The metrics of a fork of two arrows of keys [lmax] and [rmax]. *)
Definition metricsArrows (lmax rmax : bytes) (pinnedPageId : PinnedPageID) : Metrics :=
  mkMetrics (commonPrefix rmax lmax) 0 2 (u32 (u32 (len lmax) + u32 (len rmax))) 0 4
    pinnedPageId.

(** [Fork3.serialisePass1] after the two recursive calls: [fl] and [fr] are
    the children and [mL] and [mR] their metrics. *)
Definition forkPass1 (nd : Node3) (height : Z) (fl fr : Ref3) (max : bytes)
    (mL mR : Metrics) (pinnedPageId : PinnedPageID) : M (Ref3 * Metrics) :=
  t ← get;
  let '(mergable3, mergePin3) :=
    mergePin3 (m_pinnedPageId mL) (m_pinnedPageId mR) pinnedPageId in
  let mLFR := metricsLFR mL mR mergePin3 in
  if mergable3 && (metricsSize t mLFR <? PageSize) then
    mret (Fork3 nd height fl fr max, mLFR)
  else
    (* choose the biggest child and make a page out of it *)
    let sizeL := metricsSize t mL in
    let sizeR := metricsSize t mR in
    let '(mergableR, mergePinR) := mergePin (m_pinnedPageId mR) pinnedPageId in
    let '(mergableL, mergePinL) := mergePin (m_pinnedPageId mL) pinnedPageId in
    if sizeL >? sizeR then
      lArrow ← commitChild fl mL;
      lmax ← liftO (getmax lArrow);
      (* does the fork with the right child still fit into a page? *)
      let mFR := metricsFC mR lmax mergePinR in
      if mergableR && (metricsSize t mFR <? PageSize) then
        mret (Fork3 nd height lArrow fr max, mFR)
      else
        rArrow ← commitChild fr mR;
        rmax ← liftO (getmax rArrow);
        mret (Fork3 nd height lArrow rArrow max, metricsArrows lmax rmax pinnedPageId)
    else
      rArrow ← commitChild fr mR;
      rmax ← liftO (getmax rArrow);
      (* does the fork with the left child still fit into a page? *)
      let mFL := metricsFC mL rmax mergePinL in
      if mergableL && (metricsSize t mFL <? PageSize) then
        mret (Fork3 nd height fl rArrow max, mFL)
      else
        lArrow ← commitChild fl mL;
        lmax ← liftO (getmax lArrow);
        mret (Fork3 nd height lArrow rArrow max, metricsArrows lmax rmax pinnedPageId).

(** [serialisePass1] of [*Leaf3], [*Fork3] and [*Arrow3]; [maxPageId] is
    the counter that the source passes by pointer.  It returns the node (a
    child that was committed is replaced by an arrow), the metrics and the
    counter. *)
Fixpoint serialisePass1 (r : Ref3) (maxPageId : PageID) : M (Ref3 * Metrics * PageID) :=
  match r with
  | Nil => panic
  | Leaf3 nd key value valueId valueLen =>
      let valBodySize :=
        if valueLen >? InlineValueMax then u32 (8 + HashLength) else valueLen in
      let '(pinnedPageId, maxPageId) := nodePin nd maxPageId in
      mret (r, mkMetrics key 1 0 (u32 (len key)) valBodySize 1 pinnedPageId, maxPageId)
  | Fork3 nd height fl fr max =>
      let '(pinnedPageId, maxPageId) := nodePin nd maxPageId in
      '(fl, mL, maxPageId) ← serialisePass1 fl maxPageId;
      '(fr, mR, maxPageId) ← serialisePass1 fr maxPageId;
      '(f, m) ← forkPass1 nd height fl fr max mL mR pinnedPageId;
      mret (f, m, maxPageId)
  | Arrow3 arr pageId height max =>
      mret (r, mkMetrics max 0 1 (u32 (len max)) 0 1 pin0, maxPageId)
  end.

(** [Commit]. *)
Definition Commit : M Z :=
  t ← get;
  match root t with
  | Nil => mret 0
  | _ =>
      let startCounter := commitedCounter t in
      '(r, m, _) ← serialisePass1 (root t) 0;
      modify (set_root r);;
      '(r, currentId) ← commitPage r m;
      modify (set_root r);;
      t ← get;
      match prevRoot t with
      | Nil => mret tt
      | _ =>
          '(p, m, _) ← serialisePass1 (prevRoot t) (maxPageId t);
          modify (set_prevRoot p);;
          '(p, prevId) ← commitPage p m;
          modify (set_prevRoot p);;
          modify (λ t, set_versions (<[currentVersion t := prevId]> (versions t)) t)
      end;;
      modify (λ t, set_fold freePageId t (pagesToRecycle t));;
      modify (set_pagesToRecycle ∅);;
      modify (λ t, set_currentVersion (u64 (currentVersion t + 1)) t);;
      modify (λ t, set_versions (<[currentVersion t := currentId]> (versions t)) t);;
      t ← get;
      h ← liftO (getheight (root t));
      mx ← liftO (getmax (root t));
      modify (set_root (Arrow3 (Some []) currentId h mx));;
      modify (set_prevRoot (Arrow3 None currentId h mx));;
      t ← get;
      mret (u64 (commitedCounter t - startCounter))
  end.

End Serializer.

(** ** Page deserializer *)

Section Deserializer.
Context `{cfg : Config}.

(** [deserialiseKey]; it returns the key and [*keyHeaderOffset]. *)
Definition deserialiseKey (data : bytes) (keyHeaderOffset : Z) (prefix : bytes)
    : option (bytes * Z) :=
  keyStart ← Uint32 data keyHeaderOffset;
  keyEnd ← Uint32 data (u32 (keyHeaderOffset + 4));
  body ← slice data keyStart keyEnd;
  Some (prefix ++ body, u32 (keyHeaderOffset + 4)).

(** [deserialiseVal]; it returns [value], [valueId], [valLen] and the two
    offsets. *)
Definition deserialiseVal (data : bytes) (valueHeaderOffset valBodyOffset : Z)
    : option (bytes * Z * Z * Z * Z) :=
  valLen ← Uint32 data valueHeaderOffset;
  let valueHeaderOffset := u32 (valueHeaderOffset + 4) in
  if valLen >? InlineValueMax then
    valueId ← Uint64 data valBodyOffset;
    Some ([], valueId, valLen, valueHeaderOffset, u32 (u32 (valBodyOffset + 8) + HashLength))
  else
    value ← (slice_from data valBodyOffset ≫= copy_at (make valLen) 0);
    Some (value, 0, valLen, valueHeaderOffset, u32 (valBodyOffset + valLen)).

(** The loop of [deserialisePage] that counts the arrows of the page in
    [pageBits]. *)
Fixpoint countPages (fuel : nat) (data : bytes) (pageBitsOffset pageBitsLen i pageCount : Z)
    : M Z :=
  if i <? pageBitsLen then
    match fuel with
    | O => outOfFuel
    | S fuel =>
        w ← liftO (Uint32 data (u32 (pageBitsOffset + i)));
        countPages fuel data pageBitsOffset pageBitsLen (u32 (i + 4))
          (u32 (pageCount + OnesCount32 w))
    end
  else mret pageCount.

(** The variables of the main loop of [deserialisePage].  [forkStack] and
    [pinnedStack] are one list, the top of the stack first; [forkStackTop]
    is its length.  [point] is a pointer into the nodes of the stack, which
    are updated after it is taken: it is kept as the height of the stack
    entry that holds the node and the position of the node below it. *)
Record DState := mkDState {
  d_stack : list (Ref3 * bool);
  d_nodeIndex : Z;
  d_structBit : Z;
  d_noLeaf : bool;
  d_releaseId : bool;
  d_point : option (nat * ArrowPtr);
  d_arrowHeaderOffset : Z;
  d_keyHeaderOffset : Z;
  d_valueHeaderOffset : Z;
  d_valBodyOffset : Z;
}.

(** The position kept in [point] after the top entry [k] of the stack
    became the child on side [s] of the entry [k'] . *)
Definition movePoint (k k' : nat) (s : Side) (p : option (nat * ArrowPtr))
    : option (nat * ArrowPtr) :=
  match p with
  | Some (i, path) => if bool_decide (i = k) then Some (k', path ++ [s]) else p
  | None => None
  end.

(** One turn of the main loop on the structural bit [sbit]. *)
Definition deserialiseStep (t : Avl3) (pageId : PageID) (key : option bytes) (height : Z)
    (data prefix : bytes) (pageBitsOffset : Z) (sbit : bool) (d : DState)
    : option DState :=
  if d_noLeaf d then
    if sbit then
      (* close a fork: [x] is its right child *)
      match d_stack d with
      | (x, xPinned) :: (Fork3 nd yh yl _ _, yPinned) :: rest =>
          hx ← getheight x;
          mx ← getmax x;
          let yheight := maxu32 yh (u32 (1 + hx)) in
          let k := length rest in
          let point := movePoint (S k) k SideR (d_point d) in
          let point :=
            if (yheight =? height) && bytes_Equal mx (default [] key)
            then Some (k, []) else point in
          let x := if xPinned && negb yPinned then setpinned pageId x else x in
          let yl := if negb xPinned && yPinned then setpinned pageId yl else yl in
          let yPinned := if negb xPinned && yPinned then false else yPinned in
          Some (mkDState ((Fork3 nd yheight yl x mx, yPinned) :: rest)
                  (d_nodeIndex d) (u32 (d_structBit d + 1)) true (d_releaseId d) point
                  (d_arrowHeaderOffset d) (d_keyHeaderOffset d) (d_valueHeaderOffset d)
                  (d_valBodyOffset d))
      | _ => None
      end
    else
      (* open a fork: the top of the stack is its left child *)
      match d_stack d with
      | (x, xPinned) :: rest =>
          hx ← getheight x;
          let k := length rest in
          Some (mkDState ((Fork3 node0 (u32 (1 + hx)) x Nil [], xPinned) :: rest)
                  (d_nodeIndex d) (u32 (d_structBit d + 1)) false (d_releaseId d)
                  (movePoint k k SideL (d_point d))
                  (d_arrowHeaderOffset d) (d_keyHeaderOffset d) (d_valueHeaderOffset d)
                  (d_valBodyOffset d))
      | [] => None
      end
  else
    isPage ← get_bit data pageBitsOffset (d_nodeIndex d);
    let k := length (d_stack d) in
    if isPage : bool then
      id ← Uint64 data (d_arrowHeaderOffset d);
      let aho := u32 (d_arrowHeaderOffset d + 8) in
      h ← Uint32 data aho;
      let aho := u32 (aho + 4) in
      let aho := u32 (aho + hashLength t) in
      '(max, kho) ← deserialiseKey data (d_keyHeaderOffset d) prefix;
      Some (mkDState ((Arrow3 None id h max, negb sbit) :: d_stack d)
              (u32 (d_nodeIndex d + 1)) (u32 (d_structBit d + 1)) true
              (if negb sbit then false else d_releaseId d) (d_point d)
              aho kho (d_valueHeaderOffset d) (d_valBodyOffset d))
    else
      '(lkey, kho) ← deserialiseKey data (d_keyHeaderOffset d) prefix;
      '(value, valueId, valLen, vho, vbo) ←
        deserialiseVal data (d_valueHeaderOffset d) (d_valBodyOffset d);
      let point :=
        if (height =? 1) && bytes_Equal lkey (default [] key)
        then Some (k, []) else d_point d in
      Some (mkDState ((Leaf3 node0 lkey value valueId valLen, negb sbit) :: d_stack d)
              (u32 (d_nodeIndex d + 1)) (u32 (d_structBit d + 1)) true
              (if negb sbit then false else d_releaseId d) point
              (d_arrowHeaderOffset d) kho vho vbo).

(** The main loop of [deserialisePage]. *)
Fixpoint deserialiseLoop (fuel : nat) (t : Avl3) (pageId : PageID) (key : option bytes)
    (height : Z) (data prefix : bytes) (nodeCount maxStructBits pageBitsOffset
    structBitsOffset : Z) (d : DState) : M DState :=
  if (d_nodeIndex d <? nodeCount) || (d_structBit d <? maxStructBits) then
    match fuel with
    | O => outOfFuel
    | S fuel =>
        sbit ← liftO (get_bit data structBitsOffset (d_structBit d));
        if negb sbit && (d_nodeIndex d =? nodeCount) then mret d
        else
          d ← liftO (deserialiseStep t pageId key height data prefix pageBitsOffset sbit d);
          deserialiseLoop fuel t pageId key height data prefix nodeCount maxStructBits
            pageBitsOffset structBitsOffset d
    end
  else mret d.

(** [deserialisePage].  [key] is [None] for the [nil] key of the source
    (with [height = 0]: the whole page); the stored reference [Nil] is the
    result [nil]. *)
Definition deserialisePage (fuel : nat) (pageId : PageID) (key : option bytes) (height : Z)
    : M (Ref3 * bool) :=
  t ← get;
  match pageMap t !! pageId with
  | None => mret (Nil, false)
  | Some data =>
      let offset := 0 in
      nodeCount ← liftO (Uint32 data offset);
      if nodeCount =? 0 then mret (Nil, false)
      else
        let offset := u32 (offset + 4) in
        let pageBitsOffset := offset in
        let pageBitsLen := u32 (4 * (u32 (nodeCount + 31) / 32)) in
        pageCount ← countPages fuel data pageBitsOffset pageBitsLen 0 0;
        let offset := u32 (offset + pageBitsLen) in
        let keyCount := u32 (nodeCount - pageCount) in
        prefixOffset ← liftO (Uint32 data offset);
        let offset := u32 (offset + 4) in
        let keyHeaderOffset := offset in
        firstKey ← liftO (Uint32 data keyHeaderOffset);
        let prefixLen := u32 (firstKey - prefixOffset) in
        prefix ← liftO (slice_from data prefixOffset ≫= copy_at (make prefixLen) 0);
        let offset := u32 (offset + 4 * nodeCount) in
        valBodyOffset ← liftO (Uint32 data offset);
        let offset := u32 (offset + 4) in
        let arrowHeaderOffset := offset in
        let offset := u32 (offset + (12 + hashLength t) * pageCount) in
        let valueHeaderOffset := offset in
        let offset := u32 (offset + 4 * keyCount) in
        let structBitsOffset := offset in
        let maxStructBits := u32 (Z.shiftl (u32 (prefixOffset - structBitsOffset)) 3) in
        d ← deserialiseLoop fuel t pageId key height data prefix nodeCount maxStructBits
              pageBitsOffset structBitsOffset
              (mkDState [] 0 0 false true None arrowHeaderOffset keyHeaderOffset
                 valueHeaderOffset valBodyOffset);
        (* the entries that are still pinned are pinned to this page *)
        let stack := (λ '(r, pinned), if pinned : bool then setpinned pageId r else r)
                       <$> d_stack d in
        match d_point d with
        | Some (i, path) =>
            mret (lookupAt (reverse path)
                    (default Nil (reverse stack !! i)), d_releaseId d)
        | None =>
            if bool_decide (key = None) && (height =? 0) then
              r ← liftO (list.last stack);
              mret (r, d_releaseId d)
            else mret (Nil, d_releaseId d)
        end
  end.

End Deserializer.

(** ** Tree algorithms *)

Section Tree.
Context `{cfg : Config}.

(** The type assertion of [r] to [*Fork3]. *)
Definition asFork (r : Ref3) : M (Node3 * Z * Ref3 * Ref3 * bytes) :=
  match r with
  | Fork3 nd h fl fr mx => mret (nd, h, fl, fr, mx)
  | _ => panic
  end.

(** The type assertion of [r] to [*Leaf3]. *)
Definition asLeaf (r : Ref3) : M (Node3 * bytes * bytes * Z * Z) :=
  match r with
  | Leaf3 nd k v vi vl => mret (nd, k, v, vi, vl)
  | _ => panic
  end.

(** [1 + maxu32(a.getheight(), b.getheight())]. *)
Definition height1 (a b : Ref3) : M Z :=
  ha ← liftO (getheight a);
  hb ← liftO (getheight b);
  mret (u32 (1 + maxu32 ha hb)).

(** [Get]; the result [nil] is [[]]. *)
Fixpoint GetLoop (fuel : nat) (current : Ref3) (key : bytes) : M (bytes * bool) :=
  match fuel with
  | O => outOfFuel
  | S fuel =>
      match current with
      | Nil => mret ([], false)
      | Leaf3 _ k v vi _ =>
          if bytes_Equal key k then t ← get; mret (nvalue t v vi, true)
          else mret ([], false)
      | Fork3 _ _ fl fr _ =>
          lm ← liftO (getmax fl);
          match bytes_Compare key lm with
          | Eq | Lt => GetLoop fuel fl key
          | Gt => GetLoop fuel fr key
          end
      | Arrow3 _ pageId h mx =>
          '(current, _) ← deserialisePage fuel pageId (Some mx) h;
          match current with
          | Nil => panic
          | _ => GetLoop fuel current key
          end
      end
  end.

Definition Get (fuel : nat) (key : bytes) : M (bytes * bool) :=
  t ← get; GetLoop fuel (root t) key.

(** [IsLeaf]. *)
Fixpoint IsLeaf (fuel : nat) (r : Ref3) : M bool :=
  match fuel with
  | O => outOfFuel
  | S fuel =>
      match r with
      | Nil => panic
      | Arrow3 _ pageId h mx =>
          '(current, _) ← deserialisePage fuel pageId (Some mx) h;
          match current with
          | Nil => panic
          | _ => IsLeaf fuel current
          end
      | Fork3 _ _ _ _ _ => mret false
      | Leaf3 _ _ _ _ _ => mret true
      end
  end.

(** [Peel]; the arguments [key] and [ins] of the source are not used by
    it.  The arrow that is peeled is dropped by every caller, which stores
    the result in its place. *)
Fixpoint Peel (fuel : nat) (r : Ref3) : M Ref3 :=
  match fuel with
  | O => outOfFuel
  | S fuel =>
      match r with
      | Nil => panic
      | Arrow3 arr pageId h mx =>
          '(point, releaseId) ← deserialisePage fuel pageId (Some mx) h;
          match point with
          | Nil => panic
          | _ =>
              (if releaseId : bool then
                 modify (λ t, set_pagesToRecycle ({[ pageId ]} ∪ pagesToRecycle t) t)
               else mret tt);;
              point ← match arr with
                      | Some a =>
                          modify (setArrowPageId a pageId);;
                          mret (setarrow (Some a) point)
                      | None => mret point
                      end;
              Peel fuel point
          end
      | _ => mret r
      end
  end.

(** [moveArrowOverFork(a, f)] for the fork [f] of fields [nd], [height],
    [fl], [fr] and [max]; it returns [f]. *)
Definition moveArrowOverFork (a : ArrowPtr) (nd : Node3) (height : Z) (fl fr : Ref3)
    (max : bytes) : M Ref3 :=
  t ← get;
  lh ← liftO (getheight fl);
  lm ← liftO (getmax fl);
  rh ← liftO (getheight fr);
  rm ← liftO (getmax fr);
  let apid := arrowPageId t a in
  let lpid := match fl with Arrow3 _ pid _ _ => pid | _ => apid end in
  let rpid := match fr with Arrow3 _ pid _ _ => pid | _ => apid end in
  let lArrow := Arrow3 None lpid lh lm in
  let rArrow := Arrow3 None rpid rh rm in
  let fork := Fork3 (mkNode3 None (pinnedPageId nd)) height lArrow rArrow max in
  modify (replaceArrow a fork);;
  mret (Fork3 (mkNode3 None 0) height (setarrow (Some (a ++ [SideL])) fl)
          (setarrow (Some (a ++ [SideR])) fr) max).

(** [if f.arrow != nil { t.moveArrowOverFork(f.arrow, f) }] for [f] of type
    [*Fork3]. *)
Definition unarrowFork (f : Ref3) : M Ref3 :=
  match f with
  | Fork3 nd h fl fr mx =>
      match arrow nd with
      | Some a => moveArrowOverFork a nd h fl fr mx
      | None => mret f
      end
  | _ => panic
  end.

(** [moveArrowOverLeaf(a, l)]; it returns [l]. *)
Definition moveArrowOverLeaf (a : ArrowPtr) (nd : Node3) (key value : bytes)
    (valueId valueLen : Z) : M Ref3 :=
  t ← get;
  let v := nvalue t value valueId in
  let leaf := Leaf3 node0 key v 0 (u32 (len v)) in
  modify (replaceArrow a leaf);;
  mret (Leaf3 (mkNode3 None (pinnedPageId nd)) key value valueId valueLen).

(** The outcome of the scan of [Insert] before the update. *)
Inductive InsertScan := ScanSame | ScanInserted (inserted : bool).

Fixpoint InsertLoop (fuel : nat) (current : Ref3) (key value : bytes) : M InsertScan :=
  match fuel with
  | O => outOfFuel
  | S fuel =>
      match current with
      | Nil => mret (ScanInserted true)
      | Leaf3 _ k v vi _ =>
          t ← get;
          if bytes_Equal key k then
            if bytes_Equal value (nvalue t v vi) then mret ScanSame
            else mret (ScanInserted false)
          else mret (ScanInserted true)
      | Fork3 _ _ fl fr _ =>
          lm ← liftO (getmax fl);
          match bytes_Compare key lm with
          | Eq | Lt => InsertLoop fuel fl key value
          | Gt => InsertLoop fuel fr key value
          end
      | Arrow3 _ pageId h mx =>
          '(current, _) ← deserialisePage fuel pageId (Some mx) h;
          match current with
          | Nil => panic
          | _ => InsertLoop fuel current key value
          end
      end
  end.

(** The statements of [insert] on a fork after the recursive call: the new
    height and the rotations.  [fl], [fr] and [mx] are the fields of [n]
    after the recursive call. *)
Definition insertRebalance (fuel : nat) (key : bytes) (nd : Node3) (fl fr : Ref3)
    (mx : bytes) : M Ref3 :=
  lHeight ← liftO (getheight fl);
  rHeight ← liftO (getheight fr);
  let h := u32 (1 + maxu32 lHeight rHeight) in
  if rHeight >? lHeight then
    if u32 (rHeight - lHeight) >? 1 then
      nr ← Peel fuel fr;
      nr ← unarrowFork nr;
      '(ndr, hr, nrl, nrr, mr) ← asFork nr;
      hrr ← liftO (getheight nrr);
      hrl ← liftO (getheight nrl);
      if hrr >=? hrl then
        (* single rotation from right to left *)
        h ← height1 fl nrl;
        nmx ← liftO (getmax nrl);
        let n := Fork3 nd h fl nrl nmx in
        hr ← height1 n nrr;
        mret (Fork3 ndr hr n nrr mr)
      else
        (* double rotation from right to left *)
        nrl ← Peel fuel nrl;
        nrl ← unarrowFork nrl;
        '(ndrl, hrl, nrll, nrlr, mrl) ← asFork nrl;
        h ← height1 fl nrll;
        nmx ← liftO (getmax nrll);
        let n := Fork3 nd h fl nrll nmx in
        hr ← height1 nrlr nrr;
        let nr := Fork3 ndr hr nrlr nrr mr in
        hrl ← height1 n nr;
        mret (Fork3 ndrl hrl n nr mr)
    else mret (Fork3 nd h fl fr mx)
  else if u32 (lHeight - rHeight) >? 1 then
    nl ← Peel fuel fl;
    nl ← unarrowFork nl;
    '(ndl, hl, nll, nlr, ml) ← asFork nl;
    hll ← liftO (getheight nll);
    hlr ← liftO (getheight nlr);
    if hll >=? hlr then
      (* single rotation from left to right *)
      h ← height1 nlr fr;
      let n := Fork3 nd h nlr fr mx in
      hl ← height1 nll n;
      let ml := mx in
      let ml := match bytes_Compare key ml with Gt => key | _ => ml end in
      mret (Fork3 ndl hl nll n ml)
    else
      (* double rotation from left to right *)
      nlr ← Peel fuel nlr;
      nlr ← unarrowFork nlr;
      '(ndlr, hlr, nlrl, nlrr, mlr) ← asFork nlr;
      h ← height1 nlrr fr;
      let n := Fork3 nd h nlrr fr mx in
      hl ← height1 nll nlrl;
      lmx ← liftO (getmax nlrl);
      let nl := Fork3 ndl hl nll nlrl lmx in
      hlr ← height1 nl n;
      mret (Fork3 ndlr hlr nl n mx)
  else mret (Fork3 nd h fl fr mx).

(** [insert]. *)
Fixpoint insert (fuel : nat) (current : Ref3) (key value : bytes) : M Ref3 :=
  match fuel with
  | O => outOfFuel
  | S fuel =>
      match current with
      | Nil => mret (Leaf3 node0 key value 0 (u32 (len value)))
      | Arrow3 _ _ _ _ =>
          n ← Peel (S fuel) current;
          insert fuel n key value
      | Leaf3 nd k v vi vl =>
          match bytes_Compare key k with
          | Eq =>
              n ← match arrow nd with
                  | Some a => moveArrowOverLeaf a nd k v vi vl
                  | None => mret current
                  end;
              '(nd, k, _, vi, _) ← asLeaf n;
              modify (freeValueId vi);;
              mret (Leaf3 nd k value 0 (u32 (len value)))
          | Lt =>
              mret (Fork3 node0 2 (Leaf3 node0 key value 0 (u32 (len value))) current k)
          | Gt =>
              mret (Fork3 node0 2 current (Leaf3 node0 key value 0 (u32 (len value))) key)
          end
      | Fork3 nd h fl fr mx =>
          lm ← liftO (getmax fl);
          let c := bytes_Compare key lm in
          n ← unarrowFork current;
          '(nd, h, fl, fr, mx) ← asFork n;
          '(fl, fr, mx) ←
            match c with
            | Eq | Lt =>
                fl ← insert fuel fl key value;
                mret (fl, fr, mx)
            | Gt =>
                fr ← insert fuel fr key value;
                rm ← liftO (getmax fr);
                mret (fl, fr, rm)
            end;
          insertRebalance (S fuel) key nd fl fr mx
      end
  end.

(** [Insert]. *)
Definition Insert (fuel : nat) (key value : bytes) : M bool :=
  t ← get;
  scan ← InsertLoop fuel (root t) key value;
  match scan with
  | ScanSame => mret false
  | ScanInserted inserted =>
      r ← insert fuel (root t) key value;
      modify (set_root r);;
      mret inserted
  end.

(** The statements of [delete] on a fork after the recursive call: the new
    height and the rotations. *)
Definition deleteRebalance (fuel : nat) (nd : Node3) (fl fr : Ref3) (mx : bytes) : M Ref3 :=
  lHeight ← liftO (getheight fl);
  rHeight ← liftO (getheight fr);
  let h := u32 (1 + maxu32 lHeight rHeight) in
  if rHeight >? lHeight then
    if u32 (rHeight - lHeight) >? 1 then
      nr ← Peel fuel fr;
      nr ← unarrowFork nr;
      '(ndr, hr, nrl, nrr, mr) ← asFork nr;
      hrr ← liftO (getheight nrr);
      hrl ← liftO (getheight nrl);
      if hrr >=? hrl then
        (* single rotation from right to left *)
        h ← height1 fl nrl;
        nmx ← liftO (getmax nrl);
        let n := Fork3 nd h fl nrl nmx in
        (* [nr.height = 1 + maxu32(nr.left.getheight(), n.right.getheight())] *)
        hr ← height1 n nrl;
        mret (Fork3 ndr hr n nrr mr)
      else
        (* double rotation from right to left *)
        nrl ← Peel fuel nrl;
        nrl ← unarrowFork nrl;
        '(ndrl, hrl, nrll, nrlr, mrl) ← asFork nrl;
        h ← height1 fl nrll;
        nmx ← liftO (getmax nrll);
        let n := Fork3 nd h fl nrll nmx in
        hr ← height1 nrlr nrr;
        let nr := Fork3 ndr hr nrlr nrr mr in
        hrl ← height1 n nr;
        mret (Fork3 ndrl hrl n nr mr)
    else mret (Fork3 nd h fl fr mx)
  else if u32 (lHeight - rHeight) >? 1 then
    nl ← Peel fuel fl;
    nl ← unarrowFork nl;
    '(ndl, hl, nll, nlr, ml) ← asFork nl;
    hll ← liftO (getheight nll);
    hlr ← liftO (getheight nlr);
    if hll >=? hlr then
      (* single rotation from left to right *)
      h ← height1 nlr fr;
      let n := Fork3 nd h nlr fr mx in
      hl ← height1 nll n;
      mret (Fork3 ndl hl nll n mx)
    else
      (* double rotation from left to right *)
      nlr ← Peel fuel nlr;
      nlr ← unarrowFork nlr;
      '(ndlr, hlr, nlrl, nlrr, mlr) ← asFork nlr;
      h ← height1 nlrr fr;
      let n := Fork3 nd h nlrr fr mx in
      hl ← height1 nll nlrl;
      lmx ← liftO (getmax nlrl);
      let nl := Fork3 ndl hl nll nlrl lmx in
      hlr ← height1 nl n;
      mret (Fork3 ndlr hlr nl n mx)
  else mret (Fork3 nd h fl fr mx).

(** [if l.arrow == nil { t.freeValueId(l.valueId) }] for [l] of type
    [*Leaf3]. *)
Definition freeLeafValue (nd : Node3) (valueId : Z) : M unit :=
  match arrow nd with
  | None => modify (freeValueId valueId)
  | Some _ => mret tt
  end.

(** [delete]. *)
Fixpoint delete (fuel : nat) (current : Ref3) (key : bytes) : M Ref3 :=
  match fuel with
  | O => outOfFuel
  | S fuel =>
      match current with
      | Nil => panic
      | Arrow3 _ _ _ _ =>
          n ← Peel (S fuel) current;
          delete fuel n key
      | Leaf3 nd _ _ vi _ =>
          freeLeafValue nd vi;;
          mret Nil
      | Fork3 nd h fl fr mx =>
          lm ← liftO (getmax fl);
          let c := bytes_Compare key lm in
          n ← unarrowFork current;
          '(nd, h, fl, fr, mx) ← asFork n;
          ll ← IsLeaf (S fuel) fl;
          lr ← (if ll : bool then IsLeaf (S fuel) fr else mret false);
          if lr : bool then
            (* special case: both branches are leaves *)
            nl ← Peel (S fuel) fl;
            '(ndl, kl, vl, vil, vll) ← asLeaf nl;
            nr ← Peel (S fuel) fr;
            '(ndr, kr, vr, vir, vlr) ← asLeaf nr;
            match c with
            | Eq | Lt => freeLeafValue ndl vil;; mret nr
            | Gt => freeLeafValue ndr vir;; mret nl
            end
          else
            match c with
            | Eq | Lt =>
                fl ← delete fuel fl key;
                match fl with
                | Nil => mret fr
                | _ => deleteRebalance (S fuel) nd fl fr mx
                end
            | Gt =>
                fr ← delete fuel fr key;
                match fr with
                | Nil => mret fl
                | _ =>
                    rm ← liftO (getmax fr);
                    deleteRebalance (S fuel) nd fl fr rm
                end
            end
      end
  end.

(** The scan of [Delete] before the update: whether a leaf with the key is
    found. *)
Fixpoint DeleteLoop (fuel : nat) (current : Ref3) (key : bytes) : M bool :=
  match fuel with
  | O => outOfFuel
  | S fuel =>
      match current with
      | Nil => mret false
      | Leaf3 _ k _ _ _ => mret (bytes_Equal key k)
      | Fork3 _ _ fl fr _ =>
          lm ← liftO (getmax fl);
          match bytes_Compare key lm with
          | Eq | Lt => DeleteLoop fuel fl key
          | Gt => DeleteLoop fuel fr key
          end
      | Arrow3 _ pageId h mx =>
          '(current, _) ← deserialisePage fuel pageId (Some mx) h;
          match current with
          | Nil => panic
          | _ =>
              ch ← liftO (getheight current);
              if negb (ch =? h) then panic else DeleteLoop fuel current key
          end
      end
  end.

(** [Delete]. *)
Definition Delete (fuel : nat) (key : bytes) : M bool :=
  t ← get;
  found ← DeleteLoop fuel (root t) key;
  if found : bool then
    r ← delete fuel (root t) key;
    modify (set_root r);;
    mret true
  else mret false.

End Tree.

(** ** Version file *)

(** [verFile.ReadAt(verdata[:], off)] on a file of content [file]: the
    buffer after the call and the number of bytes read.  Fewer bytes than
    the buffer holds are read at the end of the file; the rest of the
    buffer keeps its content. *)
Definition ReadAt (file verdata : bytes) (off : Z) : bytes * Z :=
  if (0 <=? off) && (off <? len file) then
    let avail := drop (Z.to_nat off) file in
    let n := Nat.min (length verdata) (length avail) in
    (take n avail ++ drop n verdata, Z.of_nat n)
  else (verdata, 0).

(** [int64(x)] for [x] of type [uint64]. *)
Definition int64 (x : Z) : Z :=
  let y := x mod 2 ^ 64 in if y <? 2 ^ 63 then y else y - 2 ^ 64.

(** The loop of [UseFiles] that reads the versions; it returns
    [lastPageID] and the engine.  [None]: the fuel is used up. *)
Fixpoint readVersions (fuel : nat) (file verdata : bytes) (lastPageID : PageID) (t : Avl3)
    : option (PageID * Avl3) :=
  let '(verdata, n) := ReadAt file verdata (int64 (int64 (currentVersion t) * 8)) in
  if n >? 0 then
    match fuel with
    | O => None
    | S fuel =>
        let lastPageID := be_value verdata in
        let t := set_versions (<[currentVersion t := lastPageID]> (versions t)) t in
        let t := set_currentVersion (u64 (currentVersion t + 1)) t in
        readVersions fuel file verdata lastPageID t
    end
  else Some (lastPageID, t).

(** The statements of [UseFiles] from [// Read versions] to the end of the
    loop, on a version file of content [file]. *)
Definition UseFiles_versions (file : bytes) (t : Avl3) : option (PageID * Avl3) :=
  readVersions (S (length file)) file (make 8) 0 t.

(** * The vocabulary of the properties *)

(** [a < b] and [a ≤ b] for keys. *)
Definition klt (a b : bytes) : Prop := bytes_Compare a b = Lt.

Definition kle (a b : bytes) : Prop := bytes_Compare a b ≠ Gt.

(** The height and the largest key of a node, as total functions. *)
Definition ht (r : Ref3) : Z := default 0 (getheight r).

Definition mxk (r : Ref3) : bytes := default [] (getmax r).

(** The pairs of key and value that the leaves of a tree hold. *)
Fixpoint contents (r : Ref3) : gmap bytes bytes :=
  match r with
  | Leaf3 _ k v _ _ => {[ k := v ]}
  | Fork3 _ _ fl fr _ => contents fl ∪ contents fr
  | _ => ∅
  end.

Definition keys (r : Ref3) : gset bytes := dom (contents r).

Arguments ht : simpl never.
Arguments mxk : simpl never.
Arguments keys : simpl never.

(** The number of leaves. *)
Fixpoint leaves (r : Ref3) : Z :=
  match r with
  | Leaf3 _ _ _ _ _ => 1
  | Fork3 _ _ fl fr _ => leaves fl + leaves fr
  | _ => 0
  end.

(** Every key of [A] is below every key of [B]. *)
Definition ksep (A B : gset bytes) : Prop := ∀ a b, a ∈ A → b ∈ B → klt a b.

(** The invariant of a tree that was built in memory: no arrow, no value
    out of line, the heights and the balance of an AVL tree, the keys of
    the left branch below the keys of the right branch, [max] the largest
    key of the right branch. *)
Fixpoint avl (r : Ref3) : Prop :=
  match r with
  | Nil => False
  | Leaf3 nd _ _ valueId _ => arrow nd = None ∧ valueId = 0
  | Fork3 nd h fl fr mx =>
      arrow nd = None ∧ avl fl ∧ avl fr ∧
      h = 1 + Z.max (ht fl) (ht fr) ∧ -1 ≤ ht fl - ht fr ≤ 1 ∧
      mx = mxk fr ∧ ksep (keys fl) (keys fr)
  | Arrow3 _ _ _ _ => False
  end.

(** The result [r'] of the rebalancing of a fork of branches [fl] and [fr]. *)
Definition rebalanced (fl fr : Ref3) (r' : Ref3) : Prop :=
  avl r' ∧ contents r' = contents fl ∪ contents fr ∧
  leaves r' = leaves fl + leaves fr ∧ mxk r' = mxk fr ∧
  Z.max (ht fl) (ht fr) ≤ ht r' ≤ 1 + Z.max (ht fl) (ht fr) ∧
  (-1 ≤ ht fl - ht fr ≤ 1 → ht r' = 1 + Z.max (ht fl) (ht fr)).

(** The root of an engine that holds no page: empty or a tree in memory. *)
Definition plain (r : Ref3) : Prop := r = Nil ∨ avl r.

(** What the scan of [Insert] finds in a tree of contents [m]. *)
Definition scanOf (m : gmap bytes bytes) (key value : bytes) : InsertScan :=
  match m !! key with
  | None => ScanInserted true
  | Some v => if bytes_Equal value v then ScanSame else ScanInserted false
  end.

(** An operation of a test sequence, its run on the engine and on a
    reference map. *)
Inductive Op := OpInsert (key value : bytes) | OpDelete (key : bytes).

Definition refOp (m : gmap bytes bytes) (op : Op) : gmap bytes bytes :=
  match op with
  | OpInsert key value => <[key := value]> m
  | OpDelete key => base.delete key m
  end.

Definition refOps (ops : list Op) : gmap bytes bytes := foldl refOp ∅ ops.

(** The key bound of a tree: no key is longer than [K], and the length of a
    value is not negative. *)
Fixpoint keysBounded (K : Z) (r : Ref3) : Prop :=
  match r with
  | Nil => True
  | Leaf3 _ key _ _ valueLen => len key ≤ K ∧ 0 ≤ valueLen
  | Fork3 _ _ fl fr mx => len mx ≤ K ∧ keysBounded K fl ∧ keysBounded K fr
  | Arrow3 _ _ _ mx => len mx ≤ K
  end.

(** What the serializer keeps: the pages that are stored, the length of a
    hash and the key bound of the tree of the previous version. *)
Definition stable (K : Z) (t t' : Avl3) : Prop :=
  pageMap t' = pageMap t ∧ hashLength t' = hashLength t ∧
  (keysBounded K (prevRoot t) → keysBounded K (prevRoot t')).



(** A leaf or a fork with its two branches, of height [h] and largest key
    [k]. *)
Definition goodPoint (k : bytes) (h : Z) (n : Ref3) : Prop :=
  getheight n = Some h ∧ getmax n = Some k ∧
  match n with
  | Leaf3 _ _ _ _ _ => True
  | Fork3 _ _ _ fr _ => fr ≠ Nil
  | _ => False
  end.

(** A fork that waits for its right branch, and a node that waits for
    nothing. *)
Definition openFork (r : Ref3) : Prop :=
  match r with Fork3 _ _ _ Nil _ => True | _ => False end.

Definition closedNode (r : Ref3) : Prop :=
  match r with Nil | Fork3 _ _ _ Nil _ => False | _ => True end.

(** The stack of the loop: open forks below the top; the top is a closed
    node after a node was read or a fork was closed ([noLeaf]), and an open
    fork before the next leaf. *)
Definition stackOK (d : DState) : Prop :=
  match d_stack d with
  | [] => d_noLeaf d = false
  | (x, _) :: rest =>
      Forall (λ e, openFork e.1) rest ∧
      if d_noLeaf d then closedNode x else openFork x
  end.

(** [point], when it is set, is a good point in the stack. *)
Definition pointOK (k : bytes) (h : Z) (d : DState) : Prop :=
  ∀ i path, d_point d = Some (i, path) →
    ∃ e, reverse (d_stack d) !! i = Some e ∧ goodPoint k h (lookupAt (reverse path) e.1).

(** What the serializer does not write: the version, the table of the
    versions, the root and the length of a hash. *)
Definition kept (t t' : Avl3) : Prop :=
  currentVersion t' = currentVersion t ∧ versions t' = versions t ∧
  root t' = root t ∧ hashLength t' = hashLength t.

(** The content of a version file that holds the entries [entries], 8
    bytes each. *)
Definition version_file (entries : list PageID) : bytes := flat_map (be_bytes 8) entries.

(** The page holds one node, and the node is an arrow. *)
Definition arrowPage (data : bytes) : Prop :=
  Uint32 data 0 = Some 1 ∧ get_bit data 4 0 = Some true.

(** The page is missing or holds one arrow. *)
Definition deadPage (t : Avl3) (id : PageID) : Prop :=
  pageMap t !! id = None ∨ ∃ data, pageMap t !! id = Some data ∧ arrowPage data.

(** [data'] is [data] at the positions that satisfy [P]. *)
Definition keeps (P : Z → Prop) (data data' : bytes) : Prop :=
  length data' = length data ∧
  ∀ i : nat, P (Z.of_nat i) → data' !! i = data !! i.

(** The number of bits set among the [n] low bits of [x]. *)
Definition ones (n : nat) (x : Z) : Z :=
  fold_right (λ i acc, (if Z.testbit x (Z.of_nat i) then 1 else 0) + acc) 0 (seq 0 n).



(** The offsets of the parts of a page: the offset of the prefix offset
    (the page bits end there), the arrow headers (the key headers end
    there), the value headers, the structure bits, the prefix, the value
    bodies (the key bodies end there) and the size; with them the number of
    the nodes and of the structure bits, the length of a hash and the
    prefix of the keys. *)
Record Layout := mkLayout {
  L_nodeCount : Z;
  L_bits : Z;
  L_poo : Z;
  L_ah0 : Z;
  L_vh0 : Z;
  L_sbo : Z;
  L_po : Z;
  L_vb0 : Z;
  L_size : Z;
  L_hl : Z;
  L_prefix : bytes;
}.

Definition L_kh0 (L : Layout) : Z := L_poo L + 4.

Definition L_kb0 (L : Layout) : Z := L_po L + len (L_prefix L).

Definition layoutOK (L : Layout) : Prop :=
  0 ≤ L_nodeCount L ≤ 8 * (L_poo L - 4) ∧
  L_ah0 L = L_kh0 L + 4 * L_nodeCount L + 4 ∧
  L_ah0 L ≤ L_vh0 L ∧ L_vh0 L ≤ L_sbo L ∧ L_sbo L ≤ L_po L ∧
  0 ≤ L_bits L ≤ 8 * (L_po L - L_sbo L) ∧
  L_kb0 L ≤ L_vb0 L ∧ L_vb0 L ≤ L_size L ∧ 8 * L_size L < 2 ^ 32 ∧ 0 ≤ L_hl L.

(** The cursors of the serializer are in their parts of the page. *)
Definition inLayout (L : Layout) (c : Cursors) : Prop :=
  0 ≤ nodeIndex c ≤ L_nodeCount L ∧
  keyHeaderOffset c = L_kh0 L + 4 * nodeIndex c ∧
  L_ah0 L ≤ arrowHeaderOffset c ≤ L_vh0 L ∧
  L_vh0 L ≤ valueHeaderOffset c ≤ L_sbo L ∧
  0 ≤ structBit c ≤ L_bits L ∧
  L_kb0 L ≤ keyBodyOffset c ≤ L_vb0 L ∧
  L_vb0 L ≤ valBodyOffset c ≤ L_size L.

(** The same without the tie of the key header to the node. *)
Definition inLayoutW (L : Layout) (c : Cursors) : Prop :=
  0 ≤ nodeIndex c ≤ L_nodeCount L ∧
  L_kh0 L ≤ keyHeaderOffset c ≤ L_ah0 L ∧
  L_ah0 L ≤ arrowHeaderOffset c ≤ L_vh0 L ∧
  L_vh0 L ≤ valueHeaderOffset c ≤ L_sbo L ∧
  0 ≤ structBit c ≤ L_bits L ∧
  L_kb0 L ≤ keyBodyOffset c ≤ L_vb0 L ∧
  L_vb0 L ≤ valBodyOffset c ≤ L_size L.

(** The order of the cursors. *)
Definition cle (c c' : Cursors) : Prop :=
  nodeIndex c ≤ nodeIndex c' ∧ structBit c ≤ structBit c' ∧
  keyHeaderOffset c ≤ keyHeaderOffset c' ∧ arrowHeaderOffset c ≤ arrowHeaderOffset c' ∧
  valueHeaderOffset c ≤ valueHeaderOffset c' ∧ keyBodyOffset c ≤ keyBodyOffset c' ∧
  valBodyOffset c ≤ valBodyOffset c'.

(** The cursors after one more structure bit. *)
Definition nextBit (c : Cursors) : Cursors :=
  mkCursors (nodeIndex c) (structBit c + 1) (keyHeaderOffset c)
    (arrowHeaderOffset c) (valueHeaderOffset c) (keyBodyOffset c) (valBodyOffset c).




(** The trees that a page holds as they are: leaves with values in line,
    forks and arrows, without pins; the keys start with the prefix of the
    page, the heights and the largest keys of the forks are those of their
    branches. *)
Fixpoint pageTree `{cfg : Config} (L : Layout) (r : Ref3) : Prop :=
  match r with
  | Nil => False
  | Leaf3 nd k v vi vl =>
      nd = node0 ∧ take (length (L_prefix L)) k = L_prefix L ∧
      vi = 0 ∧ vl = len v ∧ vl ≤ InlineValueMax
  | Fork3 nd h fl fr mx =>
      nd = node0 ∧ pageTree L fl ∧ pageTree L fr ∧
      (∃ a b, getheight fl = Some a ∧ getheight fr = Some b ∧ h = 1 + Z.max a b) ∧
      h < 2 ^ 32 ∧ getmax fr = Some mx
  | Arrow3 a pid h mx =>
      a = None ∧ take (length (L_prefix L)) mx = L_prefix L ∧
      0 ≤ pid < 2 ^ 64 ∧ 0 ≤ h < 2 ^ 32
  end.


(** The bytes of the subtree written between [c] and [c']; the bytes of
    the page bits and of the structure bits. *)
Definition footB (c c' : Cursors) (i : Z) : Prop :=
  keyHeaderOffset c ≤ i < keyHeaderOffset c' ∨
  arrowHeaderOffset c ≤ i < arrowHeaderOffset c' ∨
  valueHeaderOffset c ≤ i < valueHeaderOffset c' ∨
  keyBodyOffset c ≤ i < keyBodyOffset c' ∨
  valBodyOffset c ≤ i < valBodyOffset c'.

Definition bitRegion (L : Layout) (i : Z) : Prop :=
  4 ≤ i < L_poo L ∨ L_sbo L ≤ i < L_po L.

(** What the writes between the cursors [c] and [c'] keep: the bytes of
    the other subtrees and of the head of the page, the structure bits and
    the page bits of the other subtrees. *)
Definition framed (L : Layout) (c c' : Cursors) (data data' : bytes) : Prop :=
  keeps (λ i, ¬ footB c c' i ∧ ¬ bitRegion L i) data data' ∧
  (∀ b, 0 ≤ b < 8 * (L_po L - L_sbo L) → ¬ (structBit c ≤ b < structBit c') →
        get_bit data' (L_sbo L) b = get_bit data (L_sbo L) b) ∧
  (∀ b, 0 ≤ b < 8 * (L_poo L - 4) → ¬ (nodeIndex c ≤ b < nodeIndex c') →
        get_bit data' 4 b = get_bit data 4 b).










(** The cursors before and after the second pass. *)
Definition startC (L : Layout) : Cursors :=
  mkCursors 0 0 (L_kh0 L) (L_ah0 L) (L_vh0 L) (L_kb0 L) (L_vb0 L).

Definition endC (L : Layout) : Cursors :=
  mkCursors (L_nodeCount L) (L_bits L) (L_ah0 L - 4) (L_vh0 L) (L_sbo L) (L_vb0 L)
    (L_size L).


Section Vocabulary.
Context `{cfg : Config}.

(** The effect of the statements that turn a child into an arrow, from
    engine [t] to engine [t1]: a child that is not an arrow is committed by
    [commitPage] and the arrow [a] to its page takes its place; a child
    that is an arrow already is kept and nothing is committed. *)
Definition childToArrow (child : Ref3) (m : Metrics) (t : Avl3) (a : Ref3) (t1 : Avl3)
    : Prop :=
  match child with
  | Arrow3 _ _ _ _ => a = child ∧ t1 = t
  | _ => ∃ child' id h mx,
           commitPage child m t = Ok ((child', id), t1) ∧
           getheight child' = Some h ∧ getmax child' = Some mx ∧
           a = Arrow3 None id h mx
  end.

(** The page budget: no stored page is longer than [PageSize]. *)
Definition pagesFit (t : Avl3) : Prop :=
  ∀ id data, pageMap t !! id = Some data → len data ≤ PageSize.

Definition applyOp (fuel : nat) (op : Op) : M bool :=
  match op with
  | OpInsert key value => Insert fuel key value
  | OpDelete key => Delete fuel key
  end.

Fixpoint applyOps (fuel : nat) (ops : list Op) : M unit :=
  match ops with
  | [] => mret tt
  | op :: ops => applyOp fuel op;; applyOps fuel ops
  end.

End Vocabulary.

(** ** Concrete engines and trees *)


(** The configuration of the examples. *)
Definition cfg0 : Config :=
  {| PageSize := 4096; InlineValueMax := 32; HashLength := 32 |}.

(** A fork of two pinned leaves of equal size, pinned to different pages. *)
Definition tie_fork : Ref3 :=
  Fork3 node0 2
    (Leaf3 (mkNode3 None 5) ["a"%byte] ["1"%byte] 0 1)
    (Leaf3 (mkNode3 None 7) ["b"%byte] ["2"%byte] 0 1)
    ["b"%byte].

Definition tie_mL : Metrics := mkMetrics ["a"%byte] 1 0 1 1 1 (mkPin 5 true).

Definition tie_mR : Metrics := mkMetrics ["b"%byte] 1 0 1 1 1 (mkPin 7 true).

Definition tie_result : Ref3 * Metrics * Avl3 :=
  Eval vm_compute in
    match @forkPass1 cfg0 node0 2 (Leaf3 (mkNode3 None 5) ["a"%byte] ["1"%byte] 0 1)
            (Leaf3 (mkNode3 None 7) ["b"%byte] ["2"%byte] 0 1) ["b"%byte]
            tie_mL tie_mR pin0 NewAvl3 with
    | Ok x => x
    | _ => (Nil, tie_mL, NewAvl3)
    end.

(** The configuration of a small page. *)
Definition cfg75 : Config :=
  {| PageSize := 75; InlineValueMax := 32; HashLength := 32 |}.

(** A fork whose left child is an arrow, to page 9, and whose right child
    is a leaf; [arrow_mL] and [arrow_mR] are the metrics of the two
    children. *)
Definition arrow_fork : Ref3 :=
  Fork3 node0 2
    (Arrow3 None 9 1 ["a"%byte])
    (Leaf3 node0 ["b"%byte] ["2"%byte] 0 1)
    ["b"%byte].

Definition arrow_mL : Metrics := mkMetrics ["a"%byte] 0 1 1 0 1 pin0.

Definition arrow_mR : Metrics := mkMetrics ["b"%byte] 1 0 1 1 1 pin0.

Definition keyA : bytes := ["a"%byte].

Definition keyB : bytes := ["b"%byte].

Definition keyC : bytes := ["c"%byte].

Definition abc_tree (va vb vc : bytes) : Ref3 :=
  Fork3 node0 3
    (Leaf3 node0 keyA va 0 (u32 (len va)))
    (Fork3 node0 2
       (Leaf3 node0 keyB vb 0 (u32 (len vb)))
       (Leaf3 node0 keyC vc 0 (u32 (len vc)))
       keyC)
    keyC.

(** A version file with one entry (page 1) followed by three bytes of an
    entry that was not written to its end. *)
Definition truncated_file : bytes :=
  be_bytes 8 1 ++ ["170"%byte; "187"%byte; "204"%byte].

(** The engine after [Insert("a","1")], [Insert("b","2")], [Insert("c","3")]. *)
Definition abc_engine : Avl3 :=
  set_root (abc_tree ["1"%byte] ["2"%byte] ["3"%byte]) NewAvl3.

Definition abc_committed : Z * Avl3 :=
  Eval vm_compute in
    match @Commit cfg0 abc_engine with
    | Ok x => x
    | _ => (0, NewAvl3)
    end.

(** The engine that holds one leaf whose key has [PageSize] bytes. *)
Definition long_key : bytes := replicate 4096 "a"%byte.

Definition long_engine : Avl3 :=
  set_root (Leaf3 node0 long_key [] 0 0) NewAvl3.

(** The operations of the witness of the round trip. *)
Definition ops0 : list Op :=
  [OpInsert keyA ["1"%byte]; OpInsert keyB ["2"%byte]; OpDelete keyA;
   OpInsert keyB ["3"%byte]; OpInsert keyC []].

(** The root of the page of [abc_committed], as [deserialisePage] answers
    it, and the engine after [Peel] of the root. *)
Definition abc_point : Ref3 * bool :=
  Eval vm_compute in
    match @deserialisePage cfg0 10 1 (Some keyC) 3 abc_committed.2 with
    | Ok (x, _) => x
    | _ => (Nil, false)
    end.

Definition abc_peeled : Ref3 * Avl3 :=
  Eval vm_compute in
    match @Peel cfg0 10 (Arrow3 (Some []) 1 3 keyC) abc_committed.2 with
    | Ok x => x
    | _ => (Nil, NewAvl3)
    end.

Definition abc_page : bytes :=
  Eval vm_compute in default [] (pageMap abc_committed.2 !! 1).

Definition abc_recommitted : Z * Avl3 :=
  Eval vm_compute in
    match @Commit cfg0 abc_committed.2 with
    | Ok r => r
    | _ => (0, abc_committed.2)
    end.



(** * Theorems *)

(** ** Page store: the order of allocation *)





(** ** Page serializer: the pins *)





(** ** The monad of the engine *)

Lemma bind_Ok {A B} (m : M A) (f : A → M B) (t : Avl3) (b : B) (t' : Avl3) :
  (m ≫= f) t = Ok (b, t') ↔ ∃ a t1, m t = Ok (a, t1) ∧ f a t1 = Ok (b, t').
Proof.
  unfold mbind, M_bind. split.
  - destruct (m t) as [[a t1]| |]; [|done|done]. eauto.
  - intros (a & t1 & -> & H). done.
Qed.

Lemma ret_Ok {A} (a b : A) (t t' : Avl3) :
  (mret a : M A) t = Ok (b, t') ↔ a = b ∧ t = t'.
Proof. unfold mret, M_ret. split; [by intros [= -> ->]|by intros [-> ->]]. Qed.

Lemma liftO_Ok {A} (o : option A) (a : A) (t t' : Avl3) :
  liftO o t = Ok (a, t') ↔ o = Some a ∧ t = t'.
Proof.
  destruct o; simpl.
  - unfold mret, M_ret. split; [by intros [= -> ->]|by intros [[= ->] ->]].
  - split; [done|by intros [? _]].
Qed.

Lemma get_Ok (s t t' : Avl3) : get t = Ok (s, t') ↔ s = t ∧ t' = t.
Proof. unfold get. split; [by intros [= -> ->]|by intros [-> ->]]. Qed.

Lemma modify_Ok (f : Avl3 → Avl3) (u : unit) (t t' : Avl3) :
  modify f t = Ok (u, t') ↔ t' = f t.
Proof. unfold modify. destruct u. split; [by intros [= ->]|by intros ->]. Qed.

Lemma lift_Ok {A} (f : Avl3 → A * Avl3) (t : Avl3) (a : A) (t' : Avl3) :
  lift f t = Ok (a, t') ↔ f t = (a, t').
Proof. unfold lift. split; [by intros [= ->]|by intros ->]. Qed.

Ltac destruct_tuple a :=
  lazymatch type of a with
  | (_ * _)%type =>
      let x := fresh "x" in let y := fresh "y" in
      destruct a as [x y]; destruct_tuple x; destruct_tuple y
  | unit => destruct a
  | _ => idtac
  end.

(** Inversion of a run that returned, one statement after the other. *)
Ltac inj_subst H :=
  lazymatch type of H with
  | (_, _) = (_, _) =>
      let H1 := fresh in let H2 := fresh in
      apply pair_equal_spec in H as [H1 H2]; inj_subst H1; inj_subst H2
  | ?x = ?y => first [ is_var y; subst y | is_var x; subst x | idtac ]
  end.

Ltac inv_step H :=
  lazymatch type of H with
  | (_ ≫= _) _ = Ok _ =>
      let a := fresh "a" in let t1 := fresh "t" in
      let H1 := fresh "H" in
      apply bind_Ok in H as (a & t1 & H1 & H);
      first [ apply get_Ok in H1 as [-> ->]
            | apply liftO_Ok in H1 as [H1 <-]
            | apply modify_Ok in H1 as ->
            | apply ret_Ok in H1 as [H1 <-]; inj_subst H1
            | idtac ];
      try destruct_tuple a; cbv beta iota in H
  | mret _ _ = Ok _ =>
      let H1 := fresh "H" in
      first [ apply ret_Ok in H as [H1 <-] | apply ret_Ok in H as [H1 ?] ]; inj_subst H1
  | panic _ = Ok _ => discriminate H
  | outOfFuel _ = Ok _ => discriminate H
  | liftO _ _ = Ok _ => let H1 := fresh "H" in apply liftO_Ok in H as [H1 <-]
  | modify _ _ = Ok _ => apply modify_Ok in H as ->
  end.

Ltac same_max :=
  repeat match goal with
  | H0 : getmax ?x = Some ?a, H1 : getmax ?x = Some ?b |- _ =>
      rewrite H1 in H0; injection H0 as <-
  end.

Ltac inv_steps H := repeat inv_step H.

(** ** Page serializer: the choice of the child that becomes a page *)

Section Pass1.
Context `{cfg : Config}.

Lemma commitChild_inv (child : Ref3) (m : Metrics) (t : Avl3) (a : Ref3) (t1 : Avl3) :
  commitChild child m t = Ok (a, t1) →
  match child with
  | Arrow3 _ _ _ _ => a = child ∧ t1 = t
  | _ => ∃ child' id h mx,
           commitPage child m t = Ok ((child', id), t1) ∧
           getheight child' = Some h ∧ getmax child' = Some mx ∧
           a = Arrow3 None id h mx
  end.
Proof.
  intros H. unfold commitChild in H.
  destruct child; [| | |by apply ret_Ok in H as [<- <-]].
  all: apply bind_Ok in H as ([child' id] & t2 & H1 & H); inv_steps H; eauto 10.
Qed.

(** C5.  At a fork that is not merged into one page with both children,
    the first pass turns the child whose estimated page is larger, the
    right one when the two sizes are equal, into an arrow: the child is
    committed by [commitPage] as a page of its own, unless it is an arrow
    already, which is kept.  The other child stays in the page of the
    fork, or is turned into an arrow in the same way. *)
Theorem forkPass1_not_merged (t : Avl3) nd h fl fr mx mL mR pin f m t' :
  (mergePin3 (m_pinnedPageId mL) (m_pinnedPageId mR) pin).1
    && (metricsSize t (metricsLFR mL mR
          (mergePin3 (m_pinnedPageId mL) (m_pinnedPageId mR) pin).2) <? PageSize) = false →
  forkPass1 nd h fl fr mx mL mR pin t = Ok ((f, m), t') →
  ∃ fl' fr', f = Fork3 nd h fl' fr' mx ∧
    if metricsSize t mL >? metricsSize t mR then
      ∃ t1, childToArrow fl mL t fl' t1 ∧
            ((fr' = fr ∧ t' = t1) ∨ childToArrow fr mR t1 fr' t')
    else
      ∃ t1, childToArrow fr mR t fr' t1 ∧
            ((fl' = fl ∧ t' = t1) ∨ childToArrow fl mL t1 fl' t').
Proof.
  intros Hnot H. unfold forkPass1 in H. inv_steps H.
  destruct (mergePin3 _ _ _) as [mergable3 pin3]. simpl in Hnot. rewrite Hnot in H.
  destruct (mergePin (m_pinnedPageId mR) pin) as [mergableR pinR].
  destruct (mergePin (m_pinnedPageId mL) pin) as [mergableL pinL].
  destruct (metricsSize t mL >? metricsSize t mR).
  - inv_steps H. apply commitChild_inv in H0.
    destruct (mergableR && _).
    + inv_steps H. eexists _, _. split; [done|]. eauto.
    + inv_steps H. apply commitChild_inv in H2.
      eexists _, _. split; [done|]. eauto.
  - inv_steps H. apply commitChild_inv in H0.
    destruct (mergableL && _).
    + inv_steps H. eexists _, _. split; [done|]. eauto.
    + inv_steps H. apply commitChild_inv in H2.
      eexists _, _. split; [done|]. eauto.
Qed.

End Pass1.

(** ** Concrete runs *)

Lemma tie_pass1 :
  (@serialisePass1 cfg0 tie_fork 0 ≫= λ '(f, m, _), mret (f, m)) NewAvl3
  = Ok (tie_result.1, tie_result.2).
Proof. vm_compute. reflexivity. Qed.

Lemma forkPass1_not_merged_witness :
  (mergePin3 (m_pinnedPageId tie_mL) (m_pinnedPageId tie_mR) pin0).1
    && (metricsSize NewAvl3 (metricsLFR tie_mL tie_mR
          (mergePin3 (m_pinnedPageId tie_mL) (m_pinnedPageId tie_mR) pin0).2)
        <? @PageSize cfg0) = false ∧
  @forkPass1 cfg0 node0 2 (Leaf3 (mkNode3 None 5) ["a"%byte] ["1"%byte] 0 1)
    (Leaf3 (mkNode3 None 7) ["b"%byte] ["2"%byte] 0 1) ["b"%byte]
    tie_mL tie_mR pin0 NewAvl3 = Ok (tie_result.1.1, tie_result.1.2, tie_result.2) ∧
  ∃ fl' fr', tie_result.1.1 = Fork3 node0 2 fl' fr' ["b"%byte] ∧
    if metricsSize NewAvl3 tie_mL >? metricsSize NewAvl3 tie_mR then
      ∃ t1, @childToArrow cfg0 (Leaf3 (mkNode3 None 5) ["a"%byte] ["1"%byte] 0 1)
              tie_mL NewAvl3 fl' t1 ∧
            ((fr' = Leaf3 (mkNode3 None 7) ["b"%byte] ["2"%byte] 0 1 ∧
              tie_result.2 = t1) ∨
             @childToArrow cfg0 (Leaf3 (mkNode3 None 7) ["b"%byte] ["2"%byte] 0 1)
               tie_mR t1 fr' tie_result.2)
    else
      ∃ t1, @childToArrow cfg0 (Leaf3 (mkNode3 None 7) ["b"%byte] ["2"%byte] 0 1)
              tie_mR NewAvl3 fr' t1 ∧
            ((fl' = Leaf3 (mkNode3 None 5) ["a"%byte] ["1"%byte] 0 1 ∧
              tie_result.2 = t1) ∨
             @childToArrow cfg0 (Leaf3 (mkNode3 None 5) ["a"%byte] ["1"%byte] 0 1)
               tie_mL t1 fl' tie_result.2).
Proof.
  assert (H1 : (mergePin3 (m_pinnedPageId tie_mL) (m_pinnedPageId tie_mR) pin0).1
    && (metricsSize NewAvl3 (metricsLFR tie_mL tie_mR
          (mergePin3 (m_pinnedPageId tie_mL) (m_pinnedPageId tie_mR) pin0).2)
        <? @PageSize cfg0) = false) by (vm_compute; reflexivity).
  assert (H2 : @forkPass1 cfg0 node0 2 (Leaf3 (mkNode3 None 5) ["a"%byte] ["1"%byte] 0 1)
    (Leaf3 (mkNode3 None 7) ["b"%byte] ["2"%byte] 0 1) ["b"%byte]
    tie_mL tie_mR pin0 NewAvl3 = Ok (tie_result.1.1, tie_result.1.2, tie_result.2))
    by (vm_compute; reflexivity).
  split; [exact H1|]. split; [exact H2|].
  exact (@forkPass1_not_merged cfg0 NewAvl3 node0 2 _ _ _ tie_mL tie_mR pin0 _ _ _ H1 H2).
Defined.

(** With pages of 75 bytes the fork [arrow_fork] does not fit in one page
    with its two children (79 bytes), and its left child, the arrow, is
    the larger one (69 bytes against 30): the arrow is kept as it is, and
    the one page that is committed, page 1, is the page of the right
    child. *)
Lemma arrow_fork_run :
  ∃ f m mp t',
    @serialisePass1 cfg75 (Arrow3 None 9 1 ["a"%byte]) 0 NewAvl3
      = Ok (Arrow3 None 9 1 ["a"%byte], arrow_mL, 0, NewAvl3) ∧
    @serialisePass1 cfg75 (Leaf3 node0 ["b"%byte] ["2"%byte] 0 1) 0 NewAvl3
      = Ok (Leaf3 node0 ["b"%byte] ["2"%byte] 0 1, arrow_mR, 0, NewAvl3) ∧
    metricsSize NewAvl3 arrow_mL = 69 ∧
    metricsSize NewAvl3 arrow_mR = 30 ∧
    metricsSize NewAvl3 (metricsLFR arrow_mL arrow_mR pin0) = 79 ∧
    @serialisePass1 cfg75 arrow_fork 0 NewAvl3 = Ok (f, m, mp, t') ∧
    f = Fork3 node0 2 (Arrow3 None 9 1 ["a"%byte]) (Arrow3 None 1 1 ["b"%byte])
          ["b"%byte] ∧
    commitedCounter t' = 1 ∧
    dom (pageMap t') = {[ 1 ]}.
Proof. eexists _, _, _, _. vm_compute. repeat split. Qed.

(** C7.  On a fresh engine, [Insert] of the keys a, b and c, in this order,
    gives a fork of height 3: its left branch is the leaf of a, of height
    1, its right branch is the fork of height 2 over the leaves of b and
    c, and its largest key is c. *)
Theorem abc_root (cfg : Config) (va vb vc : bytes) (n : nat) :
  (Insert (3 + n) keyA va;; Insert (3 + n) keyB vb;; Insert (3 + n) keyC vc) NewAvl3
  = Ok (true, set_root (abc_tree va vb vc) NewAvl3) ∧
  getheight (abc_tree va vb vc) = Some 3 ∧
  getmax (abc_tree va vb vc) = Some keyC ∧
  heightsCorrect (abc_tree va vb vc) = Some (3, true) ∧
  balanceCorrect (abc_tree va vb vc) = Some true.
Proof. repeat split. Qed.

(** The fork that the three insertions give has not the height 2. *)
Lemma abc_root_not_height2 :
  ∃ t nd h fl fr mx,
    (@Insert cfg0 3 keyA ["1"%byte];; @Insert cfg0 3 keyB ["2"%byte];;
     @Insert cfg0 3 keyC ["3"%byte]) NewAvl3 = Ok (true, t) ∧
    root t = Fork3 nd h fl fr mx ∧ h ≠ 2 ∧
    heightsCorrect (root t) = Some (3, true) ∧
    (∃ ndr flr frr mxr, fr = Fork3 ndr 2 flr frr mxr).
Proof.
  eexists _, _, _, _, _, _. split; [reflexivity|]. split; [reflexivity|].
  split; [done|]. split; [reflexivity|]. by eexists _, _, _, _.
Qed.

(** C8.  The loop of [UseFiles] runs on a read of fewer than 8 bytes: the three
    bytes of the tail, completed by the bytes that the buffer holds from
    the entry before, are recorded as the page id of version 1. *)
Lemma UseFiles_partial_entry_recorded :
  ∃ t, UseFiles_versions truncated_file NewAvl3 = Some (0xAABBCC0000000001, t) ∧
       currentVersion t = 2 ∧
       versions t !! 0 = Some 1 ∧
       versions t !! 1 = Some 0xAABBCC0000000001.
Proof. eexists. vm_compute. repeat split. Qed.

(** ** Byte buffers keep their length *)

Lemma len_nonneg {A} (l : list A) : 0 ≤ len l.
Proof. unfold len. lia. Qed.

Lemma copy_at_length (data : bytes) (off : Z) (src data' : bytes) :
  copy_at data off src = Some data' → length data' = length data.
Proof.
  unfold copy_at. destruct (_ && _) eqn:E; [|done]. intros [= <-].
  apply andb_true_iff in E as [E1 E2]. apply Z.leb_le in E1, E2. unfold len in E2.
  rewrite !length_app, length_take, length_take, length_drop. lia.
Qed.

Lemma PutUint32_length (data : bytes) (off v : Z) (data' : bytes) :
  PutUint32 data off v = Some data' → length data' = length data.
Proof. unfold PutUint32. destruct (_ && _); [apply copy_at_length|done]. Qed.

Lemma PutUint64_length (data : bytes) (off v : Z) (data' : bytes) :
  PutUint64 data off v = Some data' → length data' = length data.
Proof. unfold PutUint64. destruct (_ && _); [apply copy_at_length|done]. Qed.

Lemma set_bit_length (data : bytes) (base bit : Z) (data' : bytes) :
  set_bit data base bit = Some data' → length data' = length data.
Proof.
  unfold set_bit. destruct (data !! _); [|done]. intros [= <-]. apply length_insert.
Qed.

Lemma make_length (n : Z) : len (make n) = Z.max 0 n.
Proof. unfold len, make. rewrite length_replicate. lia. Qed.

Lemma u32_range (x : Z) : 0 ≤ u32 x < 2 ^ 32.
Proof. unfold u32. apply Z.mod_pos_bound. lia. Qed.

Lemma u32_le (x : Z) : 0 ≤ x → u32 x ≤ x.
Proof. intros H. unfold u32. apply Z.mod_le; lia. Qed.

(** ** Page serializer: the page budget *)

Lemma keysBounded_getmax (K : Z) (r : Ref3) (mx : bytes) :
  keysBounded K r → getmax r = Some mx → len mx ≤ K.
Proof. destruct r; simpl; intros H [= <-]; tauto. Qed.

Lemma keysBounded_updateAt (K : Z) (f : Ref3 → Ref3) (p : ArrowPtr) (r : Ref3) :
  (∀ x, keysBounded K x → keysBounded K (f x)) →
  keysBounded K r → keysBounded K (updateAt p f r).
Proof.
  intros Hf. revert r. induction p as [|s p IH]; intros r Hr; simpl; [auto|].
  destruct r; simpl in *; try done. destruct s; simpl; naive_solver.
Qed.

Lemma stable_refl (K : Z) (t : Avl3) : stable K t t.
Proof. by repeat split. Qed.

Lemma stable_trans (K : Z) (t1 t2 t3 : Avl3) :
  stable K t1 t2 → stable K t2 t3 → stable K t1 t3.
Proof. intros (? & ? & ?) (? & ? & ?). repeat split; [congruence|congruence|auto]. Qed.

Lemma stable_setArrowPageId (K : Z) (a : ArrowPtr) (pageId : PageID) (t : Avl3) :
  stable K t (setArrowPageId a pageId t).
Proof.
  repeat split. simpl. apply keysBounded_updateAt. by intros [].
Qed.

Lemma stable_addValue (K : Z) (valueId : Z) (value : bytes) (t : Avl3) :
  stable K t (addValue valueId value t).
Proof. by repeat split. Qed.

Lemma stable_nextPageId (K : Z) (t : Avl3) : stable K t (nextPageId t).2.
Proof.
  unfold nextPageId. destruct (negb _); [by repeat split|].
  destruct (list.last _); by repeat split.
Qed.

Section Budget.
Context `{cfg : Config}.

Lemma serialiseKey_length (key data : bytes) (c : Cursors) (data' : bytes) (c' : Cursors) :
  serialiseKey key data c = Some (data', c') → length data' = length data.
Proof.
  unfold serialiseKey. intros H.
  destruct (PutUint32 _ _ _) as [d1|] eqn:E1; [|done]. simpl in H.
  destruct (copy_at _ _ _) as [d2|] eqn:E2; [|done]. simpl in H.
  injection H as <- <-.
  apply PutUint32_length in E1. apply copy_at_length in E2. congruence.
Qed.

Ltac len_facts :=
  repeat match goal with
  | H : PutUint32 _ _ _ = Some _ |- _ => apply PutUint32_length in H
  | H : PutUint64 _ _ _ = Some _ |- _ => apply PutUint64_length in H
  | H : copy_at _ _ _ = Some _ |- _ => apply copy_at_length in H
  | H : set_bit _ _ _ = Some _ |- _ => apply set_bit_length in H
  | H : serialiseKey _ _ _ = Some _ |- _ => apply serialiseKey_length in H
  end.

Lemma serialiseVal_frame (K : Z) value valueId valueLen data c t vid data' c' t' :
  serialiseVal value valueId valueLen data c t = Ok ((vid, data', c'), t') →
  stable K t t' ∧ length data' = length data.
Proof.
  unfold serialiseVal. intros H. inv_step H.
  destruct (valueLen >? InlineValueMax).
  - inv_step H. inv_step H.
    match goal with
    | H1 : (if valueId =? 0 then _ else _) ?t0 = Ok (_, ?t2) |- _ =>
        assert (stable K t0 t2) by
          (destruct (valueId =? 0); inv_steps H1;
             [apply stable_addValue|apply stable_refl])
    end.
    inv_steps H. len_facts. split; [done|congruence].
  - inv_steps H. len_facts. split; [apply stable_refl|congruence].
Qed.

Ltac inv_cases :=
  repeat match goal with
  | H : (if ?b then _ else _) _ = Ok _ |- _ => destruct b eqn:?; inv_steps H
  | H : (match ?o with Some _ => _ | None => _ end) _ = Ok _ |- _ =>
      destruct o eqn:?; inv_steps H
  end.

Ltac stable_tac K :=
  repeat match goal with
  | H : serialiseVal _ _ _ _ _ _ = Ok _ |- _ =>
      apply (serialiseVal_frame K) in H as [? ?]
  end;
  eauto using stable_refl, stable_trans, stable_setArrowPageId, stable_addValue.

Lemma serialisePass2_frame (K : Z) (r : Ref3) :
  ∀ pageId data prefixLen pinned pbo sbo c t r' data' c' t',
  serialisePass2 r pageId data prefixLen pinned pbo sbo c t = Ok ((r', data', c'), t') →
  stable K t t' ∧ length data' = length data ∧
  getmax r' = getmax r ∧ getheight r' = getheight r ∧
  (keysBounded K r → keysBounded K r').
Proof.
  induction r as [|nd key value valueId valueLen|nd h fl IHl fr IHr mx|arr pid h mx];
    intros pageId data prefixLen pinned pbo sbo c t r' data' c' t' H;
    cbn [serialisePass2] in H.
  - inv_steps H. split; [apply stable_refl|done].
  - inv_steps H. inv_cases.
    all: split; [stable_tac K|].
    all: split; [stable_tac K; len_facts; congruence|done].
  - inv_step H. apply IHl in H0 as (S1 & L1 & M1 & G1 & B1).
    inv_step H. inv_step H. apply IHr in H1 as (S2 & L2 & M2 & G2 & B2).
    inv_steps H. len_facts.
    split.
    { destruct (arrow nd); inv_steps H0; stable_tac K. }
    split; [congruence|]. simpl. split; [done|]. split; [done|].
    intros (? & ? & ?). auto.
  - inv_steps H. inv_cases; len_facts.
    all: split; [apply stable_refl|]; split; [congruence|done].
Qed.

Lemma pageSize_nonneg (t : Avl3) kc pc kb vb sb prefix : 0 ≤ pageSize t kc pc kb vb sb prefix.
Proof. unfold pageSize. apply u32_range. Qed.

(** [commitPage] stores one page, of the size that [pageSize] gives for the
    metrics. *)
Lemma commitPage_spec (K : Z) (r : Ref3) (m : Metrics) (t : Avl3) r' id t' :
  commitPage r m t = Ok ((r', id), t') →
  (∃ data, pageMap t' = <[id := data]> (pageMap t) ∧ len data = metricsSize t m) ∧
  hashLength t' = hashLength t ∧
  (keysBounded K (prevRoot t) → keysBounded K (prevRoot t')) ∧
  getmax r' = getmax r ∧ getheight r' = getheight r ∧
  (keysBounded K r → keysBounded K r').
Proof.
  unfold commitPage. intros H. do 5 inv_step H.
  match goal with
  | H1 : (if pin_pinned _ then _ else _) ?t0 = Ok (_, ?t2) |- _ =>
      assert (stable K t0 t2) as (P1 & P2 & P3);
      [ destruct (pin_pinned _); inv_steps H1; [apply stable_refl|];
        apply lift_Ok in H1;
        match type of H1 with nextPageId ?u = _ =>
          replace t2 with (nextPageId u).2 by (by rewrite H1) end;
        apply stable_nextPageId
      | clear H1 ]
  end.
  inv_step H.
  match goal with
  | H1 : serialisePass2 _ _ _ _ _ _ _ _ _ = Ok _ |- _ =>
      apply (serialisePass2_frame K) in H1 as ((Q1 & Q2 & Q3) & L & M1 & G1 & B1)
  end.
  inv_step H. inv_cases. len_facts.
  split.
  - eexists. split; [simpl; rewrite Q1, P1; reflexivity|].
    unfold len.
    repeat match goal with E : length _ = length _ |- _ => rewrite E; clear E end.
    unfold metricsSize.
    match goal with |- context [pageSize ?t ?a ?b ?c ?d ?e ?f] =>
      pose proof (pageSize_nonneg t a b c d e f);
      generalize dependent (pageSize t a b c d e f) end.
    intros sz _ Hsz. unfold make. rewrite length_replicate. lia.
  - simpl. repeat split; try congruence; auto.
Qed.

Lemma pagesFit_insert (t t' : Avl3) (id : PageID) (data : bytes) :
  pagesFit t → pageMap t' = <[id := data]> (pageMap t) → len data ≤ PageSize →
  pagesFit t'.
Proof.
  intros Hfit Hmap Hlen id' data' Hl. rewrite Hmap in Hl.
  destruct (decide (id' = id)) as [->|Hne].
  - rewrite lookup_insert_eq in Hl. by injection Hl as <-.
  - rewrite lookup_insert_ne in Hl by done. eauto.
Qed.

Lemma metricsSize_hashLength (t t' : Avl3) (m : Metrics) :
  hashLength t' = hashLength t → metricsSize t' m = metricsSize t m.
Proof. intros H. unfold metricsSize, pageSize. by rewrite H. Qed.

Section Bounds.
Variables (K hl : Z).
Hypothesis Hhl : 0 ≤ hl.
Hypothesis HK1 : 28 + K + Z.max InlineValueMax (u32 (8 + HashLength)) ≤ PageSize.
Hypothesis HK2 : 52 + 2 * hl + 2 * K ≤ PageSize.

Lemma leaf_size (t : Avl3) (key : bytes) (valueLen : Z) :
  hashLength t = hl → len key ≤ K → 0 ≤ valueLen →
  pageSize t 1 0 (u32 (len key))
    (if valueLen >? InlineValueMax then u32 (8 + HashLength) else valueLen) 1 key
  ≤ PageSize.
Proof.
  intros Ht Hk Hv. unfold pageSize.
  change (u32 (1 + 0)) with 1. change (u32 (1 + 31) `div` 32) with 1.
  pose proof (len_nonneg key). pose proof (u32_range (len key)).
  pose proof (u32_range (8 + HashLength)).
  set (vb := if valueLen >? InlineValueMax then _ else _).
  assert (0 ≤ vb ≤ Z.max InlineValueMax (u32 (8 + HashLength))).
  { unfold vb. destruct (Z.gtb_spec valueLen InlineValueMax); lia. }
  pose proof (u32_le (len key)).
  etrans; [apply u32_le|]; lia.
Qed.

Lemma arrow_size (t : Avl3) (mx : bytes) :
  hashLength t = hl → len mx ≤ K →
  pageSize t 0 1 (u32 (len mx)) 0 1 mx ≤ PageSize.
Proof.
  intros Ht Hk. unfold pageSize.
  change (u32 (0 + 1)) with 1. change (u32 (1 + 31) `div` 32) with 1.
  pose proof (len_nonneg mx). pose proof (u32_range (len mx)).
  pose proof (u32_le (len mx)).
  etrans; [apply u32_le|]; lia.
Qed.

Lemma commonPrefix_len (a b : bytes) :
  len (commonPrefix a b) ≤ len a ∧ len (commonPrefix a b) ≤ len b.
Proof.
  unfold len. revert b. induction a as [|x a IH]; intros [|y b]; simpl; try lia.
  case_bool_decide; simpl; [|lia]. specialize (IH b). lia.
Qed.

Lemma arrows_size (t : Avl3) (lmax rmax : bytes) (pin : PinnedPageID) :
  hashLength t = hl → len lmax ≤ K → len rmax ≤ K →
  metricsSize t (metricsArrows lmax rmax pin) ≤ PageSize.
Proof.
  intros Ht Hl Hr. unfold metricsSize, metricsArrows, pageSize. simpl.
  change (u32 (0 + 2)) with 2. change (u32 (2 + 31) `div` 32) with 1.
  change (u32 (4 + 31) `div` 32) with 1.
  pose proof (len_nonneg lmax). pose proof (len_nonneg rmax).
  pose proof (commonPrefix_len rmax lmax) as [? ?].
  pose proof (len_nonneg (commonPrefix rmax lmax)).
  pose proof (u32_le (len lmax)). pose proof (u32_le (len rmax)).
  pose proof (u32_le (len (commonPrefix rmax lmax))).
  pose proof (u32_range (len lmax)). pose proof (u32_range (len rmax)).
  destruct (Z_lt_dec PageSize (2 ^ 32)) as [Hps|Hps].
  - assert (E1 : u32 (len lmax) = len lmax) by (apply Z.mod_small; lia).
    assert (E2 : u32 (len rmax) = len rmax) by (apply Z.mod_small; lia).
    assert (E3 : u32 (len (commonPrefix rmax lmax)) = len (commonPrefix rmax lmax))
      by (apply Z.mod_small; lia).
    assert (E4 : u32 (len lmax + len rmax) = len lmax + len rmax)
      by (apply Z.mod_small; lia).
    rewrite E1, E2, E3, E4, Ht.
    etrans; [apply u32_le|]; lia.
  - match goal with |- u32 ?x ≤ _ => pose proof (u32_range x) end. lia.
Qed.

Lemma commitChild_budget (child : Ref3) (m : Metrics) (t : Avl3) (a : Ref3) (t1 : Avl3) :
  hashLength t = hl → keysBounded K child → metricsSize t m ≤ PageSize → pagesFit t →
  commitChild child m t = Ok (a, t1) →
  hashLength t1 = hl ∧ pagesFit t1 ∧ keysBounded K a ∧
  (keysBounded K (prevRoot t) → keysBounded K (prevRoot t1)) ∧
  (∃ mx, getmax a = Some mx ∧ len mx ≤ K).
Proof.
  intros Ht Hk Hm Hfit H. apply commitChild_inv in H.
  destruct child as [|nd key value valueId valueLen|nd h fl fr mx|arr pid h mx].
  4: { destruct H as [-> ->]. simpl in *. eauto 10. }
  all: destruct H as (child' & id & h' & mx' & H & Hh & Hmx & ->);
    apply (commitPage_spec K) in H as ((data & Hmap & Hlen) & Hhl' & Hprev & M1 & G1 & B1);
    specialize (B1 Hk);
    pose proof (keysBounded_getmax _ _ _ B1 Hmx);
    (split; [congruence|]);
    (split; [eapply pagesFit_insert; [exact Hfit|exact Hmap|lia]|]);
    simpl; eauto 10.
Qed.

Lemma forkPass1_budget nd h fl fr mx mL mR pin (t : Avl3) f m t' :
  hashLength t = hl → keysBounded K fl → keysBounded K fr → len mx ≤ K →
  metricsSize t mL ≤ PageSize → metricsSize t mR ≤ PageSize → pagesFit t →
  forkPass1 nd h fl fr mx mL mR pin t = Ok ((f, m), t') →
  hashLength t' = hl ∧ pagesFit t' ∧ keysBounded K f ∧ metricsSize t' m ≤ PageSize ∧
  (keysBounded K (prevRoot t) → keysBounded K (prevRoot t')) ∧
  getmax f = Some mx ∧ getheight f = Some h.
Proof.
  intros Ht Hl Hr Hmx HmL HmR Hfit H. unfold forkPass1 in H. inv_step H.
  destruct (mergePin3 _ _ _) as [mergable3 pin3].
  destruct (mergable3 && _) eqn:E3.
  { inv_steps H. apply andb_true_iff in E3 as [_ E3]. apply Z.ltb_lt in E3.
    simpl. repeat split; auto; lia. }
  destruct (mergePin (m_pinnedPageId mR) pin) as [mergableR pinR].
  destruct (mergePin (m_pinnedPageId mL) pin) as [mergableL pinL].
  destruct (metricsSize _ mL >? metricsSize _ mR).
  - apply bind_Ok in H as (lArrow & t1 & H1 & H).
    apply (commitChild_budget _ _ _ _ _ Ht Hl HmL Hfit) in H1
      as (Ht1 & Hfit1 & Ha & Hp1 & (lmax & Hlm & Hll)).
    inv_step H. same_max.
    destruct (mergableR && _) eqn:ER.
    + inv_steps H. apply andb_true_iff in ER as [_ ER]. apply Z.ltb_lt in ER.
      rewrite (metricsSize_hashLength t) by congruence.
      simpl. repeat split; auto; lia.
    + apply bind_Ok in H as (rArrow & t2 & H2 & H).
      assert (HmR' : metricsSize t1 mR ≤ PageSize)
        by (rewrite (metricsSize_hashLength t t1) by congruence; done).
      apply (commitChild_budget _ _ _ _ _ Ht1 Hr HmR' Hfit1) in H2
        as (Ht2 & Hfit2 & Hb & Hp2 & (rmax & Hrm & Hrl)).
      inv_steps H. same_max. simpl.
      repeat split; auto. apply arrows_size; auto.
  - apply bind_Ok in H as (rArrow & t1 & H1 & H).
    apply (commitChild_budget _ _ _ _ _ Ht Hr HmR Hfit) in H1
      as (Ht1 & Hfit1 & Ha & Hp1 & (rmax & Hrm & Hrl)).
    inv_step H. same_max.
    destruct (mergableL && _) eqn:EL.
    + inv_steps H. apply andb_true_iff in EL as [_ EL]. apply Z.ltb_lt in EL.
      rewrite (metricsSize_hashLength t) by congruence.
      simpl. repeat split; auto; lia.
    + apply bind_Ok in H as (lArrow & t2 & H2 & H).
      assert (HmL' : metricsSize t1 mL ≤ PageSize)
        by (rewrite (metricsSize_hashLength t t1) by congruence; done).
      apply (commitChild_budget _ _ _ _ _ Ht1 Hl HmL' Hfit1) in H2
        as (Ht2 & Hfit2 & Hb & Hp2 & (lmax & Hlm & Hll)).
      inv_steps H. same_max. simpl.
      repeat split; auto. apply arrows_size; auto.
Qed.

Lemma nodePin_maxPageId (nd : Node3) (mp : PageID) : ∃ pin mp', nodePin nd mp = (pin, mp').
Proof. destruct (nodePin nd mp); eauto. Qed.

Lemma serialisePass1_budget (r : Ref3) :
  ∀ mp (t : Avl3) r' m mp' t',
  hashLength t = hl → keysBounded K r → pagesFit t →
  serialisePass1 r mp t = Ok ((r', m, mp'), t') →
  hashLength t' = hl ∧ pagesFit t' ∧ keysBounded K r' ∧ metricsSize t' m ≤ PageSize ∧
  (keysBounded K (prevRoot t) → keysBounded K (prevRoot t')) ∧
  getmax r' = getmax r ∧ getheight r' = getheight r.
Proof.
  induction r as [|nd key value valueId valueLen|nd h fl IHl fr IHr mx|arr pid h mx];
    intros mp t r' m mp' t' Ht Hk Hfit H; cbn [serialisePass1] in H.
  - done.
  - destruct (nodePin nd mp) as [pin mp1]. inv_steps H.
    destruct Hk as [Hk Hv]. repeat split; auto.
    unfold metricsSize; simpl. by apply leaf_size.
  - destruct (nodePin nd mp) as [pin mp1]. destruct Hk as (Hmx & Hl & Hr).
    apply bind_Ok in H as ([[fl' mL] mp2] & t1 & H1 & H).
    apply (IHl _ _ _ _ _ _ Ht Hl Hfit) in H1 as (Ht1 & Hfit1 & Hl' & HmL & Hp1 & _ & _).
    apply bind_Ok in H as ([[fr' mR] mp3] & t2 & H2 & H).
    apply (IHr _ _ _ _ _ _ Ht1 Hr Hfit1) in H2 as (Ht2 & Hfit2 & Hr' & HmR & Hp2 & _ & _).
    apply bind_Ok in H as ([f mf] & t3 & H3 & H).
    assert (HmL' : metricsSize t2 mL ≤ PageSize)
      by (rewrite (metricsSize_hashLength t1) by congruence; done).
    apply (forkPass1_budget _ _ _ _ _ _ _ _ _ _ _ _ Ht2 Hl' Hr' Hmx HmL' HmR Hfit2) in H3
      as (Ht3 & Hfit3 & Hf & Hmf & Hp3 & Hgm & Hgh).
    inv_steps H. repeat split; auto.
  - inv_steps H. simpl in Hk. repeat split; auto.
    unfold metricsSize; simpl. by apply arrow_size.
Qed.

Lemma pagesFit_freePageId (pageId : PageID) (t : Avl3) :
  pagesFit t → pagesFit (freePageId pageId t).
Proof.
  intros Hfit. unfold freePageId. destruct (pageMap t !! pageId) eqn:E; [|done].
  intros id data Hl. simpl in Hl. apply lookup_delete_Some in Hl as [_ Hl]. eauto.
Qed.

Lemma hashLength_freePageId (pageId : PageID) (t : Avl3) :
  hashLength (freePageId pageId t) = hashLength t.
Proof. unfold freePageId. by destruct (pageMap t !! pageId). Qed.

Lemma pagesFit_free_all (X : gset Z) (t : Avl3) :
  pagesFit t → pagesFit (set_fold freePageId t X).
Proof.
  intros Hfit.
  apply (set_fold_ind_L (λ r _, pagesFit r)); [done|].
  intros x Y r _ Hr. by apply pagesFit_freePageId.
Qed.

End Bounds.

Lemma pagesFit_ext (t t' : Avl3) : pageMap t' = pageMap t → pagesFit t → pagesFit t'.
Proof. intros E Hfit id data. rewrite E. apply Hfit. Qed.

(** The two passes on a tree, as [Commit] runs them on [t.root] and on
    [t.prevRoot]. *)
Lemma passes_budget (K : Z) (g : Avl3 → Avl3) (r : Ref3) (mp : PageID) (t : Avl3)
    r1 m mp' t1 r2 id t2 :
  0 ≤ hashLength t →
  28 + K + Z.max InlineValueMax (u32 (8 + HashLength)) ≤ PageSize →
  52 + 2 * hashLength t + 2 * K ≤ PageSize →
  (∀ u, pageMap (g u) = pageMap u ∧ hashLength (g u) = hashLength u) →
  keysBounded K r → pagesFit t →
  serialisePass1 r mp t = Ok ((r1, m, mp'), t1) →
  commitPage r1 m (g t1) = Ok ((r2, id), t2) →
  pagesFit t2 ∧ hashLength t2 = hashLength t ∧ keysBounded K r1 ∧
  (keysBounded K (prevRoot t) → keysBounded K (prevRoot t1)) ∧
  (keysBounded K (prevRoot (g t1)) → keysBounded K (prevRoot t2)).
Proof.
  intros Hhl HK1 HK2 Hg Hr Hfit H1 H2.
  apply (serialisePass1_budget K (hashLength t) Hhl HK1 HK2 _ _ _ _ _ _ _ eq_refl
           Hr Hfit) in H1 as (Ht1 & Hfit1 & Hr1 & Hm & Hp1 & _ & _).
  apply (commitPage_spec K) in H2 as ((data & Hmap & Hlen) & Hhl2 & Hp2 & _ & _ & _).
  destruct (Hg t1) as [Hg1 Hg2].
  repeat split; auto; [|congruence].
  eapply pagesFit_insert; [apply (pagesFit_ext t1); [exact Hg1|exact Hfit1]|exact Hmap|].
  rewrite Hlen, (metricsSize_hashLength t1) by exact Hg2. exact Hm.
Qed.

(** C9.  On an engine whose keys, in the tree and in the tree of the
    previous version, have at most [K] bytes, where a leaf with such a key
    and a fork of two arrows with such keys fit in a page, [Commit] stores
    only pages of at most [PageSize] bytes: no page of the engine is longer
    after the call when none was before. *)
Theorem Commit_budget (K : Z) (t t' : Avl3) (n : Z) :
  0 ≤ hashLength t →
  28 + K + Z.max InlineValueMax (u32 (8 + HashLength)) ≤ PageSize →
  52 + 2 * hashLength t + 2 * K ≤ PageSize →
  keysBounded K (root t) → keysBounded K (prevRoot t) →
  pagesFit t → Commit t = Ok (n, t') → pagesFit t'.
Proof.
  intros Hhl HK1 HK2 Hroot Hprev Hfit H.
  unfold Commit in H. inv_step H.
  destruct (root t) eqn:Er; [by inv_steps H|..]; rewrite <- Er in *; clear Er.
  all: apply bind_Ok in H as ([[cr cm] mp] & t1 & H1 & H).
  all: inv_step H.
  all: apply bind_Ok in H as ([cr2 currentId] & t2 & H2 & H).
  all: destruct (passes_budget K (set_root cr) _ _ _ _ _ _ _ _ _ _ Hhl HK1 HK2
                   (λ u, conj eq_refl eq_refl) Hroot Hfit H1 H2)
         as (Hfit2 & Hhl2 & _ & Hp1 & Hp2).
  all: specialize (Hp2 (Hp1 Hprev)).
  all: inv_step H; inv_step H.
  all: apply bind_Ok in H as ([] & t3 & H3 & H).
  all: assert (Hfit3 : pagesFit t3);
    [ change (prevRoot (set_root cr2 t2)) with (prevRoot t2) in H3;
      rewrite <- Hhl2 in Hhl, HK2;
      destruct (prevRoot t2) eqn:Ep; [inv_steps H3; exact Hfit2|..];
      rewrite <- Ep in *; clear Ep;
      apply bind_Ok in H3 as ([[cp pm] pmp] & t4 & H4 & H3);
      inv_step H3;
      apply bind_Ok in H3 as ([cp2 prevId] & t5 & H5 & H3);
      destruct (passes_budget K (set_prevRoot cp) _ _ (set_root cr2 t2) _ _ _ _ _ _ _
                  Hhl HK1 HK2 (λ u, conj eq_refl eq_refl) Hp2 Hfit2 H4 H5)
        as (Hfit5 & _);
      inv_steps H3; exact Hfit5
    | ].
  all: inv_steps H.
  all: eapply pagesFit_ext; [|apply pagesFit_free_all; exact Hfit3]; reflexivity.
Qed.

End Budget.

(** *** Concrete runs of [Commit] *)

Lemma abc_Commit : @Commit cfg0 abc_engine = Ok abc_committed.
Proof. vm_compute. reflexivity. Qed.

Lemma long_Insert :
  @Insert cfg0 1 long_key [] NewAvl3 = Ok (true, long_engine).
Proof. vm_compute. reflexivity. Qed.

(** [Commit] stores the leaf of [long_engine] in page 1, of 4124 bytes,
    with pages of 4096 bytes. *)
Lemma long_Commit_page :
  ∃ n t' data,
    @Commit cfg0 long_engine = Ok (n, t') ∧
    pageMap t' !! 1 = Some data ∧ len data = 4124 ∧ @PageSize cfg0 = 4096.
Proof. eexists _, _, _. vm_compute. repeat split. Qed.

Lemma Commit_budget_witness :
  0 ≤ hashLength abc_engine ∧
  28 + 1 + Z.max (@InlineValueMax cfg0) (u32 (8 + @HashLength cfg0)) ≤ @PageSize cfg0 ∧
  52 + 2 * hashLength abc_engine + 2 * 1 ≤ @PageSize cfg0 ∧
  keysBounded 1 (root abc_engine) ∧
  keysBounded 1 (prevRoot abc_engine) ∧
  @pagesFit cfg0 abc_engine ∧
  @Commit cfg0 abc_engine = Ok (abc_committed.1, abc_committed.2) ∧
  @pagesFit cfg0 abc_committed.2.
Proof.
  assert (H1 : 0 ≤ hashLength abc_engine) by (by vm_compute).
  assert (H2 : 28 + 1 + Z.max (@InlineValueMax cfg0) (u32 (8 + @HashLength cfg0))
               ≤ @PageSize cfg0) by (by vm_compute).
  assert (H3 : 52 + 2 * hashLength abc_engine + 2 * 1 ≤ @PageSize cfg0) by (by vm_compute).
  assert (H4 : keysBounded 1 (root abc_engine)) by (by vm_compute).
  assert (H5 : keysBounded 1 (prevRoot abc_engine)) by exact I.
  assert (H6 : @pagesFit cfg0 abc_engine).
  { intros id data H. change (pageMap abc_engine) with (∅ : gmap Z bytes) in H.
    rewrite lookup_empty in H. discriminate H. }
  assert (H7 : @Commit cfg0 abc_engine = Ok (abc_committed.1, abc_committed.2))
    by exact abc_Commit.
  split; [exact H1|]. split; [exact H2|]. split; [exact H3|]. split; [exact H4|].
  split; [exact H5|]. split; [exact H6|]. split; [exact H7|].
  exact (@Commit_budget cfg0 1 abc_engine abc_committed.2 abc_committed.1
           H1 H2 H3 H4 H5 H6 H7).
Defined.

(** ** The order of the keys *)

Lemma byte_to_N_inj (x y : byte) : Byte.to_N x = Byte.to_N y → x = y.
Proof.
  intros H. assert (Some x = Some y) as [= ->]; [|done].
  by rewrite <- !Byte.of_to_N, H.
Qed.

Lemma bytes_Compare_refl (a : bytes) : bytes_Compare a a = Eq.
Proof. induction a as [|x a IH]; simpl; [done|]. by rewrite N.compare_refl. Qed.

Lemma bytes_Compare_eq (a b : bytes) : bytes_Compare a b = Eq → a = b.
Proof.
  revert b. induction a as [|x a IH]; intros [|y b]; simpl; try done.
  destruct (N.compare_spec (Byte.to_N x) (Byte.to_N y)) as [E| |]; try done.
  intros H. apply byte_to_N_inj in E. f_equal; auto.
Qed.

Lemma bytes_Compare_antisym (a b : bytes) :
  bytes_Compare b a = CompOpp (bytes_Compare a b).
Proof.
  revert b. induction a as [|x a IH]; intros [|y b]; simpl; try done.
  rewrite (N.compare_antisym (Byte.to_N x) (Byte.to_N y)).
  destruct (Byte.to_N x ?= Byte.to_N y)%N; simpl; auto.
Qed.

Lemma bytes_Compare_lt_trans (a b c : bytes) :
  bytes_Compare a b = Lt → bytes_Compare b c = Lt → bytes_Compare a c = Lt.
Proof.
  revert b c. induction a as [|x a IH]; intros [|y b] [|z c]; simpl; try done.
  destruct (N.compare_spec (Byte.to_N x) (Byte.to_N y)) as [E1|E1|E1]; try done;
  destruct (N.compare_spec (Byte.to_N y) (Byte.to_N z)) as [E2|E2|E2]; try done;
  intros H1 H2.
  - rewrite E1, E2, N.compare_refl. eauto.
  - rewrite E1. by apply N.compare_lt_iff in E2 as ->.
  - rewrite <- E2. by apply N.compare_lt_iff in E1 as ->.
  - assert (Byte.to_N x < Byte.to_N z)%N as ->%N.compare_lt_iff by lia. done.
Qed.

Lemma klt_irrefl (a : bytes) : ¬ klt a a.
Proof. unfold klt. by rewrite bytes_Compare_refl. Qed.

Lemma klt_trans (a b c : bytes) : klt a b → klt b c → klt a c.
Proof. apply bytes_Compare_lt_trans. Qed.

Lemma kle_refl (a : bytes) : kle a a.
Proof. unfold kle. by rewrite bytes_Compare_refl. Qed.

Lemma kle_cases (a b : bytes) : kle a b ↔ klt a b ∨ a = b.
Proof.
  unfold kle, klt. split.
  - destruct (bytes_Compare a b) eqn:E; [|by left|done].
    right. by apply bytes_Compare_eq.
  - intros [->| ->]; [done|]. by rewrite bytes_Compare_refl.
Qed.

Lemma klt_gt (a b : bytes) : klt a b ↔ bytes_Compare b a = Gt.
Proof.
  unfold klt. rewrite (bytes_Compare_antisym a b).
  destruct (bytes_Compare a b); simpl; split; done.
Qed.

Lemma kle_lt_trans (a b c : bytes) : kle a b → klt b c → klt a c.
Proof. intros [?| ->]%kle_cases ?; eauto using klt_trans. Qed.

Lemma klt_le_trans (a b c : bytes) : klt a b → kle b c → klt a c.
Proof. intros ? [?| <-]%kle_cases; eauto using klt_trans. Qed.

Lemma kle_trans (a b c : bytes) : kle a b → kle b c → kle a c.
Proof.
  intros [?| ->]%kle_cases ?; [|done].
  apply kle_cases. left. eauto using klt_le_trans.
Qed.

Lemma klt_not_le (a b : bytes) : klt a b → ¬ kle b a.
Proof. intros H H'. apply (klt_irrefl a). eauto using klt_le_trans. Qed.

Lemma not_kle_lt (a b : bytes) : ¬ kle a b → klt b a.
Proof.
  unfold kle. intros H. apply klt_gt.
  destruct (bytes_Compare a b); try done; exfalso; by apply H.
Qed.

Lemma klt_ne (a b : bytes) : klt a b → a ≠ b.
Proof. intros H ->. by apply (klt_irrefl b). Qed.

Lemma bytes_Equal_true (a b : bytes) : bytes_Equal a b = true ↔ a = b.
Proof. unfold bytes_Equal. apply bool_decide_eq_true. Qed.

(** ** The tree in memory *)

Lemma ht_fork nd h fl fr mx : ht (Fork3 nd h fl fr mx) = h.
Proof. done. Qed.
Lemma ht_leaf nd k v vi vl : ht (Leaf3 nd k v vi vl) = 1.
Proof. done. Qed.
Lemma mxk_fork nd h fl fr mx : mxk (Fork3 nd h fl fr mx) = mx.
Proof. done. Qed.
Lemma mxk_leaf nd k v vi vl : mxk (Leaf3 nd k v vi vl) = k.
Proof. done. Qed.

Lemma ksep_union_l (A B C : gset bytes) : ksep (A ∪ B) C ↔ ksep A C ∧ ksep B C.
Proof. unfold ksep. set_solver. Qed.

Lemma ksep_union_r (A B C : gset bytes) : ksep A (B ∪ C) ↔ ksep A B ∧ ksep A C.
Proof. unfold ksep. set_solver. Qed.

Lemma ksep_singleton (a b : bytes) : ksep {[ a ]} {[ b ]} ↔ klt a b.
Proof. unfold ksep. set_solver. Qed.

Lemma keys_fork nd h fl fr mx : keys (Fork3 nd h fl fr mx) = keys fl ∪ keys fr.
Proof. unfold keys. simpl. by rewrite dom_union_L. Qed.

Lemma keys_leaf nd k v vi vl : keys (Leaf3 nd k v vi vl) = {[ k ]}.
Proof. unfold keys. simpl. by rewrite dom_singleton_L. Qed.

Lemma avl_getheight (r : Ref3) : avl r → getheight r = Some (ht r).
Proof. by destruct r. Qed.

Lemma avl_getmax (r : Ref3) : avl r → getmax r = Some (mxk r).
Proof. by destruct r. Qed.

Lemma avl_ht_leaves (r : Ref3) : avl r → 1 ≤ ht r ≤ leaves r.
Proof.
  induction r as [|nd k v vi vl|nd h fl IHl fr IHr mx|]; simpl; try done.
  intros (_ & Hl & Hr & -> & Hb & _). specialize (IHl Hl). specialize (IHr Hr).
  rewrite ht_fork. lia.
Qed.

(** The key [max] of a tree is its largest key. *)
Lemma avl_mxk (r : Ref3) :
  avl r → mxk r ∈ keys r ∧ ∀ a, a ∈ keys r → kle a (mxk r).
Proof.
  induction r as [|nd k v vi vl|nd h fl IHl fr IHr mx|]; simpl; try done.
  - intros _. rewrite keys_leaf, mxk_leaf. split; [set_solver|].
    intros a ->%elem_of_singleton. apply kle_refl.
  - intros (_ & Hl & Hr & _ & _ & -> & Hsep).
    destruct (IHl Hl) as [Hl1 Hl2]. destruct (IHr Hr) as [Hr1 Hr2].
    rewrite keys_fork, mxk_fork.
    split; [set_solver|]. intros a [Ha|Ha]%elem_of_union; [|auto].
    apply kle_cases. left. by apply Hsep.
Qed.

Lemma contents_lookup_keys (r : Ref3) (k : bytes) :
  k ∉ keys r → contents r !! k = None.
Proof. unfold keys. by rewrite not_elem_of_dom. Qed.

Lemma avl_keys_nonempty (r : Ref3) : avl r → keys r ≠ ∅.
Proof. intros [H _]%avl_mxk. set_solver. Qed.

Lemma bind_ret {A B} (a : A) (f : A → M B) (t : Avl3) : (mret a ≫= f) t = f a t.
Proof. done. Qed.

Lemma bind_liftO {A B} (a : A) (f : A → M B) (t : Avl3) : (liftO (Some a) ≫= f) t = f a t.
Proof. done. Qed.

Lemma bind_get {B} (f : Avl3 → M B) (t : Avl3) : (get ≫= f) t = f t t.
Proof. done. Qed.

Lemma bind_modify {B} (g : Avl3 → Avl3) (f : unit → M B) (t : Avl3) :
  (modify g ≫= f) t = f tt (g t).
Proof. done. Qed.

Lemma lookup_fork_l (fl fr : Ref3) (key : bytes) :
  avl fl → ksep (keys fl) (keys fr) → kle key (mxk fl) →
  (contents fl ∪ contents fr) !! key = contents fl !! key.
Proof.
  intros Hl Hsep Hle.
  destruct (contents fl !! key) as [v|] eqn:E.
  - by apply lookup_union_Some_l.
  - apply lookup_union_None. split; [done|].
    apply contents_lookup_keys. intros Hin.
    destruct (avl_mxk fl Hl) as [Hm _].
    specialize (Hsep _ _ Hm Hin). by apply (klt_not_le _ _ Hsep).
Qed.

Lemma lookup_fork_r (fl fr : Ref3) (key : bytes) :
  avl fl → klt (mxk fl) key →
  (contents fl ∪ contents fr) !! key = contents fr !! key.
Proof.
  intros Hl Hlt. apply lookup_union_r.
  apply contents_lookup_keys. intros Hin.
  destruct (avl_mxk fl Hl) as [_ Hm].
  by apply (klt_not_le _ _ Hlt), Hm.
Qed.

Section PlainTree.
Context `{cfg : Config}.

(** [Get] on a tree in memory is the lookup in its contents. *)
Lemma GetLoop_avl (r : Ref3) (key : bytes) (t : Avl3) :
  ∀ fuel, avl r → ht r ≤ Z.of_nat fuel →
  GetLoop fuel r key t =
    Ok (match contents r !! key with Some v => (v, true) | None => ([], false) end, t).
Proof.
  induction r as [|nd k v vi vl|nd h fl IHl fr IHr mx|]; intros fuel Havl Hf;
    try done.
  - rewrite ht_leaf in Hf. destruct fuel as [|fuel]; [lia|]. destruct Havl as [_ ->].
    cbn [GetLoop contents]. unfold bytes_Equal. case_bool_decide as E.
    + subst. by rewrite lookup_singleton_eq.
    + rewrite lookup_singleton_ne by done. done.
  - destruct Havl as (_ & Hl & Hr & -> & Hb & -> & Hsep).
    rewrite ht_fork in Hf.
    destruct fuel as [|fuel]; [pose proof (avl_ht_leaves _ Hl); lia|].
    cbn [GetLoop contents]. rewrite (avl_getmax _ Hl), bind_liftO.
    destruct (bytes_Compare key (mxk fl)) eqn:E.
    + rewrite IHl by (auto; lia). rewrite lookup_fork_l; auto.
      unfold kle. by rewrite E.
    + rewrite IHl by (auto; lia). rewrite lookup_fork_l; auto.
      unfold kle. by rewrite E.
    + rewrite IHr by (auto; lia). rewrite lookup_fork_r; auto.
      by apply klt_gt.
Qed.

End PlainTree.

Lemma maxu32_max (a b : Z) : maxu32 a b = Z.max a b.
Proof. unfold maxu32. destruct (Z.gtb_spec a b); lia. Qed.

Lemma u32_small (x : Z) : 0 ≤ x < 2 ^ 32 → u32 x = x.
Proof. intros H. unfold u32. by apply Z.mod_small. Qed.

Lemma bind_Ok_eq {A B} (m : M A) (f : A → M B) (t : Avl3) (a : A) (t1 : Avl3) :
  m t = Ok (a, t1) → (m ≫= f) t = f a t1.
Proof. unfold mbind, M_bind. by intros ->. Qed.

(** One statement of a run that returns: the run goes on with its result. *)
Ltac run_with tac := erewrite bind_Ok_eq; [|tac].

Section Rebalance.
Context `{cfg : Config}.

Lemma height1_avl (a b : Ref3) (t : Avl3) :
  avl a → avl b → leaves a + leaves b < 2 ^ 32 - 1 →
  height1 a b t = Ok (1 + Z.max (ht a) (ht b), t).
Proof.
  intros Ha Hb Hn. unfold height1.
  rewrite (avl_getheight a Ha), bind_liftO, (avl_getheight b Hb), bind_liftO.
  pose proof (avl_ht_leaves a Ha). pose proof (avl_ht_leaves b Hb).
  rewrite maxu32_max, u32_small by lia. done.
Qed.

Lemma Peel_fork (fuel : nat) nd h fl fr mx (t : Avl3) :
  Peel (S fuel) (Fork3 nd h fl fr mx) t = Ok (Fork3 nd h fl fr mx, t).
Proof. done. Qed.

Lemma Peel_leaf (fuel : nat) nd k v vi vl (t : Avl3) :
  Peel (S fuel) (Leaf3 nd k v vi vl) t = Ok (Leaf3 nd k v vi vl, t).
Proof. done. Qed.

Lemma Peel_avl (fuel : nat) (r : Ref3) (t : Avl3) :
  avl r → Peel (S fuel) r t = Ok (r, t).
Proof. by destruct r. Qed.

Lemma unarrowFork_avl (r : Ref3) (t : Avl3) :
  avl r → 2 ≤ ht r →
  ∃ nd h fl fr mx, r = Fork3 nd h fl fr mx ∧ unarrowFork r t = Ok (r, t).
Proof.
  destruct r as [|nd k v vi vl|nd h fl fr mx|]; try done.
  intros (Ha & _) _. exists nd, h, fl, fr, mx. split; [done|].
  unfold unarrowFork. by rewrite Ha.
Qed.

(** A fork of two trees in memory, of heights that differ by one at most. *)
Lemma avl_fork nd fl fr :
  arrow nd = None → avl fl → avl fr → -1 ≤ ht fl - ht fr ≤ 1 →
  ksep (keys fl) (keys fr) →
  avl (Fork3 nd (1 + Z.max (ht fl) (ht fr)) fl fr (mxk fr)).
Proof. intros. simpl. auto 10. Qed.

Ltac open_fork H :=
  let Ha := fresh "Ha" in let Hl := fresh "Hl" in let Hr := fresh "Hr" in
  let Hh := fresh "Hh" in let Hb := fresh "Hb" in let Hm := fresh "Hm" in
  let Hs := fresh "Hs" in
  destruct H as (Ha & Hl & Hr & Hh & Hb & Hm & Hs);
  pose proof (avl_ht_leaves _ Hl); pose proof (avl_ht_leaves _ Hr).

Ltac ksep_tac :=
  rewrite ?keys_fork, ?ksep_union_l, ?ksep_union_r in *; tauto.

Ltac rebalanced_tac :=
  unfold rebalanced; cbn [avl contents leaves];
  rewrite ?ht_fork, ?mxk_fork in *;
  repeat match goal with
  | |- _ ∧ _ => split
  | |- ksep _ _ => ksep_tac
  | |- avl _ => assumption
  | |- @eq (gmap _ _) _ _ => by rewrite ?(assoc_L (∪))
  | |- _ => first [ done | lia ]
  end.

Lemma height1_ht (a b : Ref3) (t : Avl3) :
  avl a → avl b → 1 + Z.max (ht a) (ht b) < 2 ^ 32 →
  height1 a b t = Ok (1 + Z.max (ht a) (ht b), t).
Proof.
  intros Ha Hb Hn. unfold height1.
  rewrite (avl_getheight a Ha), bind_liftO, (avl_getheight b Hb), bind_liftO.
  pose proof (avl_ht_leaves a Ha). pose proof (avl_ht_leaves b Hb).
  rewrite maxu32_max, u32_small by lia. done.
Qed.

Lemma insertRebalance_avl (fuel : nat) (key : bytes) nd fl fr (t : Avl3) :
  arrow nd = None → avl fl → avl fr → -2 ≤ ht fl - ht fr ≤ 2 →
  ksep (keys fl) (keys fr) → kle key (mxk fr) →
  leaves fl + leaves fr < 2 ^ 32 - 1 →
  ∃ r', insertRebalance (S fuel) key nd fl fr (mxk fr) t = Ok (r', t) ∧ rebalanced fl fr r'.
Proof.
  intros Hnd Hfl Hfr Hd Hsep Hkey Hn. unfold insertRebalance.
  rewrite (avl_getheight fl Hfl), bind_liftO, (avl_getheight fr Hfr), bind_liftO.
  pose proof (avl_ht_leaves _ Hfl). pose proof (avl_ht_leaves _ Hfr).
  rewrite maxu32_max.
  destruct (Z.gtb_spec (ht fr) (ht fl)).
  - rewrite (u32_small (ht fr - ht fl)) by lia.
    destruct (Z.gtb_spec (ht fr - ht fl) 1).
    + run_with ltac:(by apply Peel_avl).
      destruct (unarrowFork_avl fr t Hfr) as (ndr & hr & nrl & nrr & mr & -> & Hu); [lia|].
      run_with ltac:(exact Hu). clear Hu. cbn [asFork]. rewrite bind_ret.
      rewrite ?ht_fork, ?mxk_fork in *. cbn [leaves] in Hn.
      open_fork Hfr. subst hr mr.
      rewrite (avl_getheight nrr) by done. rewrite bind_liftO.
      rewrite (avl_getheight nrl) by done. rewrite bind_liftO.
      destruct (Z.geb_spec (ht nrr) (ht nrl)).
      * run_with ltac:(apply height1_avl; (done || lia)).
        rewrite (avl_getmax nrl) by done. rewrite bind_liftO.
        assert (Hn' : avl (Fork3 nd (1 + Z.max (ht fl) (ht nrl)) fl nrl (mxk nrl)))
          by (apply avl_fork; [done..|lia|ksep_tac]).
        run_with ltac:(apply height1_avl; (done || cbn [leaves]; lia)).
        eexists. split; [reflexivity|]. rebalanced_tac.
      * run_with ltac:(by apply Peel_avl).
        destruct (unarrowFork_avl nrl t Hl)
          as (ndrl & hrl & nrll & nrlr & mrl & -> & Hu); [lia|].
        run_with ltac:(exact Hu). clear Hu. cbn [asFork]. rewrite bind_ret.
        rewrite ?ht_fork, ?mxk_fork in *. cbn [leaves] in *.
        open_fork Hl. subst hrl mrl.
        run_with ltac:(apply height1_avl; (done || lia)).
        rewrite (avl_getmax nrll) by done. rewrite bind_liftO.
        assert (Hn' : avl (Fork3 nd (1 + Z.max (ht fl) (ht nrll)) fl nrll (mxk nrll)))
          by (apply avl_fork; [done..|lia|ksep_tac]).
        run_with ltac:(apply height1_avl; (done || lia)).
        assert (Hr' : avl (Fork3 ndr (1 + Z.max (ht nrlr) (ht nrr)) nrlr nrr (mxk nrr)))
          by (apply avl_fork; [done..|lia|ksep_tac]).
        run_with ltac:(apply height1_avl; (done || cbn [leaves]; lia)).
        eexists. split; [reflexivity|]. rebalanced_tac.
    + rewrite u32_small by lia.
      eexists. split; [reflexivity|]. rebalanced_tac.
  - rewrite (u32_small (ht fl - ht fr)) by lia.
    destruct (Z.gtb_spec (ht fl - ht fr) 1).
    + run_with ltac:(by apply Peel_avl).
      destruct (unarrowFork_avl fl t Hfl) as (ndl & hl & nll & nlr & ml & -> & Hu); [lia|].
      run_with ltac:(exact Hu). clear Hu. cbn [asFork]. rewrite bind_ret.
      rewrite ?ht_fork, ?mxk_fork in *. cbn [leaves] in Hn.
      open_fork Hfl. subst hl ml.
      rewrite (avl_getheight nll) by done. rewrite bind_liftO.
      rewrite (avl_getheight nlr) by done. rewrite bind_liftO.
      assert (Hcmp : match bytes_Compare key (mxk fr) with Gt => key | _ => mxk fr end
                     = mxk fr).
      { unfold kle in Hkey. by destruct (bytes_Compare key (mxk fr)). }
      destruct (Z.geb_spec (ht nll) (ht nlr)).
      * run_with ltac:(apply height1_avl; (done || lia)).
        assert (Hn' : avl (Fork3 nd (1 + Z.max (ht nlr) (ht fr)) nlr fr (mxk fr)))
          by (apply avl_fork; [done..|lia|ksep_tac]).
        run_with ltac:(apply height1_avl; (done || cbn [leaves]; lia)).
        rewrite Hcmp.
        eexists. split; [reflexivity|]. rebalanced_tac.
      * run_with ltac:(by apply Peel_avl).
        destruct (unarrowFork_avl nlr t Hr)
          as (ndlr & hlr & nlrl & nlrr & mlr & -> & Hu); [lia|].
        run_with ltac:(exact Hu). clear Hu. cbn [asFork]. rewrite bind_ret.
        rewrite ?ht_fork, ?mxk_fork in *. cbn [leaves] in *.
        open_fork Hr. subst hlr mlr.
        run_with ltac:(apply height1_avl; (done || lia)).
        assert (Hn' : avl (Fork3 nd (1 + Z.max (ht nlrr) (ht fr)) nlrr fr (mxk fr)))
          by (apply avl_fork; [done..|lia|ksep_tac]).
        run_with ltac:(apply height1_avl; (done || lia)).
        rewrite (avl_getmax nlrl) by done. rewrite bind_liftO.
        assert (Hl' : avl (Fork3 ndl (1 + Z.max (ht nll) (ht nlrl)) nll nlrl (mxk nlrl)))
          by (apply avl_fork; [done..|lia|ksep_tac]).
        run_with ltac:(apply height1_avl; (done || cbn [leaves]; lia)).
        eexists. split; [reflexivity|]. rebalanced_tac.
    + rewrite u32_small by lia.
      eexists. split; [reflexivity|]. rebalanced_tac.
Qed.

Lemma deleteRebalance_avl (fuel : nat) nd fl fr (t : Avl3) :
  arrow nd = None → avl fl → avl fr → -2 ≤ ht fl - ht fr ≤ 2 →
  ksep (keys fl) (keys fr) →
  leaves fl + leaves fr < 2 ^ 32 - 1 →
  ∃ r', deleteRebalance (S fuel) nd fl fr (mxk fr) t = Ok (r', t) ∧ rebalanced fl fr r'.
Proof.
  intros Hnd Hfl Hfr Hd Hsep Hn. unfold deleteRebalance.
  rewrite (avl_getheight fl Hfl), bind_liftO, (avl_getheight fr Hfr), bind_liftO.
  pose proof (avl_ht_leaves _ Hfl). pose proof (avl_ht_leaves _ Hfr).
  rewrite maxu32_max.
  destruct (Z.gtb_spec (ht fr) (ht fl)).
  - rewrite (u32_small (ht fr - ht fl)) by lia.
    destruct (Z.gtb_spec (ht fr - ht fl) 1).
    + run_with ltac:(by apply Peel_avl).
      destruct (unarrowFork_avl fr t Hfr) as (ndr & hr & nrl & nrr & mr & -> & Hu); [lia|].
      run_with ltac:(exact Hu). clear Hu. cbn [asFork]. rewrite bind_ret.
      rewrite ?ht_fork, ?mxk_fork in *. cbn [leaves] in Hn.
      open_fork Hfr. subst hr mr.
      rewrite (avl_getheight nrr) by done. rewrite bind_liftO.
      rewrite (avl_getheight nrl) by done. rewrite bind_liftO.
      destruct (Z.geb_spec (ht nrr) (ht nrl)).
      * run_with ltac:(apply height1_avl; (done || lia)).
        rewrite (avl_getmax nrl) by done. rewrite bind_liftO.
        assert (Hn' : avl (Fork3 nd (1 + Z.max (ht fl) (ht nrl)) fl nrl (mxk nrl)))
          by (apply avl_fork; [done..|lia|ksep_tac]).
        run_with ltac:(apply height1_ht; [done|done|rewrite ht_fork; lia]).
        eexists. split; [reflexivity|]. rebalanced_tac.
      * run_with ltac:(by apply Peel_avl).
        destruct (unarrowFork_avl nrl t Hl)
          as (ndrl & hrl & nrll & nrlr & mrl & -> & Hu); [lia|].
        run_with ltac:(exact Hu). clear Hu. cbn [asFork]. rewrite bind_ret.
        rewrite ?ht_fork, ?mxk_fork in *. cbn [leaves] in *.
        open_fork Hl. subst hrl mrl.
        run_with ltac:(apply height1_avl; (done || lia)).
        rewrite (avl_getmax nrll) by done. rewrite bind_liftO.
        assert (Hn' : avl (Fork3 nd (1 + Z.max (ht fl) (ht nrll)) fl nrll (mxk nrll)))
          by (apply avl_fork; [done..|lia|ksep_tac]).
        run_with ltac:(apply height1_avl; (done || lia)).
        assert (Hr' : avl (Fork3 ndr (1 + Z.max (ht nrlr) (ht nrr)) nrlr nrr (mxk nrr)))
          by (apply avl_fork; [done..|lia|ksep_tac]).
        run_with ltac:(apply height1_avl; (done || cbn [leaves]; lia)).
        eexists. split; [reflexivity|]. rebalanced_tac.
    + rewrite u32_small by lia.
      eexists. split; [reflexivity|]. rebalanced_tac.
  - rewrite (u32_small (ht fl - ht fr)) by lia.
    destruct (Z.gtb_spec (ht fl - ht fr) 1).
    + run_with ltac:(by apply Peel_avl).
      destruct (unarrowFork_avl fl t Hfl) as (ndl & hl & nll & nlr & ml & -> & Hu); [lia|].
      run_with ltac:(exact Hu). clear Hu. cbn [asFork]. rewrite bind_ret.
      rewrite ?ht_fork, ?mxk_fork in *. cbn [leaves] in Hn.
      open_fork Hfl. subst hl ml.
      rewrite (avl_getheight nll) by done. rewrite bind_liftO.
      rewrite (avl_getheight nlr) by done. rewrite bind_liftO.
      destruct (Z.geb_spec (ht nll) (ht nlr)).
      * run_with ltac:(apply height1_avl; (done || lia)).
        assert (Hn' : avl (Fork3 nd (1 + Z.max (ht nlr) (ht fr)) nlr fr (mxk fr)))
          by (apply avl_fork; [done..|lia|ksep_tac]).
        run_with ltac:(apply height1_avl; (done || cbn [leaves]; lia)).
        eexists. split; [reflexivity|]. rebalanced_tac.
      * run_with ltac:(by apply Peel_avl).
        destruct (unarrowFork_avl nlr t Hr)
          as (ndlr & hlr & nlrl & nlrr & mlr & -> & Hu); [lia|].
        run_with ltac:(exact Hu). clear Hu. cbn [asFork]. rewrite bind_ret.
        rewrite ?ht_fork, ?mxk_fork in *. cbn [leaves] in *.
        open_fork Hr. subst hlr mlr.
        run_with ltac:(apply height1_avl; (done || lia)).
        assert (Hn' : avl (Fork3 nd (1 + Z.max (ht nlrr) (ht fr)) nlrr fr (mxk fr)))
          by (apply avl_fork; [done..|lia|ksep_tac]).
        run_with ltac:(apply height1_avl; (done || lia)).
        rewrite (avl_getmax nlrl) by done. rewrite bind_liftO.
        assert (Hl' : avl (Fork3 ndl (1 + Z.max (ht nll) (ht nlrl)) nll nlrl (mxk nlrl)))
          by (apply avl_fork; [done..|lia|ksep_tac]).
        run_with ltac:(apply height1_avl; (done || cbn [leaves]; lia)).
        eexists. split; [reflexivity|]. rebalanced_tac.
    + rewrite u32_small by lia.
      eexists. split; [reflexivity|]. rebalanced_tac.
Qed.

End Rebalance.

Section InsertDelete.
Context `{cfg : Config}.

Lemma keys_contents_insert (r r' : Ref3) (key value : bytes) :
  contents r' = <[key := value]> (contents r) → keys r' = {[ key ]} ∪ keys r.
Proof. unfold keys. intros ->. by rewrite dom_insert_L. Qed.

(** [insert] on a tree in memory. *)
Lemma insert_avl (key value : bytes) (t : Avl3) (r : Ref3) :
  ∀ fuel, avl r → ht r ≤ Z.of_nat fuel → leaves r < 2 ^ 32 - 2 →
  ∃ r', insert fuel r key value t = Ok (r', t) ∧ avl r' ∧
        contents r' = <[key := value]> (contents r) ∧
        leaves r ≤ leaves r' ≤ leaves r + 1 ∧
        ht r ≤ ht r' ≤ ht r + 1 ∧
        (kle key (mxk r) → mxk r' = mxk r) ∧ (klt (mxk r) key → mxk r' = key).
Proof.
  induction r as [|nd k v vi vl|nd h fl IHl fr IHr mx|]; intros fuel Havl Hf Hn;
    try done.
  - (* leaf *)
    rewrite ht_leaf in Hf. destruct fuel as [|fuel]; [lia|].
    destruct Havl as [Hnd ->]. cbn [insert].
    destruct (bytes_Compare key k) eqn:E.
    + apply bytes_Compare_eq in E as ->. rewrite Hnd, bind_ret. cbn [asLeaf].
      rewrite bind_ret, bind_modify.
      eexists. split; [reflexivity|]. cbn [avl contents leaves].
      rewrite !ht_leaf, !mxk_leaf, insert_singleton_eq.
      repeat split; try done; lia.
    + eexists. split; [reflexivity|]. cbn [avl contents leaves].
      rewrite !ht_leaf, !ht_fork, !mxk_leaf, !mxk_fork, !keys_leaf, ksep_singleton.
      repeat split; try done; try lia.
      * by rewrite insert_union_singleton_l.
      * intros Hlt. exfalso. by apply (klt_irrefl key), (klt_trans _ k).
    + apply klt_gt in E.
      eexists. split; [reflexivity|]. cbn [avl contents leaves].
      rewrite !ht_leaf, !ht_fork, !mxk_leaf, !mxk_fork, !keys_leaf, ksep_singleton.
      repeat split; try done; try lia.
      * rewrite insert_union_singleton_r; [done|].
        apply lookup_singleton_ne. by apply klt_ne.
      * intros Hle. exfalso. by apply (klt_not_le _ _ E).
  - (* fork *)
    pose proof Havl as Havl'.
    destruct Havl as (Hnd & Hl & Hr & -> & Hb & -> & Hsep).
    pose proof (avl_ht_leaves _ Hl). pose proof (avl_ht_leaves _ Hr).
    rewrite ht_fork in Hf. cbn [leaves] in Hn.
    destruct fuel as [|fuel]; [lia|]. cbn [insert].
    rewrite (avl_getmax _ Hl), bind_liftO.
    unfold unarrowFork. rewrite Hnd, bind_ret. cbn [asFork]. rewrite bind_ret.
    destruct (avl_mxk _ Hl) as [Hlm Hlmax]. destruct (avl_mxk _ Hr) as [Hrm Hrmax].
    assert (Hgo_left : kle key (mxk fl) →
      ∃ r', ((insert fuel fl key value ≫= λ fl', mret (fl', fr, mxk fr))
             ≫= λ '(fl', fr', mx'), insertRebalance (S fuel) key nd fl' fr' mx') t
            = Ok (r', t) ∧ avl r' ∧
        contents r' = <[key := value]> (contents fl ∪ contents fr) ∧
        leaves fl + leaves fr ≤ leaves r' ≤ leaves fl + leaves fr + 1 ∧
        1 + Z.max (ht fl) (ht fr) ≤ ht r' ≤ 1 + Z.max (ht fl) (ht fr) + 1 ∧
        mxk r' = mxk fr).
    { intros Hle.
      destruct (IHl fuel Hl) as (fl' & Hrun & Hfl' & Hc & Hlv & Hht & _); [lia..|].
      run_with ltac:(run_with ltac:(exact Hrun); reflexivity). cbv beta iota.
      pose proof (keys_contents_insert _ _ _ _ Hc) as Hk.
      assert (Hkey_lt : ∀ b, b ∈ keys fr → klt key b).
      { intros b Hb'. eapply kle_lt_trans; [exact Hle|]. by apply Hsep. }
      destruct (insertRebalance_avl fuel key nd fl' fr t) as (r' & Hrun' & Hreb);
        [done|done|done|lia| |apply kle_cases; left; by apply Hkey_lt|lia|].
      { rewrite Hk, ksep_union_l. split; [|done].
        intros a b ->%elem_of_singleton Hb'. by apply Hkey_lt. }
      exists r'. split; [exact Hrun'|].
      destruct Hreb as (Hr' & Hc' & Hlv' & Hm' & Hh1 & Hh2).
      split; [done|]. split; [by rewrite Hc', Hc, insert_union_l|].
      repeat split; try lia; done. }
    assert (Hgo_right : klt (mxk fl) key →
      ∃ r', ((insert fuel fr key value ≫= λ fr', liftO (getmax fr')
               ≫= λ rm, mret (fl, fr', rm))
             ≫= λ '(fl', fr', mx'), insertRebalance (S fuel) key nd fl' fr' mx') t
            = Ok (r', t) ∧ avl r' ∧
        contents r' = <[key := value]> (contents fl ∪ contents fr) ∧
        leaves fl + leaves fr ≤ leaves r' ≤ leaves fl + leaves fr + 1 ∧
        1 + Z.max (ht fl) (ht fr) ≤ ht r' ≤ 1 + Z.max (ht fl) (ht fr) + 1 ∧
        (kle key (mxk fr) → mxk r' = mxk fr) ∧ (klt (mxk fr) key → mxk r' = key)).
    { intros Hlt.
      destruct (IHr fuel Hr) as (fr' & Hrun & Hfr' & Hc & Hlv & Hht & Hm1 & Hm2); [lia..|].
      run_with ltac:(run_with ltac:(exact Hrun);
                     rewrite (avl_getmax _ Hfr'), bind_liftO; reflexivity).
      cbv beta iota.
      pose proof (keys_contents_insert _ _ _ _ Hc) as Hk.
      destruct (avl_mxk _ Hfr') as [_ Hfr'max].
      destruct (insertRebalance_avl fuel key nd fl fr' t) as (r' & Hrun' & Hreb);
        [done|done|done|lia| |apply Hfr'max; rewrite Hk; set_solver|lia|].
      { rewrite Hk, ksep_union_r. split; [|done].
        intros a b Ha ->%elem_of_singleton.
        eapply kle_lt_trans; [|exact Hlt]. by apply Hlmax. }
      exists r'. split; [exact Hrun'|].
      destruct Hreb as (Hr' & Hc' & Hlv' & Hm' & Hh1 & Hh2).
      split; [done|]. split.
      { rewrite Hc', Hc. rewrite insert_union_r; [done|].
        apply contents_lookup_keys. intros Hin.
        apply (klt_not_le _ _ Hlt). by apply Hlmax. }
      rewrite Hm'. repeat split; try lia; auto. }
    rewrite ht_fork, mxk_fork. cbn [contents leaves].
    destruct (bytes_Compare key (mxk fl)) eqn:E.
    + destruct Hgo_left as (r' & Hrun & Hr' & Hc & Hlv & Hht & Hm);
        [unfold kle; by rewrite E|].
      exists r'. split; [exact Hrun|]. repeat split; try done; try lia.
      intros Hlt. exfalso. apply (klt_irrefl key).
      apply bytes_Compare_eq in E. subst key.
      eapply klt_trans; [|exact Hlt]. by apply Hsep.
    + destruct Hgo_left as (r' & Hrun & Hr' & Hc & Hlv & Hht & Hm);
        [unfold kle; by rewrite E|].
      exists r'. split; [exact Hrun|]. repeat split; try done; try lia.
      intros Hlt. exfalso. apply (klt_irrefl key).
      eapply klt_trans; [exact E|]. eapply klt_trans; [|exact Hlt]. by apply Hsep.
    + destruct Hgo_right as (r' & Hrun & Hr' & Hc & Hlv & Hht & Hm1 & Hm2);
        [by apply klt_gt|].
      exists r'. split; [exact Hrun|]. repeat split; try done; lia.
Qed.

Lemma keys_contents_delete (r r' : Ref3) (key : bytes) :
  contents r' = base.delete key (contents r) → keys r' = keys r ∖ {[ key ]}.
Proof. unfold keys. intros ->. by rewrite dom_delete_L. Qed.

Lemma route_left (fl fr : Ref3) (key : bytes) :
  avl fl → ksep (keys fl) (keys fr) → key ∈ keys fl ∪ keys fr → kle key (mxk fl) →
  key ∈ keys fl ∧ key ∉ keys fr.
Proof.
  intros Hl Hsep Hin Hle. destruct (avl_mxk _ Hl) as [Hm _].
  assert (key ∉ keys fr).
  { intros Hr. apply (klt_not_le _ _ (Hsep _ _ Hm Hr)), Hle. }
  set_solver.
Qed.

Lemma route_right (fl fr : Ref3) (key : bytes) :
  avl fl → key ∈ keys fl ∪ keys fr → klt (mxk fl) key →
  key ∈ keys fr ∧ key ∉ keys fl.
Proof.
  intros Hl Hin Hlt. destruct (avl_mxk _ Hl) as [_ Hm].
  assert (key ∉ keys fl).
  { intros Hl'. apply (klt_not_le _ _ Hlt), Hm, Hl'. }
  set_solver.
Qed.

Lemma delete_union_l (a b : gmap bytes bytes) (key : bytes) :
  b !! key = None → base.delete key (a ∪ b) = base.delete key a ∪ b.
Proof. intros H. by rewrite delete_union, (delete_id b). Qed.

Lemma delete_union_r (a b : gmap bytes bytes) (key : bytes) :
  a !! key = None → base.delete key (a ∪ b) = a ∪ base.delete key b.
Proof. intros H. by rewrite delete_union, (delete_id a). Qed.

Lemma match_avl {A} (x : Ref3) (a b : A) :
  avl x → match x with Nil => a | _ => b end = b.
Proof. by destruct x. Qed.

Lemma IsLeaf_avl (fuel : nat) (r : Ref3) (t : Avl3) :
  avl r → IsLeaf (S fuel) r t = Ok (bool_decide (ht r = 1), t) ∧
          (ht r = 1 → ∃ nd k v vl, r = Leaf3 nd k v 0 vl ∧ arrow nd = None).
Proof.
  destruct r as [|nd k v vi vl|nd h fl fr mx|]; try done.
  - intros [Ha ->]. split; [done|]. intros _. by exists nd, k, v, vl.
  - intros (_ & Hl & Hr & -> & _). rewrite ht_fork.
    pose proof (avl_ht_leaves _ Hl). pose proof (avl_ht_leaves _ Hr).
    split; [|lia]. cbn [IsLeaf]. rewrite bool_decide_eq_false_2 by lia. done.
Qed.

(** [delete] of a key that the tree in memory holds. *)
Lemma delete_avl (key : bytes) (t : Avl3) (r : Ref3) :
  ∀ fuel, avl r → key ∈ keys r → ht r ≤ Z.of_nat fuel → leaves r < 2 ^ 32 - 2 →
  ∃ r', delete fuel r key t = Ok (r', t) ∧
        contents r' = base.delete key (contents r) ∧
        ((r' = Nil ∧ leaves r = 1) ∨
         (avl r' ∧ ht r - 1 ≤ ht r' ≤ ht r ∧ leaves r' = leaves r - 1)).
Proof.
  induction r as [|nd k v vi vl|nd h fl IHl fr IHr mx|]; intros fuel Havl Hin Hf Hn;
    try done.
  - (* leaf *)
    rewrite ht_leaf in Hf. destruct fuel as [|fuel]; [lia|].
    destruct Havl as [Hnd ->]. rewrite keys_leaf in Hin.
    apply elem_of_singleton in Hin as ->.
    cbn [delete]. unfold freeLeafValue. rewrite Hnd, bind_modify.
    eexists. split; [reflexivity|]. cbn [contents leaves].
    rewrite delete_singleton_eq. auto.
  - (* fork *)
    destruct Havl as (Hnd & Hl & Hr & -> & Hb & -> & Hsep).
    pose proof (avl_ht_leaves _ Hl). pose proof (avl_ht_leaves _ Hr).
    rewrite ht_fork in Hf. cbn [leaves] in Hn. rewrite keys_fork in Hin.
    destruct fuel as [|fuel]; [lia|]. cbn [delete].
    rewrite (avl_getmax _ Hl), bind_liftO.
    unfold unarrowFork. rewrite Hnd, bind_ret. cbn [asFork]. rewrite bind_ret.
    destruct (IsLeaf_avl fuel fl t Hl) as [Hil Hll].
    destruct (IsLeaf_avl fuel fr t Hr) as [Hir Hlr].
    run_with ltac:(exact Hil).
    rewrite ht_fork. cbn [contents leaves].
    assert (Hroute : match bytes_Compare key (mxk fl) with
                     | Gt => key ∈ keys fr ∧ key ∉ keys fl
                     | _ => key ∈ keys fl ∧ key ∉ keys fr
                     end).
    { destruct (bytes_Compare key (mxk fl)) eqn:E.
      - apply route_left; auto. unfold kle. by rewrite E.
      - apply route_left; auto. unfold kle. by rewrite E.
      - apply route_right; auto. by apply klt_gt. }
    assert (Hgen : ∃ r',
      match bytes_Compare key (mxk fl) with
      | Gt =>
          delete fuel fr key
          ≫= λ fr0 : Ref3,
               match fr0 with
               | Nil => mret fl
               | _ =>
                   liftO (getmax fr0)
                   ≫= λ rm : bytes, deleteRebalance (S fuel) nd fl fr0 rm
               end
      | _ =>
          delete fuel fl key
          ≫= λ fl0 : Ref3,
               match fl0 with
               | Nil => mret fr
               | _ => deleteRebalance (S fuel) nd fl0 fr (mxk fr)
               end
      end t = Ok (r', t)
      ∧ contents r' = base.delete key (contents fl ∪ contents fr)
        ∧ (r' = Nil ∧ leaves fl + leaves fr = 1
           ∨ avl r'
             ∧ 1 + ht fl `max` ht fr - 1 ≤ ht r' ≤ 1 + ht fl `max` ht fr
               ∧ leaves r' = leaves fl + leaves fr - 1)).
    { assert (Hleft : key ∈ keys fl → key ∉ keys fr → ∃ r',
        (delete fuel fl key
          ≫= λ fl0 : Ref3,
               match fl0 with
               | Nil => mret fr
               | _ => deleteRebalance (S fuel) nd fl0 fr (mxk fr)
               end) t = Ok (r', t)
        ∧ contents r' = base.delete key (contents fl ∪ contents fr)
          ∧ (r' = Nil ∧ leaves fl + leaves fr = 1
             ∨ avl r'
               ∧ 1 + ht fl `max` ht fr - 1 ≤ ht r' ≤ 1 + ht fl `max` ht fr
                 ∧ leaves r' = leaves fl + leaves fr - 1)).
      { intros Hinl Hninr.
        destruct (IHl fuel Hl Hinl) as (fl' & Hrun & Hc & Hres); [lia..|].
        run_with ltac:(exact Hrun).
        assert (Hcu : contents fl' ∪ contents fr
                      = base.delete key (contents fl ∪ contents fr)).
        { rewrite Hc, delete_union_l; [done|]. by apply contents_lookup_keys. }
        destruct Hres as [[-> Hlv]|(Hfl' & Hht & Hlv)].
        - eexists. split; [reflexivity|]. split.
          + rewrite <- Hcu. cbn [contents]. by rewrite (left_id_L ∅ (∪)).
          + right. repeat split; try done; lia.
        - rewrite (match_avl fl' _ _ Hfl').
          pose proof (keys_contents_delete _ _ _ Hc) as Hk.
          destruct (deleteRebalance_avl fuel nd fl' fr t) as (r' & Hrun' & Hreb);
            [done|done|done|lia| |lia|].
          { intros a b Ha Hb'. apply Hsep; [|done]. rewrite Hk in Ha. set_solver. }
          exists r'. split; [exact Hrun'|].
          destruct Hreb as (Hr' & Hc' & Hlv' & Hm' & Hh1 & Hh2).
          split; [by rewrite Hc'|]. right. repeat split; try done; lia. }
      assert (Hright : key ∈ keys fr → key ∉ keys fl → ∃ r',
        (delete fuel fr key
          ≫= λ fr0 : Ref3,
               match fr0 with
               | Nil => mret fl
               | _ =>
                   liftO (getmax fr0)
                   ≫= λ rm : bytes, deleteRebalance (S fuel) nd fl fr0 rm
               end) t = Ok (r', t)
        ∧ contents r' = base.delete key (contents fl ∪ contents fr)
          ∧ (r' = Nil ∧ leaves fl + leaves fr = 1
             ∨ avl r'
               ∧ 1 + ht fl `max` ht fr - 1 ≤ ht r' ≤ 1 + ht fl `max` ht fr
                 ∧ leaves r' = leaves fl + leaves fr - 1)).
      { intros Hinr Hninl.
        destruct (IHr fuel Hr Hinr) as (fr' & Hrun & Hc & Hres); [lia..|].
        run_with ltac:(exact Hrun).
        assert (Hcu : contents fl ∪ contents fr'
                      = base.delete key (contents fl ∪ contents fr)).
        { rewrite Hc, delete_union_r; [done|]. by apply contents_lookup_keys. }
        destruct Hres as [[-> Hlv]|(Hfr' & Hht & Hlv)].
        - eexists. split; [reflexivity|]. split.
          + rewrite <- Hcu. cbn [contents]. by rewrite (right_id_L ∅ (∪)).
          + right. repeat split; try done; lia.
        - rewrite (match_avl fr' _ _ Hfr').
          rewrite (avl_getmax _ Hfr'), bind_liftO.
          pose proof (keys_contents_delete _ _ _ Hc) as Hk.
          destruct (deleteRebalance_avl fuel nd fl fr' t) as (r' & Hrun' & Hreb);
            [done|done|done|lia| |lia|].
          { intros a b Ha Hb'. apply Hsep; [done|]. rewrite Hk in Hb'. set_solver. }
          exists r'. split; [exact Hrun'|].
          destruct Hreb as (Hr' & Hc' & Hlv' & Hm' & Hh1 & Hh2).
          split; [by rewrite Hc'|]. right. repeat split; try done; lia. }
      destruct (bytes_Compare key (mxk fl)); destruct Hroute; auto. }
    destruct (decide (ht fl = 1)) as [El|El];
      [rewrite (bool_decide_eq_true_2 _ El) in *
      |rewrite (bool_decide_eq_false_2 _ El) in *].
    + (* the left branch is a leaf *)
      destruct (Hll El) as (ndl & kl & vl' & vll & -> & Hndl).
      run_with ltac:(exact Hir).
      destruct (decide (ht fr = 1)) as [Er|Er];
        [rewrite (bool_decide_eq_true_2 _ Er) in *
        |rewrite (bool_decide_eq_false_2 _ Er) in *].
      * (* both branches are leaves *)
        destruct (Hlr Er) as (ndr & kr & vr' & vlr & -> & Hndr).
        run_with ltac:(apply Peel_leaf). cbn [asLeaf]. rewrite bind_ret.
        run_with ltac:(apply Peel_leaf). cbn [asLeaf]. rewrite bind_ret.
        rewrite !keys_leaf in *. cbn [contents leaves].
        destruct (bytes_Compare key (mxk (Leaf3 ndl kl vl' 0 vll))) eqn:E;
          destruct Hroute as [->%elem_of_singleton Hne];
          apply not_elem_of_singleton in Hne;
          unfold freeLeafValue; rewrite ?Hndl, ?Hndr, bind_modify;
          (eexists; split; [reflexivity|]); cbn [contents leaves avl];
          rewrite !ht_leaf.
        -- split; [|right; repeat split; try done; lia].
           rewrite delete_union_l, delete_singleton_eq, (left_id_L ∅ (∪)); [done|].
           by apply lookup_singleton_ne.
        -- split; [|right; repeat split; try done; lia].
           rewrite delete_union_l, delete_singleton_eq, (left_id_L ∅ (∪)); [done|].
           by apply lookup_singleton_ne.
        -- split; [|right; repeat split; try done; lia].
           rewrite delete_union_r, delete_singleton_eq, (right_id_L ∅ (∪)); [done|].
           by apply lookup_singleton_ne.
      * exact Hgen.
    + rewrite bind_ret. exact Hgen.
Qed.

End InsertDelete.

(** ** The scans do not change the engine *)

Section ReadOnly.
Context `{cfg : Config}.

Lemma countPages_readonly (data : bytes) (o l : Z) (t : Avl3) :
  ∀ fuel i c x t', countPages fuel data o l i c t = Ok (x, t') → t' = t.
Proof.
  induction fuel as [|fuel IH]; intros i c x t' H; cbn [countPages] in H.
  - destruct (i <? l); inv_steps H. done.
  - destruct (i <? l); inv_steps H; [|done]. by apply IH in H.
Qed.

Lemma deserialiseLoop_readonly (s : Avl3) pageId key height data prefix nc ms po so
    (t : Avl3) :
  ∀ fuel d x t',
  deserialiseLoop fuel s pageId key height data prefix nc ms po so d t = Ok (x, t') →
  t' = t.
Proof.
  induction fuel as [|fuel IH]; intros d x t' H; cbn [deserialiseLoop] in H.
  - destruct (_ || _); inv_steps H. done.
  - destruct (_ || _); inv_steps H; [|done].
    destruct (_ && _); inv_steps H; [done|]. by apply IH in H.
Qed.

Lemma deserialisePage_readonly (fuel : nat) pageId key height (t : Avl3) x t' :
  deserialisePage fuel pageId key height t = Ok (x, t') → t' = t.
Proof.
  unfold deserialisePage. intros H. inv_step H.
  destruct (pageMap t !! pageId); inv_steps H; [|done].
  destruct (_ =? 0); inv_steps H; [done|].
  repeat match goal with
  | E : countPages _ _ _ _ _ _ _ = Ok _ |- _ => apply countPages_readonly in E as ->
  | E : deserialiseLoop _ _ _ _ _ _ _ _ _ _ _ _ _ = Ok _ |- _ =>
      apply deserialiseLoop_readonly in E as ->
  end.
  destruct (d_point _) as [[i path]|]; inv_steps H; [done|].
  destruct (_ && _); inv_steps H; done.
Qed.


Lemma InsertLoop_readonly (key value : bytes) (t : Avl3) :
  ∀ fuel r b t', InsertLoop fuel r key value t = Ok (b, t') → t' = t.
Proof.
  induction fuel as [|fuel IH]; intros r b t' H; [done|].
  cbn [InsertLoop] in H. destruct r as [|nd k v vi vl|nd h fl fr mx|arr p h mx].
  - by inv_steps H.
  - inv_step H. destruct (bytes_Equal key k); [destruct (bytes_Equal value _)|];
      by inv_steps H.
  - inv_steps H. destruct (bytes_Compare key _); by apply IH in H.
  - inv_step H.
    match goal with
    | E : deserialisePage _ _ _ _ _ = Ok _ |- _ => apply deserialisePage_readonly in E as ->
    end.
    match type of H with context [match ?c with Nil => _ | _ => _ end] => destruct c end;
      inv_steps H; by apply IH in H.
Qed.

End ReadOnly.

(** ** The operations on a tree in memory *)

Section Ops.
Context `{cfg : Config}.

Lemma plain_ht_leaves (r : Ref3) : plain r → 0 ≤ ht r ≤ leaves r.
Proof.
  intros [->|H]; [done|]. pose proof (avl_ht_leaves _ H). lia.
Qed.

Lemma InsertLoop_avl (r : Ref3) (key value : bytes) (t : Avl3) :
  ∀ fuel, avl r → ht r ≤ Z.of_nat fuel →
  InsertLoop fuel r key value t = Ok (scanOf (contents r) key value, t).
Proof.
  unfold scanOf.
  induction r as [|nd k v vi vl|nd h fl IHl fr IHr mx|]; intros fuel Havl Hf;
    try done.
  - rewrite ht_leaf in Hf. destruct fuel as [|fuel]; [lia|]. destruct Havl as [_ ->].
    cbn [InsertLoop contents]. rewrite bind_get. unfold bytes_Equal at 1.
    case_bool_decide as E.
    + subst. rewrite lookup_singleton_eq. change (nvalue t v 0) with v.
      by destruct (bytes_Equal value v).
    + rewrite lookup_singleton_ne by done. done.
  - destruct Havl as (_ & Hl & Hr & -> & Hb & -> & Hsep).
    rewrite ht_fork in Hf.
    destruct fuel as [|fuel]; [pose proof (avl_ht_leaves _ Hl); lia|].
    cbn [InsertLoop contents]. rewrite (avl_getmax _ Hl), bind_liftO.
    destruct (bytes_Compare key (mxk fl)) eqn:E.
    + rewrite IHl by (auto; lia). rewrite lookup_fork_l; auto.
      unfold kle. by rewrite E.
    + rewrite IHl by (auto; lia). rewrite lookup_fork_l; auto.
      unfold kle. by rewrite E.
    + rewrite IHr by (auto; lia). rewrite lookup_fork_r; auto.
      by apply klt_gt.
Qed.

Lemma DeleteLoop_avl (r : Ref3) (key : bytes) (t : Avl3) :
  ∀ fuel, avl r → ht r ≤ Z.of_nat fuel →
  DeleteLoop fuel r key t = Ok (bool_decide (is_Some (contents r !! key)), t).
Proof.
  induction r as [|nd k v vi vl|nd h fl IHl fr IHr mx|]; intros fuel Havl Hf;
    try done.
  - rewrite ht_leaf in Hf. destruct fuel as [|fuel]; [lia|]. destruct Havl as [_ ->].
    cbn [DeleteLoop contents]. unfold bytes_Equal.
    rewrite (bool_decide_ext (key = k) (is_Some (({[k := v]} : gmap bytes bytes) !! key)));
      [done|]. rewrite lookup_singleton_is_Some. naive_solver.
  - destruct Havl as (_ & Hl & Hr & -> & Hb & -> & Hsep).
    rewrite ht_fork in Hf.
    destruct fuel as [|fuel]; [pose proof (avl_ht_leaves _ Hl); lia|].
    cbn [DeleteLoop contents]. rewrite (avl_getmax _ Hl), bind_liftO.
    destruct (bytes_Compare key (mxk fl)) eqn:E.
    + rewrite IHl by (auto; lia). rewrite lookup_fork_l; auto.
      unfold kle. by rewrite E.
    + rewrite IHl by (auto; lia). rewrite lookup_fork_l; auto.
      unfold kle. by rewrite E.
    + rewrite IHr by (auto; lia). rewrite lookup_fork_r; auto.
      by apply klt_gt.
Qed.

(** [Get] on an engine that holds no page is the lookup in the contents
    of its tree. *)
Lemma Get_plain (fuel : nat) (key : bytes) (t : Avl3) :
  plain (root t) → ht (root t) < Z.of_nat fuel →
  Get fuel key t =
    Ok (match contents (root t) !! key with Some v => (v, true) | None => ([], false) end, t).
Proof.
  intros [E|H] Hf; unfold Get; rewrite bind_get.
  - rewrite E in *. destruct fuel; [unfold ht in Hf; simpl in Hf; lia|done].
  - apply GetLoop_avl; [done|lia].
Qed.

(** [Insert] of a pair that the tree holds. *)
Lemma Insert_same (fuel : nat) (key value : bytes) (t : Avl3) :
  plain (root t) → ht (root t) < Z.of_nat fuel →
  contents (root t) !! key = Some value →
  Insert fuel key value t = Ok (false, t).
Proof.
  intros [E|H] Hf Hk.
  - rewrite E in Hk. done.
  - unfold Insert. rewrite bind_get.
    run_with ltac:(apply InsertLoop_avl; [done|lia]).
    unfold scanOf. rewrite Hk. unfold bytes_Equal.
    by rewrite bool_decide_eq_true_2.
Qed.

(** [Insert] on an engine that holds no page. *)
Lemma Insert_plain (fuel : nat) (key value : bytes) (t : Avl3) :
  plain (root t) → ht (root t) < Z.of_nat fuel → leaves (root t) < 2 ^ 32 - 2 →
  ∃ t', Insert fuel key value t
          = Ok (bool_decide (contents (root t) !! key = None), t') ∧
        avl (root t') ∧
        contents (root t') = <[key := value]> (contents (root t)) ∧
        leaves (root t') ≤ leaves (root t) + 1 ∧
        ht (root t') ≤ ht (root t) + 1 ∧
        t' = set_root (root t') t.
Proof.
  intros Hp Hf Hn.
  destruct (decide (contents (root t) !! key = Some value)) as [Hs|Hs].
  { exists t. rewrite Insert_same by done.
    destruct Hp as [E|H]; [by rewrite E in Hs|].
    rewrite bool_decide_eq_false_2 by (by rewrite Hs).
    rewrite insert_id by done. repeat split; try done; try lia. by destruct t. }
  assert (∃ b, scanOf (contents (root t)) key value = ScanInserted b ∧
               b = bool_decide (contents (root t) !! key = None)) as (b & Hb & ->).
  { unfold scanOf. destruct (contents (root t) !! key) as [v|] eqn:E.
    - unfold bytes_Equal. rewrite bool_decide_eq_false_2 by congruence.
      eexists. split; [done|]. by rewrite bool_decide_eq_false_2.
    - eexists. split; [done|]. by rewrite bool_decide_eq_true_2. }
  unfold Insert. rewrite bind_get.
  destruct Hp as [E|H].
  - destruct fuel as [|fuel]; [rewrite E in Hf; unfold ht in Hf; simpl in Hf; lia|].
    rewrite E in *. cbn [InsertLoop insert]. rewrite !bind_ret, bind_modify.
    eexists. split; [reflexivity|]. simpl. rewrite ht_leaf, insert_empty.
    unfold ht. simpl. repeat split; lia.
  - run_with ltac:(apply InsertLoop_avl; [done|lia]). rewrite Hb.
    destruct (insert_avl key value t (root t) fuel) as (r' & Hrun & Hr' & Hc & Hl & Hh & _);
      [done|lia|done|].
    run_with ltac:(exact Hrun). rewrite bind_modify.
    eexists. split; [reflexivity|]. simpl. repeat split; try done; lia.
Qed.

(** [Delete] of a key that the tree does not hold. *)
Lemma Delete_none (fuel : nat) (key : bytes) (t : Avl3) :
  plain (root t) → ht (root t) < Z.of_nat fuel →
  contents (root t) !! key = None →
  Delete fuel key t = Ok (false, t).
Proof.
  intros [E|H] Hf Hk; unfold Delete; rewrite bind_get.
  - rewrite E in *. destruct fuel; [unfold ht in Hf; simpl in Hf; lia|done].
  - run_with ltac:(apply DeleteLoop_avl; [done|lia]).
    rewrite bool_decide_eq_false_2; [done|]. rewrite Hk. by intros [].
Qed.

(** [Delete] on an engine that holds no page. *)
Lemma Delete_plain (fuel : nat) (key : bytes) (t : Avl3) :
  plain (root t) → ht (root t) < Z.of_nat fuel → leaves (root t) < 2 ^ 32 - 2 →
  ∃ t', Delete fuel key t
          = Ok (bool_decide (is_Some (contents (root t) !! key)), t') ∧
        plain (root t') ∧
        contents (root t') = base.delete key (contents (root t)) ∧
        leaves (root t') ≤ leaves (root t) ∧
        t' = set_root (root t') t.
Proof.
  intros Hp Hf Hn.
  destruct (contents (root t) !! key) as [v|] eqn:Hk.
  2: { exists t. rewrite Delete_none by done.
       rewrite bool_decide_eq_false_2 by (by intros []).
       rewrite delete_id by done. repeat split; try done; try lia. by destruct t. }
  destruct Hp as [E|H]; [by rewrite E in Hk|].
  unfold Delete. rewrite bind_get.
  run_with ltac:(apply DeleteLoop_avl; [done|lia]).
  rewrite Hk, bool_decide_eq_true_2 by done.
  destruct (delete_avl key t (root t) fuel) as (r' & Hrun & Hc & Hres);
    [done| |lia|done|].
  { unfold keys. apply elem_of_dom. by rewrite Hk. }
  run_with ltac:(exact Hrun). rewrite bind_modify.
  eexists. split; [reflexivity|]. simpl.
  destruct Hres as [[-> Hl]|(Hr' & Hh & Hl)].
  - repeat split; try done; [by left|simpl; lia].
  - repeat split; try done; [by right|lia].
Qed.

(** A sequence of operations on an engine that holds no page. *)
Lemma applyOps_plain (fuel : nat) (ops : list Op) :
  ∀ t, plain (root t) →
  leaves (root t) + Z.of_nat (length ops) < 2 ^ 32 - 2 →
  leaves (root t) + Z.of_nat (length ops) < Z.of_nat fuel →
  ∃ t', applyOps fuel ops t = Ok (tt, t') ∧ plain (root t') ∧
        contents (root t') = foldl refOp (contents (root t)) ops ∧
        leaves (root t') ≤ leaves (root t) + Z.of_nat (length ops) ∧
        t' = set_root (root t') t.
Proof.
  induction ops as [|op ops IH]; intros t Hp Hn Hf.
  - exists t. simpl. repeat split; try done; try lia. by destruct t.
  - pose proof (plain_ht_leaves _ Hp) as Hh.
    rewrite length_cons, Nat2Z.inj_succ in Hn, Hf.
    assert (∃ b t1, applyOp fuel op t = Ok (b, t1) ∧ plain (root t1) ∧
                    contents (root t1) = refOp (contents (root t)) op ∧
                    leaves (root t1) ≤ leaves (root t) + 1 ∧
                    t1 = set_root (root t1) t) as (b & t1 & Hrun & Hp1 & Hc1 & Hl1 & Ht1).
    { destruct op as [key value|key]; cbn [applyOp refOp].
      - destruct (Insert_plain fuel key value t) as (t1 & Hrun & H1 & H2 & H3 & _ & H5);
          [done|lia|lia|].
        eexists _, t1. split; [exact Hrun|]. repeat split; try done. by right.
      - destruct (Delete_plain fuel key t) as (t1 & Hrun & H1 & H2 & H3 & H5);
          [done|lia|lia|].
        eexists _, t1. split; [exact Hrun|]. repeat split; try done. lia. }
    destruct (IH t1 Hp1) as (t' & Hrun' & Hp' & Hc' & Hl' & Ht'); [lia..|].
    exists t'. cbn [applyOps foldl].
    run_with ltac:(exact Hrun). rewrite Hrun', Hc', Hc1.
    repeat split; try done; [rewrite length_cons, Nat2Z.inj_succ; lia|].
    rewrite Ht1 in Ht'. rewrite Ht'. reflexivity.
Qed.

End Ops.

(** ** The engine against a reference map *)

Section RoundTrip.
Context `{cfg : Config}.

(** C1.  A sequence of [Insert] and [Delete] operations on a fresh engine
    runs to its end, and then [Get] of any key returns the value that the
    reference map holds for the key, with [true], or the empty value, with
    [false], when the reference map does not hold the key.  The sequence
    has fewer than [2^32 - 2] operations (the heights are of type
    [uint32]) and the fuel of the loops exceeds its length. *)
Theorem Get_round_trip (ops : list Op) (fuel : nat) :
  Z.of_nat (length ops) < 2 ^ 32 - 2 →
  (length ops < fuel)%nat →
  ∃ t, applyOps fuel ops NewAvl3 = Ok (tt, t) ∧
       ∀ key, Get fuel key t =
                Ok (match refOps ops !! key with
                    | Some v => (v, true)
                    | None => ([], false)
                    end, t).
Proof.
  intros Hn Hf.
  destruct (applyOps_plain fuel ops NewAvl3) as (t & Hrun & Hp & Hc & Hl & _);
    [by left|simpl; lia|simpl; lia|].
  exists t. split; [exact Hrun|]. intros key.
  rewrite Get_plain; [by rewrite Hc| done |].
  pose proof (plain_ht_leaves _ Hp). simpl in Hl. lia.
Qed.



End RoundTrip.

Lemma Get_round_trip_witness :
  Z.of_nat (length ops0) < 2 ^ 32 - 2 ∧ (length ops0 < 6)%nat ∧
  ∃ t, @applyOps cfg0 6 ops0 NewAvl3 = Ok (tt, t) ∧
       ∀ key, @Get cfg0 6 key t =
                Ok (match refOps ops0 !! key with
                    | Some v => (v, true)
                    | None => ([], false)
                    end, t).
Proof.
  assert (H1 : Z.of_nat (length ops0) < 2 ^ 32 - 2) by (simpl; lia).
  assert (H2 : (length ops0 < 6)%nat) by (simpl; lia).
  split; [exact H1|]. split; [exact H2|].
  exact (@Get_round_trip cfg0 ops0 6 H1 H2).
Defined.

Lemma abc_plain : plain (root abc_engine).
Proof.
  right. simpl. unfold ksep, klt, keys. simpl.
  rewrite !dom_union_L, !dom_singleton_L.
  repeat split; try done.
  - intros a b Ha Hb. apply elem_of_singleton in Ha as ->.
    apply elem_of_singleton in Hb as ->. reflexivity.
  - intros a b Ha Hb. apply elem_of_singleton in Ha as ->.
    apply elem_of_union in Hb as [Hb|Hb]; apply elem_of_singleton in Hb as ->;
      reflexivity.
Qed.



(** ** The checks of the heights and of the balance on a tree in memory *)

Lemma avl_checks (r : Ref3) :
  avl r → leaves r < 2 ^ 32 - 1 →
  heightsCorrect r = Some (ht r, true) ∧ balanceCorrect r = Some true.
Proof.
  induction r as [|nd k v vi vl|nd h fl IHl fr IHr mx|]; try done.
  intros (_ & Hl & Hr & -> & Hb & _ & _) Hn. cbn [leaves] in Hn.
  pose proof (avl_ht_leaves _ Hl). pose proof (avl_ht_leaves _ Hr).
  destruct IHl as [Hhl Hbl]; [done|lia|]. destruct IHr as [Hhr Hbr]; [done|lia|].
  assert (Hu : u32 (1 + maxu32 (ht fl) (ht fr)) = 1 + Z.max (ht fl) (ht fr)).
  { rewrite maxu32_max. apply u32_small. lia. }
  split.
  - cbn [heightsCorrect]. rewrite Hhl, Hhr. simpl. rewrite ht_fork, Hu.
    by rewrite bool_decide_eq_true_2.
  - cbn [balanceCorrect]. rewrite (avl_getheight _ Hl), (avl_getheight _ Hr). simpl.
    rewrite Hbl, Hbr.
    destruct (Z.geb_spec (ht fr) (ht fl)).
    + rewrite u32_small by lia. by destruct (Z.ltb_spec (ht fr - ht fl) 2); [|lia].
    + rewrite u32_small by lia. by destruct (Z.ltb_spec (ht fl - ht fr) 2); [|lia].
Qed.

Section InMemory.
Context `{cfg : Config}.

(** [Insert] on an engine that holds no page: it returns [true] when the
    key is new and [false] when the key is in the tree; the tree then holds
    the pair, and the pairs of the other keys as before; the checks of the
    heights and of the balance answer [true] on the new root; the tree of
    the previous version and the pages are as before. *)
Theorem Insert_in_memory (fuel : nat) (key value : bytes) (t : Avl3) :
  plain (root t) → ht (root t) < Z.of_nat fuel → leaves (root t) < 2 ^ 32 - 2 →
  ∃ t', Insert fuel key value t
          = Ok (bool_decide (contents (root t) !! key = None), t') ∧
        contents (root t') = <[key := value]> (contents (root t)) ∧
        heightsCorrect (root t') = Some (ht (root t'), true) ∧
        balanceCorrect (root t') = Some true ∧
        prevRoot t' = prevRoot t ∧ pageMap t' = pageMap t.
Proof.
  intros Hp Hf Hn.
  destruct (Insert_plain fuel key value t Hp Hf Hn)
    as (t' & Hrun & Havl & Hc & Hl & _ & Ht').
  exists t'. split; [exact Hrun|]. split; [exact Hc|].
  destruct (avl_checks _ Havl) as [H1 H2]; [lia|].
  rewrite Ht'. done.
Qed.

(** [Delete] on an engine that holds no page: it returns [true] when the
    key is in the tree and [false] when it is not; the tree then holds the
    pairs of the other keys; the new root is empty or passes the checks of
    the heights and of the balance. *)
Theorem Delete_in_memory (fuel : nat) (key : bytes) (t : Avl3) :
  plain (root t) → ht (root t) < Z.of_nat fuel → leaves (root t) < 2 ^ 32 - 2 →
  ∃ t', Delete fuel key t
          = Ok (bool_decide (is_Some (contents (root t) !! key)), t') ∧
        contents (root t') = base.delete key (contents (root t)) ∧
        (root t' = Nil ∨
         heightsCorrect (root t') = Some (ht (root t'), true) ∧
         balanceCorrect (root t') = Some true) ∧
        prevRoot t' = prevRoot t ∧ pageMap t' = pageMap t.
Proof.
  intros Hp Hf Hn.
  destruct (Delete_plain fuel key t Hp Hf Hn) as (t' & Hrun & Hp' & Hc & Hl & Ht').
  exists t'. split; [exact Hrun|]. split; [exact Hc|].
  split; [|by rewrite Ht'].
  destruct Hp' as [E|Havl]; [by left|right]. apply avl_checks; [done|lia].
Qed.

(** [Get] after [Insert], on an engine that holds no page: the key that
    was inserted has the new value, and every other key has the answer
    that [Get] gave before. *)
Theorem Insert_then_Get (fuel : nat) (key value : bytes) (t : Avl3) :
  plain (root t) → ht (root t) + 1 < Z.of_nat fuel → leaves (root t) < 2 ^ 32 - 2 →
  ∃ b t', Insert fuel key value t = Ok (b, t') ∧
          Get fuel key t' = Ok ((value, true), t') ∧
          ∀ key' x, key' ≠ key → Get fuel key' t = Ok (x, t) → Get fuel key' t' = Ok (x, t').
Proof.
  intros Hp Hf Hn.
  destruct (Insert_plain fuel key value t) as (t' & Hrun & Havl & Hc & _ & Hh & _);
    [done|lia|done|].
  eexists _, t'. split; [exact Hrun|].
  assert (Hp' : plain (root t')) by (by right).
  split.
  - rewrite Get_plain by (done || lia). by rewrite Hc, lookup_insert_eq.
  - intros key' x Hne. rewrite !Get_plain by (done || lia).
    rewrite Hc, lookup_insert_ne by done. by intros [= <-].
Qed.

Lemma Delete_plain_height (fuel : nat) (key : bytes) (t : Avl3) :
  plain (root t) → ht (root t) < Z.of_nat fuel → leaves (root t) < 2 ^ 32 - 2 →
  ∃ b t', Delete fuel key t = Ok (b, t') ∧ plain (root t') ∧
          contents (root t') = base.delete key (contents (root t)) ∧
          ht (root t') ≤ ht (root t).
Proof.
  intros Hp Hf Hn.
  destruct (contents (root t) !! key) as [v|] eqn:Hk.
  2: { exists false, t. rewrite Delete_none by done.
       rewrite delete_id by done. repeat split; try done; lia. }
  destruct Hp as [E|H]; [by rewrite E in Hk|].
  unfold Delete. rewrite bind_get.
  run_with ltac:(apply DeleteLoop_avl; [done|lia]).
  rewrite Hk, bool_decide_eq_true_2 by done.
  destruct (delete_avl key t (root t) fuel) as (r' & Hrun & Hc & Hres);
    [done| |lia|done|].
  { unfold keys. apply elem_of_dom. by rewrite Hk. }
  run_with ltac:(exact Hrun). rewrite bind_modify.
  eexists _, _. split; [reflexivity|]. simpl.
  pose proof (avl_ht_leaves _ H).
  destruct Hres as [[-> Hl]|(Hr' & Hh & Hl)].
  - repeat split; try done; [by left|unfold ht at 1; simpl; lia].
  - repeat split; try done; [by right|lia].
Qed.

(** [Get] after [Delete], on an engine that holds no page: the key that
    was deleted is not found, and every other key has the answer that
    [Get] gave before. *)
Theorem Delete_then_Get (fuel : nat) (key : bytes) (t : Avl3) :
  plain (root t) → ht (root t) < Z.of_nat fuel → leaves (root t) < 2 ^ 32 - 2 →
  ∃ b t', Delete fuel key t = Ok (b, t') ∧
          Get fuel key t' = Ok (([], false), t') ∧
          ∀ key' x, key' ≠ key → Get fuel key' t = Ok (x, t) → Get fuel key' t' = Ok (x, t').
Proof.
  intros Hp Hf Hn.
  destruct (Delete_plain_height fuel key t Hp Hf Hn) as (b & t' & Hrun & Hp' & Hc & Hh).
  exists b, t'. split; [exact Hrun|]. split.
  - rewrite Get_plain by (done || lia). by rewrite Hc, lookup_delete_eq.
  - intros key' x Hne. rewrite !Get_plain by (done || lia).
    rewrite Hc, lookup_delete_ne by done. by intros [= <-].
Qed.

End InMemory.

(** ** What [deserialisePage] answers *)

Lemma goodPoint_setpinned (k : bytes) (h : Z) (id : PageID) (p : ArrowPtr) (r : Ref3) :
  goodPoint k h (lookupAt p r) → goodPoint k h (lookupAt p (setpinned id r)).
Proof. destruct p as [|s p]; destruct r; simpl; try done. Qed.

Lemma goodPoint_pinned_if (k : bytes) (h : Z) (id : PageID) (b : bool) (p : ArrowPtr)
    (r : Ref3) :
  goodPoint k h (lookupAt p r) →
  goodPoint k h (lookupAt p (if b then setpinned id r else r)).
Proof. destruct b; [apply goodPoint_setpinned|done]. Qed.

Lemma closedNode_pinned_if (id : PageID) (b : bool) (r : Ref3) :
  closedNode r → closedNode (if b then setpinned id r else r).
Proof. destruct b; [|done]. by destruct r. Qed.

Lemma rev_lookup_top {A} (l : list A) (x : A) : reverse (x :: l) !! length l = Some x.
Proof.
  rewrite reverse_cons, lookup_app_r by (rewrite length_reverse; lia).
  by rewrite length_reverse, Nat.sub_diag.
Qed.

Lemma rev_lookup_below {A} (l : list A) (x : A) (i : nat) :
  (i < length l)%nat → reverse (x :: l) !! i = reverse l !! i.
Proof.
  intros H. rewrite reverse_cons, lookup_app_l by (rewrite length_reverse; lia). done.
Qed.

Lemma rev_lookup_cases {A} (l : list A) (x e : A) (i : nat) :
  reverse (x :: l) !! i = Some e →
  (i = length l ∧ e = x) ∨ ((i < length l)%nat ∧ reverse l !! i = Some e).
Proof.
  intros H. destruct (decide (i < length l)%nat) as [Hlt|Hge].
  - right. split; [done|]. by rewrite rev_lookup_below in H.
  - left. assert (i = length l) as ->.
    { apply lookup_lt_Some in H. rewrite length_reverse in H. simpl in H. lia. }
    rewrite rev_lookup_top in H. by injection H as ->.
Qed.

Lemma lookupAt_snoc_fork_L (p : ArrowPtr) nd h fl fr mx :
  lookupAt (reverse (p ++ [SideL])) (Fork3 nd h fl fr mx) = lookupAt (reverse p) fl.
Proof. by rewrite reverse_snoc. Qed.

Lemma lookupAt_snoc_fork_R (p : ArrowPtr) nd h fl fr mx :
  lookupAt (reverse (p ++ [SideR])) (Fork3 nd h fl fr mx) = lookupAt (reverse p) fr.
Proof. by rewrite reverse_snoc. Qed.

Section Point.
Context `{cfg : Config}.

Lemma deserialiseStep_point (t : Avl3) (pageId : PageID) (k : bytes) (h : Z)
    (data prefix : bytes) (pbo : Z) (sbit : bool) (d d' : DState) :
  deserialiseStep t pageId (Some k) h data prefix pbo sbit d = Some d' →
  stackOK d → pointOK k h d → stackOK d' ∧ pointOK k h d'.
Proof.
  unfold deserialiseStep, stackOK. intros H Hs Hd.
  destruct (d_noLeaf d) eqn:Enl.
  - destruct sbit.
    + (* a fork is closed *)
      destruct (d_stack d) as [|[x xp] [|[y yp] rest]] eqn:Es; try done.
      destruct y as [|?????|nd yh yl yr ymx|]; try done.
      destruct Hs as [Hrest Hx]. apply Forall_cons_1 in Hrest as [Hy Hrest].
      simpl in Hy. destruct yr; try done.
      destruct (getheight x) as [hx|] eqn:Ehx; [|done].
      destruct (getmax x) as [mx|] eqn:Emx; [|done].
      simpl in H. injection H as <-. cbn [d_stack d_noLeaf d_point]. split.
      { split; [done|]. destruct (xp && negb yp); destruct x; try done. }
      unfold pointOK; cbn [d_stack d_point]. intros i path Hp.
      destruct ((maxu32 yh (u32 (1 + hx)) =? h) && bytes_Equal mx k) eqn:Enew.
      { injection Hp as <- <-.
        apply andb_true_iff in Enew as [E1 E2]. apply Z.eqb_eq in E1.
        apply bytes_Equal_true in E2.
        eexists. split; [apply rev_lookup_top|].
        simpl. unfold goodPoint. simpl. rewrite E1, E2. repeat split.
        destruct (xp && negb yp); destruct x; done. }
      unfold movePoint in Hp. destruct (d_point d) as [[j q]|] eqn:Ep; [|done].
      destruct (Hd j q Ep) as (e & He & Hg). rewrite Es in He.
      apply rev_lookup_cases in He as [[-> ->]|[Hj He]].
      * rewrite bool_decide_eq_true_2 in Hp by done. injection Hp as <- <-.
        eexists. split; [apply rev_lookup_top|].
        simpl. rewrite lookupAt_snoc_fork_R. by apply goodPoint_pinned_if.
      * simpl in Hj. rewrite bool_decide_eq_false_2 in Hp by lia. injection Hp as <- <-.
        apply rev_lookup_cases in He as [[-> ->]|[Hj' He]].
        -- eexists. split; [apply rev_lookup_top|]. simpl in *.
           destruct (reverse q) as [|s q'] eqn:Eq.
           ++ simpl in Hg. by destruct Hg as (_ & _ & Hg).
           ++ simpl in *. destruct s.
              ** by apply goodPoint_pinned_if.
              ** destruct q'; simpl in Hg; by destruct Hg as [Hg _].
        -- exists e. split; [|done]. by rewrite rev_lookup_below.
    + (* a fork is opened *)
      destruct (d_stack d) as [|[x xp] rest] eqn:Es; try done.
      destruct Hs as [Hrest Hx].
      destruct (getheight x) as [hx|] eqn:Ehx; [|done].
      simpl in H. injection H as <-. cbn [d_stack d_noLeaf d_point]. split; [done|].
      unfold pointOK; cbn [d_stack d_point]. intros i path Hp. unfold movePoint in Hp.
      destruct (d_point d) as [[j q]|] eqn:Ep; [|done].
      destruct (Hd j q Ep) as (e & He & Hg). rewrite Es in He.
      apply rev_lookup_cases in He as [[-> ->]|[Hj He]].
      * rewrite bool_decide_eq_true_2 in Hp by done. injection Hp as <- <-.
        eexists. split; [apply rev_lookup_top|].
        simpl. by rewrite lookupAt_snoc_fork_L.
      * rewrite bool_decide_eq_false_2 in Hp by lia. injection Hp as <- <-.
        exists e. split; [|done]. by rewrite rev_lookup_below.
  - (* a leaf or an arrow is read *)
    assert (Hall : Forall (λ e, openFork e.1) (d_stack d)).
    { destruct (d_stack d) as [|[x xp] rest]; [done|]. destruct Hs. by constructor. }
    assert (Hold : ∀ i path new, d_point d = Some (i, path) →
              ∃ e, reverse (new :: d_stack d) !! i = Some e ∧
                   goodPoint k h (lookupAt (reverse path) e.1)).
    { intros i path new Hp. destruct (Hd i path Hp) as (e & He & Hg).
      exists e. split; [|done]. rewrite rev_lookup_below; [done|].
      apply lookup_lt_Some in He. by rewrite length_reverse in He. }
    destruct (get_bit data pbo (d_nodeIndex d)) as [isPage|]; [|done]. simpl in H.
    destruct isPage.
    + destruct (Uint64 _ _) as [id|]; [|done]. simpl in H.
      destruct (Uint32 _ _) as [ah|]; [|done]. simpl in H.
      destruct (deserialiseKey _ _ _) as [[mx kho]|]; [|done]. simpl in H.
      injection H as <-. cbn [d_stack d_noLeaf d_point]. split; [done|].
      unfold pointOK; cbn [d_stack d_point]. intros i path Hp. by apply Hold.
    + destruct (deserialiseKey _ _ _) as [[lkey kho]|]; [|done]. simpl in H.
      destruct (deserialiseVal _ _ _) as [[[[[value valueId] valLen] vho] vbo]|]; [|done].
      simpl in H. injection H as <-. cbn [d_stack d_noLeaf d_point]. split; [done|].
      unfold pointOK; cbn [d_stack d_point]. intros i path Hp.
      destruct ((h =? 1) && bytes_Equal lkey k) eqn:Enew.
      * injection Hp as <- <-.
        apply andb_true_iff in Enew as [E1 E2]. apply Z.eqb_eq in E1.
        apply bytes_Equal_true in E2.
        eexists. split; [apply rev_lookup_top|]. simpl. unfold goodPoint. simpl.
        by rewrite E1, E2.
      * by apply Hold.
Qed.

Lemma deserialiseLoop_point (s : Avl3) (pageId : PageID) (k : bytes) (h : Z)
    (data prefix : bytes) (nc ms pbo sbo : Z) (t : Avl3) :
  ∀ fuel d d' t',
  deserialiseLoop fuel s pageId (Some k) h data prefix nc ms pbo sbo d t = Ok (d', t') →
  stackOK d → pointOK k h d → stackOK d' ∧ pointOK k h d'.
Proof.
  induction fuel as [|fuel IH]; intros d d' t' H Hs Hp; cbn [deserialiseLoop] in H.
  - destruct (_ || _); inv_steps H. done.
  - destruct (_ || _); inv_steps H; [|done].
    destruct (_ && _); inv_steps H; [done|].
    match goal with
    | E : deserialiseStep _ _ _ _ _ _ _ _ _ = Some _ |- _ =>
        destruct (deserialiseStep_point _ _ _ _ _ _ _ _ _ _ E Hs Hp)
    end.
    eapply IH; eauto.
Qed.

(** [deserialisePage] with a key only reads the engine, and it answers
    [nil], or a leaf or a fork that has the height and the largest key it
    was asked for: it never answers an arrow. *)
Theorem deserialisePage_point (fuel : nat) (pageId : PageID) (k : bytes) (h : Z)
    (t : Avl3) (r : Ref3) (releaseId : bool) (t' : Avl3) :
  deserialisePage fuel pageId (Some k) h t = Ok ((r, releaseId), t') →
  t' = t ∧ (r = Nil ∨ goodPoint k h r).
Proof.
  intros H. split; [by apply deserialisePage_readonly in H|].
  unfold deserialisePage in H. inv_step H.
  destruct (pageMap t !! pageId); inv_steps H; [|by left].
  destruct (_ =? 0); inv_steps H; [by left|].
  match goal with
  | E : deserialiseLoop _ _ _ _ _ _ _ _ _ _ _ ?d0 _ = Ok (?d1, _) |- _ =>
      destruct (deserialiseLoop_point _ _ _ _ _ _ _ _ _ _ _ _ _ _ _ E) as [_ Hp];
        [reflexivity|intros ? ? Hq; discriminate Hq|]
  end.
  destruct (d_point _) as [[i path]|] eqn:Ep;
    [inv_steps H
    |rewrite (bool_decide_eq_false_2 (Some k = None)) in H by done;
     cbn [andb] in H; inv_steps H; by left].
  right. destruct (Hp i path Ep) as ([e pinned] & He & Hg).
  rewrite <- fmap_reverse, list_lookup_fmap, He. simpl.
  by apply goodPoint_pinned_if.
Qed.

(** [Peel] of an arrow answers a leaf or a fork of the height and the
    largest key of the arrow; the pages of the engine are as before. *)
Theorem Peel_arrow (fuel : nat) (arr : option ArrowPtr) (pageId : PageID) (h : Z)
    (mx : bytes) (t : Avl3) (n : Ref3) (t' : Avl3) :
  Peel fuel (Arrow3 arr pageId h mx) t = Ok (n, t') →
  getheight n = Some h ∧ getmax n = Some mx ∧
  match n with Leaf3 _ _ _ _ _ | Fork3 _ _ _ _ _ => True | _ => False end ∧
  pageMap t' = pageMap t.
Proof.
  destruct fuel as [|fuel]; [done|]. cbn [Peel]. intros H.
  apply bind_Ok in H as ([point rel] & t1 & H1 & H).
  apply deserialisePage_point in H1 as [-> Hg].
  destruct Hg as [->|Hg]; [done|].
  assert (Hpeel : ∀ a u, goodPoint mx h (setarrow a point) ∧
                         Peel fuel (setarrow a point) u = match fuel with
                                                          | O => OutOfFuel
                                                          | S _ => Ok (setarrow a point, u)
                                                          end).
  { intros a u. destruct Hg as (Hh & Hm & Hk).
    destruct point; try done; destruct fuel; done. }
  assert (Hpeel0 : ∀ u, Peel fuel point u = match fuel with
                                           | O => OutOfFuel
                                           | S _ => Ok (point, u)
                                           end).
  { intros u. destruct Hg as (Hh & Hm & Hk). destruct point; try done; destruct fuel; done. }
  assert (Hne : match point with Nil => False | _ => True end).
  { destruct Hg as (_ & _ & Hk). by destruct point. }
  assert (H' : ((if rel then modify (λ t, set_pagesToRecycle ({[ pageId ]} ∪ pagesToRecycle t) t)
                 else mret tt) ≫= λ _,
                (match arr with
                 | Some a => modify (setArrowPageId a pageId) ≫= λ _, mret (setarrow (Some a) point)
                 | None => mret point
                 end) ≫= λ point, Peel fuel point) t = Ok (n, t')).
  { destruct point; done. }
  clear H. apply bind_Ok in H' as ([] & t2 & H2 & H).
  assert (Hm2 : pageMap t2 = pageMap t) by (destruct rel; inv_steps H2; done).
  apply bind_Ok in H as (p & t3 & H3 & H).
  destruct arr as [a|].
  - inv_steps H3. destruct (Hpeel (Some a) (setArrowPageId a pageId t2)) as [Hg' E].
    rewrite E in H. destruct fuel; [done|]. injection H as <- <-.
    destruct Hg' as (Hh & Hm & Hk). repeat split; try done.
    by destruct (setarrow (Some a) point).
  - inv_steps H3. rewrite Hpeel0 in H. destruct fuel; [done|]. injection H as <- <-.
    destruct Hg as (Hh & Hm & Hk). repeat split; try done. by destruct point.
Qed.

End Point.

(** ** What [Commit] leaves *)

Lemma kept_refl (t : Avl3) : kept t t.
Proof. by repeat split. Qed.

Lemma kept_trans (t1 t2 t3 : Avl3) : kept t1 t2 → kept t2 t3 → kept t1 t3.
Proof. intros (? & ? & ? & ?) (? & ? & ? & ?). repeat split; congruence. Qed.

Lemma kept_nextPageId (t : Avl3) : kept t (nextPageId t).2.
Proof.
  unfold nextPageId. destruct (negb _); [by repeat split|].
  destruct (list.last _); by repeat split.
Qed.

Ltac run_cases :=
  repeat match goal with
  | H : (if ?b then _ else _) _ = Ok _ |- _ => destruct b eqn:?; inv_steps H
  | H : (match ?o with Some _ => _ | None => _ end) _ = Ok _ |- _ =>
      destruct o eqn:?; inv_steps H
  end.

Section CommitFrame.
Context `{cfg : Config}.

Lemma serialiseVal_kept value valueId valueLen data c t vid data' c' t' :
  serialiseVal value valueId valueLen data c t = Ok ((vid, data', c'), t') → kept t t'.
Proof.
  unfold serialiseVal. intros H. inv_step H.
  destruct (valueLen >? InlineValueMax).
  - inv_step H. inv_step H.
    match goal with
    | H1 : (if valueId =? 0 then _ else _) ?t0 = Ok (_, ?t2) |- _ =>
        assert (kept t0 t2) by (destruct (valueId =? 0); inv_steps H1; by repeat split)
    end.
    inv_steps H. done.
  - inv_steps H. by repeat split.
Qed.

Ltac kept_tac :=
  repeat match goal with
  | H : serialiseVal _ _ _ _ _ _ = Ok _ |- _ => apply serialiseVal_kept in H
  end;
  eauto using kept_refl, kept_trans.

Lemma serialisePass2_kept (r : Ref3) :
  ∀ pageId data prefixLen pinned pbo sbo c t r' data' c' t',
  serialisePass2 r pageId data prefixLen pinned pbo sbo c t = Ok ((r', data', c'), t') →
  kept t t'.
Proof.
  induction r as [|nd key value valueId valueLen|nd h fl IHl fr IHr mx|arr pid h mx];
    intros pageId data prefixLen pinned pbo sbo c t r' data' c' t' H;
    cbn [serialisePass2] in H.
  - inv_steps H. apply kept_refl.
  - inv_steps H. run_cases. all: kept_tac.
  - inv_step H.
    match goal with E : serialisePass2 fl _ _ _ _ _ _ _ _ = Ok _ |- _ => apply IHl in E end.
    inv_step H. inv_step H.
    match goal with E : serialisePass2 fr _ _ _ _ _ _ _ _ = Ok _ |- _ => apply IHr in E end.
    inv_steps H.
    match goal with
    | E : match arrow nd with Some _ => _ | None => _ end ?t0 = Ok (_, ?t2) |- _ =>
        assert (kept t0 t2) by (destruct (arrow nd); inv_steps E; by repeat split)
    end.
    eauto using kept_trans.
  - inv_steps H. run_cases. all: apply kept_refl.
Qed.

Lemma commitPage_kept (r : Ref3) (m : Metrics) (t : Avl3) r' id t' :
  commitPage r m t = Ok ((r', id), t') → kept t t'.
Proof.
  unfold commitPage. intros H. do 5 inv_step H.
  match goal with
  | H1 : (if pin_pinned _ then _ else _) ?t0 = Ok (_, ?t2) |- _ =>
      assert (kept t0 t2);
      [ destruct (pin_pinned _); inv_steps H1; [apply kept_refl|];
        apply lift_Ok in H1;
        match type of H1 with nextPageId ?u = _ =>
          replace t2 with (nextPageId u).2 by (by rewrite H1) end;
        apply kept_nextPageId
      | clear H1 ]
  end.
  inv_step H.
  match goal with
  | H1 : serialisePass2 _ _ _ _ _ _ _ _ _ = Ok _ |- _ => apply serialisePass2_kept in H1
  end.
  inv_step H. run_cases.
  eapply kept_trans; [eassumption|]. eapply kept_trans; [eassumption|]. by repeat split.
Qed.

Lemma commitChild_kept (child : Ref3) (m : Metrics) (t : Avl3) (a : Ref3) (t1 : Avl3) :
  commitChild child m t = Ok (a, t1) → kept t t1.
Proof.
  intros H. apply commitChild_inv in H.
  destruct child; [| | |by destruct H as [_ ->]; apply kept_refl].
  all: destruct H as (? & ? & ? & ? & H & _); by apply commitPage_kept in H.
Qed.

Lemma forkPass1_kept nd h fl fr mx mL mR pin (t : Avl3) f m t' :
  forkPass1 nd h fl fr mx mL mR pin t = Ok ((f, m), t') →
  kept t t' ∧ ∃ fl' fr', f = Fork3 nd h fl' fr' mx.
Proof.
  intros H. unfold forkPass1 in H. inv_steps H.
  destruct (mergePin3 _ _ _) as [mergable3 pin3].
  destruct (mergePin (m_pinnedPageId mR) pin) as [mergableR pinR].
  destruct (mergePin (m_pinnedPageId mL) pin) as [mergableL pinL].
  destruct (mergable3 && _); [inv_steps H; split; [apply kept_refl|eauto]|].
  destruct (_ >? _).
  all: inv_steps H; run_cases.
  all: repeat match goal with
       | E : commitChild _ _ _ = Ok _ |- _ => apply commitChild_kept in E
       end.
  all: split; [eauto using kept_trans|eauto].
Qed.

Lemma serialisePass1_kept (r : Ref3) :
  ∀ mp (t : Avl3) r' m mp' t',
  serialisePass1 r mp t = Ok ((r', m, mp'), t') →
  kept t t' ∧ getheight r' = getheight r ∧ getmax r' = getmax r.
Proof.
  induction r as [|nd key value valueId valueLen|nd h fl IHl fr IHr mx|arr pid h mx];
    intros mp t r' m mp' t' H; cbn [serialisePass1] in H.
  - done.
  - destruct (nodePin nd mp) as [pin mp1]. inv_steps H. split; [apply kept_refl|done].
  - destruct (nodePin nd mp) as [pin mp1].
    apply bind_Ok in H as ([[fl' mL] mp2] & t1 & H1 & H). apply IHl in H1 as [K1 _].
    apply bind_Ok in H as ([[fr' mR] mp3] & t2 & H2 & H). apply IHr in H2 as [K2 _].
    apply bind_Ok in H as ([f mf] & t3 & H3 & H).
    apply forkPass1_kept in H3 as [K3 (fl2 & fr2 & ->)].
    inv_steps H. split; [eauto using kept_trans|done].
  - inv_steps H. split; [apply kept_refl|done].
Qed.

Lemma kept_free_all (X : gset Z) (t : Avl3) : kept t (set_fold freePageId t X).
Proof.
  apply (set_fold_ind_L (λ r _, kept t r)); [apply kept_refl|].
  intros x Y r _ Hr. eapply kept_trans; [exact Hr|].
  unfold freePageId. destruct (pageMap r !! x); by repeat split.
Qed.

(** [Commit], when it returns: on an empty tree it returns 0 and changes
    nothing; on another tree it leaves [root] and [prevRoot] as arrows to
    one page, with the height and the largest key of the root before,
    empties the recycle set, increments the version and records the page
    as the page of the new version; it returns the number of pages
    committed. *)
Theorem Commit_arrows (t t' : Avl3) (n : Z) :
  Commit t = Ok (n, t') →
  match root t with
  | Nil => n = 0 ∧ t' = t
  | _ =>
      ∃ id h mx,
        getheight (root t) = Some h ∧ getmax (root t) = Some mx ∧
        root t' = Arrow3 (Some []) id h mx ∧ prevRoot t' = Arrow3 None id h mx ∧
        pagesToRecycle t' = ∅ ∧
        currentVersion t' = u64 (currentVersion t + 1) ∧
        versions t' !! currentVersion t' = Some id ∧
        hashLength t' = hashLength t ∧
        n = u64 (commitedCounter t' - commitedCounter t)
  end.
Proof.
  intros H. unfold Commit in H. inv_step H.
  destruct (root t) as [|nd k v vi vl|nd h0 fl fr mx0|arr pid h0 mx0] eqn:Er;
    [by inv_steps H|..]; rewrite <- Er in *.
  all: apply bind_Ok in H as ([[cr cm] mp] & t1 & H1 & H).
  all: apply serialisePass1_kept in H1 as [K1 [Hh1 Hm1]].
  all: inv_step H.
  all: apply bind_Ok in H as ([cr2 currentId] & t2 & H2 & H).
  all: pose proof (commitPage_kept _ _ _ _ _ _ H2) as K2.
  all: apply (commitPage_spec 0) in H2 as (_ & _ & _ & Hm2 & Hh2 & _).
  all: inv_step H; inv_step H.
  all: apply bind_Ok in H as ([] & t3 & H3 & H).
  all: assert (K3 : currentVersion t3 = currentVersion t ∧ hashLength t3 = hashLength t ∧
                    root t3 = cr2);
    [ change (prevRoot (set_root cr2 t2)) with (prevRoot t2) in H3;
      destruct K1 as (A1 & A2 & A3 & A4); destruct K2 as (B1 & B2 & B3 & B4);
      simpl in B1, B2, B3, B4;
      destruct (prevRoot t2) eqn:Ep; [inv_steps H3; simpl; repeat split; congruence|..];
      rewrite <- Ep in *; clear Ep;
      apply bind_Ok in H3 as ([[cp pm] pmp] & t4 & H4 & H3);
      apply serialisePass1_kept in H4 as [(C1 & C2 & C3 & C4) _];
      inv_step H3;
      apply bind_Ok in H3 as ([cp2 prevId] & t5 & H5 & H3);
      apply commitPage_kept in H5 as (D1 & D2 & D3 & D4);
      simpl in C1, C2, C3, C4, D1, D2, D3, D4;
      inv_steps H3; simpl; repeat split; congruence
    | ].
  all: destruct K3 as (V1 & V2 & V3).
  all: inv_steps H.
  all: destruct (kept_free_all (pagesToRecycle t3) t3) as (F1 & F2 & F3 & F4).
  all: destruct (getheight (root t)) as [h|] eqn:Eh; [|by rewrite Er in Eh].
  all: destruct (getmax (root t)) as [mx|] eqn:Em; [|by rewrite Er in Em].
  all: exists currentId, h, mx.
  all: match goal with
       | E1 : getheight _ = Some ?a, E2 : getmax _ = Some ?b |- _ =>
           assert (a = h) as -> by (simpl in E1; congruence);
           assert (b = mx) as -> by (simpl in E2; congruence)
       end.
  all: simpl; rewrite F1, V1, F4, V2.
  all: repeat split; try done.
  all: apply lookup_insert_eq.
Qed.

End CommitFrame.

(** ** [Get] only reads *)

Section GetReads.
Context `{cfg : Config}.

Lemma GetLoop_readonly (key : bytes) (t : Avl3) :
  ∀ fuel r x t', GetLoop fuel r key t = Ok (x, t') → t' = t.
Proof.
  induction fuel as [|fuel IH]; intros r x t' H; [done|].
  cbn [GetLoop] in H. destruct r as [|nd k v vi vl|nd h fl fr mx|arr p h mx].
  - by inv_steps H.
  - destruct (bytes_Equal key k); by inv_steps H.
  - inv_steps H. destruct (bytes_Compare key _); by apply IH in H.
  - inv_step H.
    match goal with
    | E : deserialisePage _ _ _ _ _ = Ok _ |- _ => apply deserialisePage_readonly in E as ->
    end.
    match type of H with context [match ?c with Nil => _ | _ => _ end] => destruct c end;
      inv_steps H; by apply IH in H.
Qed.

(** [Get] leaves the engine as it is, on every engine: the pages that it
    loads are not kept. *)
Theorem Get_readonly (fuel : nat) (key : bytes) (t : Avl3) (x : bytes * bool) (t' : Avl3) :
  Get fuel key t = Ok (x, t') → t' = t.
Proof.
  unfold Get. intros H. inv_step H. by apply GetLoop_readonly in H.
Qed.

End GetReads.

(** ** Page ids that are freed are used again *)

(** The id of a stored page that [freePageId] frees is the id that the
    next [nextPageId] returns, when the recycle set is empty; the page is
    gone, its length is taken off [pageSpace], and the free list is as it
    was before the two calls. *)
Theorem freePageId_reuse (pageId : PageID) (data : bytes) (t : Avl3) :
  pageMap t !! pageId = Some data →
  pagesToRecycle t = ∅ →
  nextPageId (freePageId pageId t)
  = (pageId, set_pageMap (base.delete pageId (pageMap t))
               (set_pageSpace (u64 (pageSpace t - len data)) t)).
Proof.
  intros Hp Hr. unfold freePageId. rewrite Hp. unfold nextPageId. simpl.
  rewrite Hr. unfold maxRecycle. rewrite set_fold_empty. simpl.
  rewrite last_snoc, length_app. simpl.
  replace (length (freelist t) + 1 - 1)%nat with (length (freelist t)) by lia.
  rewrite take_app_length. by destruct t.
Qed.

(** ** Runs of the properties on the engine of the keys a, b and c *)

Lemma Insert_in_memory_witness :
  plain (root abc_engine) ∧ ht (root abc_engine) < Z.of_nat 5 ∧
  leaves (root abc_engine) < 2 ^ 32 - 2 ∧
  ∃ t', @Insert cfg0 5 ["d"%byte] ["4"%byte] abc_engine
          = Ok (bool_decide (contents (root abc_engine) !! ["d"%byte] = None), t') ∧
        contents (root t') = <[["d"%byte] := ["4"%byte]]> (contents (root abc_engine)) ∧
        heightsCorrect (root t') = Some (ht (root t'), true) ∧
        balanceCorrect (root t') = Some true ∧
        prevRoot t' = prevRoot abc_engine ∧ pageMap t' = pageMap abc_engine.
Proof.
  assert (H1 : plain (root abc_engine)) by exact abc_plain.
  assert (H2 : ht (root abc_engine) < Z.of_nat 5) by (vm_compute; reflexivity).
  assert (H3 : leaves (root abc_engine) < 2 ^ 32 - 2) by (vm_compute; reflexivity).
  split; [exact H1|]. split; [exact H2|]. split; [exact H3|].
  exact (@Insert_in_memory cfg0 5 ["d"%byte] ["4"%byte] abc_engine H1 H2 H3).
Defined.

Lemma Delete_in_memory_witness :
  plain (root abc_engine) ∧ ht (root abc_engine) < Z.of_nat 5 ∧
  leaves (root abc_engine) < 2 ^ 32 - 2 ∧
  ∃ t', @Delete cfg0 5 keyB abc_engine
          = Ok (bool_decide (is_Some (contents (root abc_engine) !! keyB)), t') ∧
        contents (root t') = base.delete keyB (contents (root abc_engine)) ∧
        (root t' = Nil ∨
         heightsCorrect (root t') = Some (ht (root t'), true) ∧
         balanceCorrect (root t') = Some true) ∧
        prevRoot t' = prevRoot abc_engine ∧ pageMap t' = pageMap abc_engine.
Proof.
  assert (H1 : plain (root abc_engine)) by exact abc_plain.
  assert (H2 : ht (root abc_engine) < Z.of_nat 5) by (vm_compute; reflexivity).
  assert (H3 : leaves (root abc_engine) < 2 ^ 32 - 2) by (vm_compute; reflexivity).
  split; [exact H1|]. split; [exact H2|]. split; [exact H3|].
  exact (@Delete_in_memory cfg0 5 keyB abc_engine H1 H2 H3).
Defined.

Lemma Insert_then_Get_witness :
  plain (root abc_engine) ∧ ht (root abc_engine) + 1 < Z.of_nat 5 ∧
  leaves (root abc_engine) < 2 ^ 32 - 2 ∧
  ∃ b t', @Insert cfg0 5 keyB ["9"%byte] abc_engine = Ok (b, t') ∧
          @Get cfg0 5 keyB t' = Ok ((["9"%byte], true), t') ∧
          ∀ key' x, key' ≠ keyB → @Get cfg0 5 key' abc_engine = Ok (x, abc_engine) →
                    @Get cfg0 5 key' t' = Ok (x, t').
Proof.
  assert (H1 : plain (root abc_engine)) by exact abc_plain.
  assert (H2 : ht (root abc_engine) + 1 < Z.of_nat 5) by (vm_compute; reflexivity).
  assert (H3 : leaves (root abc_engine) < 2 ^ 32 - 2) by (vm_compute; reflexivity).
  split; [exact H1|]. split; [exact H2|]. split; [exact H3|].
  exact (@Insert_then_Get cfg0 5 keyB ["9"%byte] abc_engine H1 H2 H3).
Defined.

Lemma Delete_then_Get_witness :
  plain (root abc_engine) ∧ ht (root abc_engine) < Z.of_nat 5 ∧
  leaves (root abc_engine) < 2 ^ 32 - 2 ∧
  ∃ b t', @Delete cfg0 5 keyA abc_engine = Ok (b, t') ∧
          @Get cfg0 5 keyA t' = Ok (([], false), t') ∧
          ∀ key' x, key' ≠ keyA → @Get cfg0 5 key' abc_engine = Ok (x, abc_engine) →
                    @Get cfg0 5 key' t' = Ok (x, t').
Proof.
  assert (H1 : plain (root abc_engine)) by exact abc_plain.
  assert (H2 : ht (root abc_engine) < Z.of_nat 5) by (vm_compute; reflexivity).
  assert (H3 : leaves (root abc_engine) < 2 ^ 32 - 2) by (vm_compute; reflexivity).
  split; [exact H1|]. split; [exact H2|]. split; [exact H3|].
  exact (@Delete_then_Get cfg0 5 keyA abc_engine H1 H2 H3).
Defined.

Lemma deserialisePage_point_witness :
  @deserialisePage cfg0 10 1 (Some keyC) 3 abc_committed.2
    = Ok (abc_point.1, abc_point.2, abc_committed.2) ∧
  abc_committed.2 = abc_committed.2 ∧
  (abc_point.1 = Nil ∨ goodPoint keyC 3 abc_point.1).
Proof.
  assert (H1 : @deserialisePage cfg0 10 1 (Some keyC) 3 abc_committed.2
               = Ok (abc_point.1, abc_point.2, abc_committed.2))
    by (vm_compute; reflexivity).
  split; [exact H1|].
  exact (@deserialisePage_point cfg0 10 1 keyC 3 abc_committed.2 abc_point.1 abc_point.2
           abc_committed.2 H1).
Defined.

Lemma Peel_arrow_witness :
  @Peel cfg0 10 (Arrow3 (Some []) 1 3 keyC) abc_committed.2
    = Ok (abc_peeled.1, abc_peeled.2) ∧
  getheight abc_peeled.1 = Some 3 ∧ getmax abc_peeled.1 = Some keyC ∧
  match abc_peeled.1 with Leaf3 _ _ _ _ _ | Fork3 _ _ _ _ _ => True | _ => False end ∧
  pageMap abc_peeled.2 = pageMap abc_committed.2.
Proof.
  assert (H1 : @Peel cfg0 10 (Arrow3 (Some []) 1 3 keyC) abc_committed.2
               = Ok (abc_peeled.1, abc_peeled.2)) by (vm_compute; reflexivity).
  split; [exact H1|].
  exact (@Peel_arrow cfg0 10 (Some []) 1 3 keyC abc_committed.2 abc_peeled.1 abc_peeled.2
           H1).
Defined.

Lemma Commit_arrows_witness :
  @Commit cfg0 abc_engine = Ok (abc_committed.1, abc_committed.2) ∧
  match root abc_engine with
  | Nil => abc_committed.1 = 0 ∧ abc_committed.2 = abc_engine
  | _ =>
      ∃ id h mx,
        getheight (root abc_engine) = Some h ∧ getmax (root abc_engine) = Some mx ∧
        root abc_committed.2 = Arrow3 (Some []) id h mx ∧
        prevRoot abc_committed.2 = Arrow3 None id h mx ∧
        pagesToRecycle abc_committed.2 = ∅ ∧
        currentVersion abc_committed.2 = u64 (currentVersion abc_engine + 1) ∧
        versions abc_committed.2 !! currentVersion abc_committed.2 = Some id ∧
        hashLength abc_committed.2 = hashLength abc_engine ∧
        abc_committed.1 = u64 (commitedCounter abc_committed.2 - commitedCounter abc_engine)
  end.
Proof.
  assert (H1 : @Commit cfg0 abc_engine = Ok (abc_committed.1, abc_committed.2))
    by exact abc_Commit.
  split; [exact H1|].
  exact (@Commit_arrows cfg0 abc_engine abc_committed.2 abc_committed.1 H1).
Defined.

Lemma Get_readonly_witness :
  @Get cfg0 10 keyB abc_committed.2 = Ok ((["2"%byte], true), abc_committed.2) ∧
  abc_committed.2 = abc_committed.2.
Proof.
  assert (H1 : @Get cfg0 10 keyB abc_committed.2
               = Ok ((["2"%byte], true), abc_committed.2)) by (vm_compute; reflexivity).
  split; [exact H1|].
  exact (@Get_readonly cfg0 10 keyB abc_committed.2 _ abc_committed.2 H1).
Defined.

Lemma freePageId_reuse_witness :
  pageMap abc_committed.2 !! 1 = Some abc_page ∧
  pagesToRecycle abc_committed.2 = ∅ ∧
  nextPageId (freePageId 1 abc_committed.2)
  = (1, set_pageMap (base.delete 1 (pageMap abc_committed.2))
          (set_pageSpace (u64 (pageSpace abc_committed.2 - len abc_page)) abc_committed.2)).
Proof.
  assert (H1 : pageMap abc_committed.2 !! 1 = Some abc_page) by (vm_compute; reflexivity).
  assert (H2 : pagesToRecycle abc_committed.2 = ∅) by reflexivity.
  split; [exact H1|]. split; [exact H2|].
  exact (freePageId_reuse 1 abc_page abc_committed.2 H1 H2).
Defined.

(** ** Sequences of operations keep the checks; the height is logarithmic *)

(** A tree in memory of height [h] has [2^((h-1)/2)] leaves at least. *)
Lemma avl_leaves_height (n : nat) :
  ∀ r, avl r → ht r ≤ Z.of_nat n → 2 ^ ((ht r - 1) / 2) ≤ leaves r.
Proof.
  induction n as [n IH] using lt_wf_ind. intros r Havl Hn.
  destruct r as [|nd k v vi vl|nd h fl fr mx|]; try done.
  destruct Havl as (_ & Hl & Hr & -> & Hb & _ & _).
  rewrite ht_fork in *. cbn [leaves].
  pose proof (avl_ht_leaves _ Hl) as [Hl1 Hl2]. pose proof (avl_ht_leaves _ Hr) as [Hr1 Hr2].
  replace (1 + ht fl `max` ht fr - 1) with (ht fl `max` ht fr) by lia.
  set (H := ht fl `max` ht fr) in *.
  assert (He : 0 ≤ H / 2) by (apply Z.div_pos; lia).
  destruct (decide (H / 2 = 0)) as [->|Hne]; [simpl; lia|].
  assert (Hchild : ∀ x, avl x → H - 1 ≤ ht x → ht x ≤ H → 2 ^ (H / 2 - 1) ≤ leaves x).
  { intros x Hx Hlo Hhi.
    assert (Hx' : 2 ^ ((ht x - 1) / 2) ≤ leaves x).
    { apply (IH (Z.to_nat (ht x))); [lia|done|lia]. }
    assert (H / 2 - 1 ≤ (ht x - 1) / 2).
    { assert ((H - 2) / 2 ≤ (ht x - 1) / 2) by (apply Z.div_le_mono; lia).
      replace (H - 2) with (H + (-1) * 2) in * by lia.
      rewrite Z.div_add in * by lia. lia. }
    assert (2 ^ (H / 2 - 1) ≤ 2 ^ ((ht x - 1) / 2)) by (apply Z.pow_le_mono_r; lia).
    lia. }
  pose proof (Hchild fl Hl ltac:(lia) ltac:(lia)).
  pose proof (Hchild fr Hr ltac:(lia) ltac:(lia)).
  replace (H / 2) with ((H / 2 - 1) + 1) by lia.
  rewrite Z.pow_add_r by lia. lia.
Qed.

(** The leaves of a tree in memory are the keys it holds. *)
Lemma avl_leaves_size (r : Ref3) : avl r → leaves r = Z.of_nat (size (contents r)).
Proof.
  induction r as [|nd k v vi vl|nd h fl IHl fr IHr mx|]; try done.
  - intros _. simpl. by rewrite map_size_singleton.
  - intros (_ & Hl & Hr & _ & _ & _ & Hsep). simpl.
    rewrite map_size_disj_union; [rewrite IHl, IHr by done; lia|].
    apply map_disjoint_dom. intros key Hkl Hkr.
    specialize (Hsep key key Hkl Hkr). by apply klt_irrefl in Hsep.
Qed.

Section Sequences.
Context `{cfg : Config}.

(** After a sequence of [Insert] and [Delete] on a fresh engine, the root
    is empty or passes the checks of the heights and of the balance, the
    engine holds no page and no tree of a previous version, and the height
    of the tree is logarithmic in the number of keys it holds:
    [2^((height-1)/2)] keys at least.  A prefix of a sequence is a sequence:
    this holds after each operation. *)
Theorem ops_keep_checks (ops : list Op) (fuel : nat) :
  Z.of_nat (length ops) < 2 ^ 32 - 2 →
  (length ops < fuel)%nat →
  ∃ t, applyOps fuel ops NewAvl3 = Ok (tt, t) ∧
       (root t = Nil ∨
        heightsCorrect (root t) = Some (ht (root t), true) ∧
        balanceCorrect (root t) = Some true ∧
        2 ^ ((ht (root t) - 1) / 2) ≤ Z.of_nat (size (contents (root t)))) ∧
       contents (root t) = refOps ops ∧
       prevRoot t = Nil ∧ pageMap t = ∅.
Proof.
  intros Hn Hf.
  destruct (applyOps_plain fuel ops NewAvl3) as (t & Hrun & Hp & Hc & Hl & Ht);
    [by left|simpl; lia|simpl; lia|].
  exists t. split; [exact Hrun|]. simpl in Hl.
  split; [|by rewrite Ht].
  destruct Hp as [E|Havl]; [by left|right].
  destruct (avl_checks _ Havl) as [H1 H2]; [lia|].
  split; [done|]. split; [done|].
  rewrite <- avl_leaves_size by done.
  apply (avl_leaves_height (Z.to_nat (ht (root t)))); [done|].
  pose proof (avl_ht_leaves _ Havl). lia.
Qed.

End Sequences.

Lemma ops_keep_checks_witness :
  Z.of_nat (length ops0) < 2 ^ 32 - 2 ∧ (length ops0 < 6)%nat ∧
  ∃ t, @applyOps cfg0 6 ops0 NewAvl3 = Ok (tt, t) ∧
       (root t = Nil ∨
        heightsCorrect (root t) = Some (ht (root t), true) ∧
        balanceCorrect (root t) = Some true ∧
        2 ^ ((ht (root t) - 1) / 2) ≤ Z.of_nat (size (contents (root t)))) ∧
       contents (root t) = refOps ops0 ∧
       prevRoot t = Nil ∧ pageMap t = ∅.
Proof.
  assert (H1 : Z.of_nat (length ops0) < 2 ^ 32 - 2) by (simpl; lia).
  assert (H2 : (length ops0 < 6)%nat) by (simpl; lia).
  split; [exact H1|]. split; [exact H2|].
  exact (@ops_keep_checks cfg0 ops0 6 H1 H2).
Defined.

(** ** Bytes and big-endian numbers *)

Lemma Z_of_byte_range (b : byte) : 0 ≤ Z_of_byte b < 256.
Proof.
  unfold Z_of_byte. pose proof (Byte.to_N_bounded b). lia.
Qed.

Lemma Z_of_byte_of_Z (z : Z) : Z_of_byte (byte_of_Z z) = z mod 256.
Proof.
  unfold Z_of_byte, byte_of_Z.
  assert (Hr : 0 ≤ z mod 256 < 256) by (apply Z.mod_pos_bound; lia).
  destruct (Byte.of_N (Z.to_N (z mod 256))) as [b|] eqn:E; simpl.
  - apply Byte.to_of_N in E. rewrite E. lia.
  - apply Byte.of_N_None_iff in E. lia.
Qed.

Lemma be_bytes_length (n : nat) (v : Z) : length (be_bytes n v) = n.
Proof. induction n; simpl; auto. Qed.

Lemma be_value_fold (l : bytes) (acc : Z) :
  fold_left (λ acc b, acc * 256 + Z_of_byte b) l acc
  = acc * 256 ^ Z.of_nat (length l) + be_value l.
Proof.
  unfold be_value. revert acc. induction l as [|b l IH]; intros acc.
  - simpl. lia.
  - cbn [fold_left length]. rewrite IH, (IH (0 * 256 + Z_of_byte b)).
    rewrite Nat2Z.inj_succ, Z.pow_succ_r by lia. lia.
Qed.

Lemma be_value_cons (b : byte) (l : bytes) :
  be_value (b :: l) = Z_of_byte b * 256 ^ Z.of_nat (length l) + be_value l.
Proof. unfold be_value at 1. cbn [fold_left]. rewrite be_value_fold. lia. Qed.

Lemma be_value_range (l : bytes) : 0 ≤ be_value l < 256 ^ Z.of_nat (length l).
Proof.
  induction l as [|b l IH]; [simpl; unfold be_value; simpl; lia|].
  rewrite be_value_cons. cbn [length]. rewrite Nat2Z.inj_succ, Z.pow_succ_r by lia.
  pose proof (Z_of_byte_range b). nia.
Qed.

(** The bytes of a number give the number back, modulo their range. *)
Lemma be_value_be_bytes (n : nat) (v : Z) :
  be_value (be_bytes n v) = v mod 256 ^ Z.of_nat n.
Proof.
  induction n as [|n IH]; [by rewrite Z.mod_1_r|].
  cbn [be_bytes]. rewrite be_value_cons, be_bytes_length, IH, Z_of_byte_of_Z.
  rewrite Z.shiftr_div_pow2 by lia.
  rewrite Nat2Z.inj_succ, Z.pow_succ_r by lia.
  replace (2 ^ (8 * Z.of_nat n)) with (256 ^ Z.of_nat n)
    by (rewrite Z.pow_mul_r by lia; reflexivity).
  assert (0 < 256 ^ Z.of_nat n) by (apply Z.pow_pos_nonneg; lia).
  rewrite (Z.mul_comm 256), Z.rem_mul_r by lia. lia.
Qed.

Lemma be_value_be_bytes_8 (v : Z) : 0 ≤ v < 2 ^ 64 → be_value (be_bytes 8 v) = v.
Proof. intros H. rewrite be_value_be_bytes. apply Z.mod_small. simpl. lia. Qed.

Lemma be_value_be_bytes_4 (v : Z) : 0 ≤ v < 2 ^ 32 → be_value (be_bytes 4 v) = v.
Proof. intros H. rewrite be_value_be_bytes. apply Z.mod_small. simpl. lia. Qed.

(** ** [UseFiles] on a version file of whole entries *)

Lemma int64_small (x : Z) : 0 ≤ x < 2 ^ 63 → int64 x = x.
Proof.
  intros H. unfold int64. rewrite Z.mod_small by lia.
  destruct (Z.ltb_spec x (2 ^ 63)); lia.
Qed.

Lemma ReadAt_end (file verdata : bytes) : ReadAt file verdata (len file) = (verdata, 0).
Proof.
  unfold ReadAt. destruct (Z.ltb_spec (len file) (len file)); [lia|].
  by rewrite andb_false_r.
Qed.

Lemma ReadAt_entry (pre rest verdata : bytes) (e : Z) :
  length verdata = 8%nat →
  ReadAt (pre ++ be_bytes 8 e ++ rest) verdata (len pre) = (be_bytes 8 e, 8).
Proof.
  intros Hv. unfold ReadAt, len.
  rewrite !length_app, be_bytes_length.
  destruct (Z.leb_spec 0 (Z.of_nat (length pre))); [|lia].
  destruct (Z.ltb_spec (Z.of_nat (length pre))
              (Z.of_nat (length pre + (8 + length rest)))); [|lia].
  simpl andb. cbv iota. rewrite Nat2Z.id, drop_app_length.
  rewrite Hv, length_app, be_bytes_length.
  replace (8 `min` (8 + length rest))%nat with 8%nat by lia.
  rewrite take_app_length' by (by rewrite be_bytes_length).
  rewrite drop_ge by lia. by rewrite app_nil_r.
Qed.

Lemma readVersions_whole (rest : list PageID) :
  ∀ (pre verdata : bytes) (last : PageID) (t : Avl3) (fuel : nat),
  len pre = 8 * currentVersion t → 0 ≤ currentVersion t →
  currentVersion t + len rest < 2 ^ 60 →
  length verdata = 8%nat →
  Forall (λ e, 0 ≤ e < 2 ^ 64) rest →
  (length rest < fuel)%nat →
  ∃ t', readVersions fuel (pre ++ version_file rest) verdata last t
          = Some (default last (list.last rest), t') ∧
        currentVersion t' = currentVersion t + len rest ∧
        (∀ i e, rest !! i = Some e →
                versions t' !! (currentVersion t + Z.of_nat i) = Some e) ∧
        (∀ j, j < currentVersion t → versions t' !! j = versions t !! j) ∧
        t' = set_currentVersion (currentVersion t') (set_versions (versions t') t).
Proof.
  induction rest as [|e rest IH]; intros pre verdata last t fuel Hpre Hcv Hn Hv Hr Hf.
  - exists t. cbn [version_file flat_map]. rewrite app_nil_r.
    assert (E : int64 (int64 (currentVersion t) * 8) = len pre).
    { unfold len in Hn. simpl in Hn.
      rewrite (int64_small (currentVersion t)) by lia. rewrite int64_small by lia. lia. }
    destruct fuel; cbn [readVersions]; rewrite E, ReadAt_end; simpl.
    all: repeat split; try done; [unfold len; simpl; lia|by destruct t].
  - destruct fuel as [|fuel]; [simpl in Hf; lia|].
    apply Forall_cons_1 in Hr as [He Hr].
    unfold len in Hn. cbn [length] in Hn, Hf.
    cbn [version_file flat_map]. fold (version_file rest).
    assert (E : int64 (int64 (currentVersion t) * 8) = len pre).
    { rewrite (int64_small (currentVersion t)) by lia. rewrite int64_small by lia. lia. }
    cbn [readVersions]. rewrite E, ReadAt_entry by done. simpl (8 >? 0). cbv iota.
    rewrite be_value_be_bytes_8 by done.
    set (t1 := set_currentVersion _ _).
    assert (Hc1 : currentVersion t1 = currentVersion t + 1).
    { unfold t1. simpl. unfold u64. apply Z.mod_small. lia. }
    destruct (IH (pre ++ be_bytes 8 e) (be_bytes 8 e) e t1 fuel)
      as (t' & Hrun & Hcv' & Hnew & Hold & Ht'); try done.
    { unfold len in *. rewrite length_app, be_bytes_length, Hc1. lia. }
    { lia. }
    { rewrite Hc1. unfold len. lia. }
    { lia. }
    exists t'. rewrite <- app_assoc in Hrun. split.
    { rewrite Hrun. f_equal. f_equal. rewrite last_cons. by destruct (list.last rest). }
    split; [rewrite Hcv', Hc1; unfold len; cbn [length]; lia|].
    split.
    { intros [|i] x Hx.
      - injection Hx as <-. rewrite Z.add_0_r, Hold by lia.
        unfold t1. simpl. apply lookup_insert_eq.
      - rewrite <- (Hnew i x Hx), Hc1. f_equal. lia. }
    split.
    { intros j Hj. rewrite Hold by lia. unfold t1. simpl.
      apply lookup_insert_ne. lia. }
    rewrite Ht'. unfold t1. by destruct t.
Qed.

(** On a fresh engine and a version file that holds whole entries only,
    the loop of [UseFiles] records every entry as the page of its version,
    counts the entries in [currentVersion] and ends with the last entry
    as [lastPageID]; the rest of the engine is as before. *)
Theorem UseFiles_whole_entries (entries : list PageID) (t : Avl3) :
  currentVersion t = 0 →
  len entries < 2 ^ 60 →
  Forall (λ e, 0 ≤ e < 2 ^ 64) entries →
  ∃ t', UseFiles_versions (version_file entries) t
          = Some (default 0 (list.last entries), t') ∧
        currentVersion t' = len entries ∧
        (∀ i e, entries !! i = Some e → versions t' !! Z.of_nat i = Some e) ∧
        t' = set_currentVersion (currentVersion t') (set_versions (versions t') t).
Proof.
  intros Hcv Hn Hr. unfold UseFiles_versions.
  destruct (readVersions_whole entries [] (make 8) 0 t (S (length (version_file entries))))
    as (t' & Hrun & Hcv' & Hnew & _ & Ht'); try done.
  { rewrite Hcv. reflexivity. }
  { lia. }
  { lia. }
  { assert (length entries ≤ length (version_file entries))%nat; [|lia].
    clear. induction entries as [|e l IH]; [done|].
    cbn [version_file flat_map]. fold (version_file l).
    rewrite length_app, be_bytes_length. simpl. lia. }
  exists t'. split; [exact Hrun|]. split; [lia|]. split; [|exact Ht'].
  intros i e Hi. specialize (Hnew i e Hi). by rewrite Hcv in Hnew.
Qed.

Lemma UseFiles_whole_entries_witness :
  currentVersion NewAvl3 = 0 ∧
  len [1; 7; 3] < 2 ^ 60 ∧
  Forall (λ e, 0 ≤ e < 2 ^ 64) [1; 7; 3] ∧
  ∃ t', UseFiles_versions (version_file [1; 7; 3]) NewAvl3
          = Some (default 0 (list.last [1; 7; 3]), t') ∧
        currentVersion t' = len [1; 7; 3] ∧
        (∀ i e, [1; 7; 3] !! i = Some e → versions t' !! Z.of_nat i = Some e) ∧
        t' = set_currentVersion (currentVersion t') (set_versions (versions t') NewAvl3).
Proof.
  assert (H1 : currentVersion NewAvl3 = 0) by reflexivity.
  assert (H2 : len [1; 7; 3] < 2 ^ 60) by (vm_compute; reflexivity).
  assert (H3 : Forall (λ e, 0 ≤ e < 2 ^ 64) [1; 7; 3]).
  { repeat constructor; lia. }
  split; [exact H1|]. split; [exact H2|]. split; [exact H3|].
  exact (UseFiles_whole_entries [1; 7; 3] NewAvl3 H1 H2 H3).
Defined.

(** ** Byte buffers: what a write keeps and what a read gets *)

Lemma copy_at_eq (data : bytes) (off : Z) (src data' : bytes) :
  copy_at data off src = Some data' →
  0 ≤ off ∧ off ≤ len data ∧
  data' = take (Z.to_nat off) data
          ++ take (length src `min` (length data - Z.to_nat off)) src
          ++ drop (Z.to_nat off + length src `min` (length data - Z.to_nat off)) data.
Proof.
  unfold copy_at. destruct (_ && _) eqn:E; [|done]. intros [= <-].
  apply andb_true_iff in E as [E1 E2]. apply Z.leb_le in E1, E2. done.
Qed.

(** A write at [off] keeps the bytes before [off]. *)
Lemma copy_at_take (k : nat) (data : bytes) (off : Z) (src data' : bytes) :
  copy_at data off src = Some data' → Z.of_nat k ≤ off → take k data' = take k data.
Proof.
  intros H Hk. apply copy_at_eq in H as (H0 & H1 & ->). unfold len in H1.
  rewrite take_app_le by (rewrite length_take; lia).
  rewrite take_take. f_equal. lia.
Qed.

Lemma PutUint32_take (k : nat) (data : bytes) (off v : Z) (data' : bytes) :
  PutUint32 data off v = Some data' → Z.of_nat k ≤ off → take k data' = take k data.
Proof. unfold PutUint32. destruct (_ && _); [apply copy_at_take|done]. Qed.

Lemma PutUint64_take (k : nat) (data : bytes) (off v : Z) (data' : bytes) :
  PutUint64 data off v = Some data' → Z.of_nat k ≤ off → take k data' = take k data.
Proof. unfold PutUint64. destruct (_ && _); [apply copy_at_take|done]. Qed.

Lemma set_bit_take (k : nat) (data : bytes) (base bit : Z) (data' : bytes) :
  set_bit data base bit = Some data' → Z.of_nat k ≤ u32 (base + Z.shiftr bit 3) →
  take k data' = take k data.
Proof.
  unfold set_bit. destruct (data !! _); [|done]. intros [= <-] Hk.
  apply take_insert_ge. lia.
Qed.

(** A number that was written is the number that is read. *)
Lemma copy_at_read_at (data : bytes) (off : Z) (src data' : bytes) :
  copy_at data off src = Some data' → off + len src ≤ len data →
  read_at data' off (length src) = Some src.
Proof.
  intros H Hl. pose proof (copy_at_length _ _ _ _ H) as Hlen.
  apply copy_at_eq in H as (H0 & H1 & ->). unfold len in *.
  unfold read_at, len. rewrite Hlen.
  destruct (Z.leb_spec 0 off); [|lia].
  destruct (Z.leb_spec (off + Z.of_nat (length src)) (Z.of_nat (length data))); [|lia].
  simpl. f_equal.
  rewrite drop_app_length' by (rewrite length_take; lia).
  replace (length src `min` (length data - Z.to_nat off))%nat with (length src) by lia.
  rewrite firstn_all. by rewrite take_app_length.
Qed.

Lemma Uint32_PutUint32 (data : bytes) (off v : Z) (data' : bytes) :
  PutUint32 data off v = Some data' → Uint32 data' off = Some (u32 v).
Proof.
  unfold PutUint32, Uint32. destruct (_ && _) eqn:E; [|done]. intros H.
  apply andb_true_iff in E as [E1 E2]. apply Z.leb_le in E1, E2.
  apply copy_at_read_at in H; [|unfold len in *; rewrite be_bytes_length; lia].
  rewrite be_bytes_length in H. rewrite H. cbn [fmap option_fmap option_map]. f_equal.
  rewrite be_value_be_bytes. reflexivity.
Qed.


(** A read depends on the bytes it covers only. *)
Lemma read_at_take (k : nat) (data data' : bytes) (off : Z) (n : nat) :
  take k data' = take k data → length data' = length data →
  off + Z.of_nat n ≤ Z.of_nat k →
  read_at data' off n = read_at data off n.
Proof.
  intros Ht Hl Hk. unfold read_at, len. rewrite Hl.
  destruct (_ && _) eqn:E; [|done]. f_equal.
  apply andb_true_iff in E as [E1 E2]. apply Z.leb_le in E1, E2.
  apply list_eq. intros i.
  destruct (decide (i < n)%nat).
  - rewrite !lookup_take_lt, !lookup_drop by done.
    rewrite <- (lookup_take_lt data' k), <- (lookup_take_lt data k) by lia.
    by rewrite Ht.
  - rewrite !lookup_take_ge by lia. done.
Qed.

(** A write at [off] keeps the bytes after it. *)
Lemma copy_at_drop (k : nat) (data : bytes) (off : Z) (src data' : bytes) :
  copy_at data off src = Some data' → off + len src ≤ Z.of_nat k →
  drop k data' = drop k data.
Proof.
  intros H Hk. pose proof (copy_at_length _ _ _ _ H) as Hlen.
  apply copy_at_eq in H as (H0 & H1 & ->). unfold len in *.
  set (m := (length src `min` (length data - Z.to_nat off))%nat).
  assert (Hm : (m ≤ length src)%nat) by lia.
  rewrite drop_app_ge by (rewrite length_take; lia).
  rewrite length_take.
  rewrite drop_app_ge by (rewrite length_take; lia).
  rewrite length_take, drop_drop. f_equal. lia.
Qed.

Lemma read_at_drop (k : nat) (data data' : bytes) (off : Z) (n : nat) :
  drop k data' = drop k data → length data' = length data →
  Z.of_nat k ≤ off →
  read_at data' off n = read_at data off n.
Proof.
  intros Ht Hl Hk. unfold read_at, len. rewrite Hl.
  destruct (_ && _) eqn:E; [|done]. f_equal.
  replace (Z.to_nat off) with (k + (Z.to_nat off - k))%nat by lia.
  by rewrite <- !drop_drop, Ht.
Qed.

(** ** A page that holds one arrow *)

Lemma arrowPage_take (data data' : bytes) :
  take 5 data' = take 5 data → length data' = length data →
  arrowPage data → arrowPage data'.
Proof.
  intros Ht Hl [H1 H2]. split.
  - unfold Uint32 in *. by rewrite (read_at_take 5 data data') by (done || lia).
  - unfold get_bit in *. change (Z.to_nat (u32 (4 + Z.shiftr 0 3))) with 4%nat in *.
    rewrite <- (lookup_take_lt data' 5) by lia. rewrite Ht.
    by rewrite lookup_take_lt by lia.
Qed.

Lemma copy_at_nil (data : bytes) (off : Z) (data' : bytes) :
  copy_at data off [] = Some data' → data' = data.
Proof.
  intros H. apply copy_at_eq in H as (_ & _ & ->). simpl.
  rewrite Nat.add_0_r. apply take_drop.
Qed.

Lemma set_bit_get_bit (data : bytes) (base bit : Z) (data' : bytes) :
  set_bit data base bit = Some data' → get_bit data' base bit = Some true.
Proof.
  unfold set_bit, get_bit. destruct (data !! _) as [b|] eqn:E; [|done]. intros [= <-].
  rewrite list_lookup_insert_eq by (by apply lookup_lt_Some in E).
  f_equal. rewrite Z_of_byte_of_Z.
  pose proof (Z_of_byte_range b).
  assert (Hb : 0 ≤ Z.land bit 7 < 8).
  { change 7 with (Z.ones 3). rewrite Z.land_ones by lia. apply Z.mod_pos_bound. lia. }
  set (k := Z.land bit 7) in *.
  assert (Hs : Z.shiftl 1 k = 2 ^ k) by (rewrite Z.shiftl_mul_pow2 by lia; lia).
  assert (Hlt : Z.lor (Z_of_byte b) (Z.shiftl 1 k) < 2 ^ 8).
  { assert (Hl : Z.lor (Z_of_byte b) (Z.shiftl 1 k) = 0 ∨
                 Z.log2 (Z.lor (Z_of_byte b) (Z.shiftl 1 k)) < 8).
    { right. rewrite Z.log2_lor by (rewrite ?Hs; lia).
      apply Z.max_lub_lt.
      - destruct (decide (Z_of_byte b = 0)) as [->|]; [simpl; lia|].
        apply Z.log2_lt_pow2; lia.
      - rewrite Hs, Z.log2_pow2; lia. }
    destruct Hl as [->|Hl]; [lia|].
    apply Z.log2_lt_cancel. rewrite Z.log2_pow2; lia. }
  assert (Hge : 0 ≤ Z.lor (Z_of_byte b) (Z.shiftl 1 k)).
  { apply Z.lor_nonneg. rewrite Hs. split; [lia|]. apply Z.pow_nonneg. lia. }
  rewrite Z.mod_small by (simpl in Hlt; lia).
  rewrite Z.land_lor_distr_l, Z.land_diag.
  destruct (Z.eqb_spec (Z.lor (Z.land (Z_of_byte b) (Z.shiftl 1 k)) (Z.shiftl 1 k)) 0)
    as [E0|]; [|done].
  apply Z.lor_eq_0_iff in E0 as [_ E0]. rewrite Hs in E0.
  assert (0 < 2 ^ k) by (apply Z.pow_pos_nonneg; lia). lia.
Qed.

Ltac same_length :=
  repeat match goal with
  | H : PutUint32 _ _ _ = Some _ |- _ => apply PutUint32_length in H
  | H : PutUint64 _ _ _ = Some _ |- _ => apply PutUint64_length in H
  | H : copy_at _ _ _ = Some _ |- _ => apply copy_at_length in H
  | H : set_bit _ _ _ = Some _ |- _ => apply set_bit_length in H
  end.

Section ArrowPage.
Context `{cfg : Config}.

(** [commitPage] of an arrow, with the metrics that the first pass gives
    for an arrow, stores a page that holds one arrow. *)
Lemma commitPage_arrow (arr : option ArrowPtr) (pid : PageID) (h : Z) (mx : bytes)
    (t : Avl3) (r' : Ref3) (id : PageID) (t' : Avl3) :
  0 ≤ hashLength t < 2 ^ 32 - 36 →
  commitPage (Arrow3 arr pid h mx) (mkMetrics mx 0 1 (u32 (len mx)) 0 1 pin0) t
    = Ok ((r', id), t') →
  r' = Arrow3 arr pid h mx ∧
  prevRoot t' = prevRoot t ∧
  ∃ data, pageMap t' = <[id := data]> (pageMap t) ∧ arrowPage data.
Proof.
  intros Hhl H. unfold commitPage in H.
  cbn [m_keyCount m_pageCount m_keyBodySize m_valBodySize m_structBits m_prefix
       m_pinnedPageId pin_pinned pin_id pin0] in H.
  inv_step H.
  change (u32 (0 + 1)) with 1 in H.
  change (u32 (0 + 4)) with 4 in H.
  change (u32 (4 + 4 * (u32 (1 + 31) / 32))) with 8 in H.
  change (u32 (8 + 4)) with 12 in H.
  change (u32 (12 + (4 * 1 + 4))) with 20 in H.
  assert (Esbo : u32 (u32 (20 + (12 + hashLength t) * 1) + 4 * 0) = 32 + hashLength t).
  { rewrite (u32_small (20 + _)) by lia. rewrite u32_small by lia. lia. }
  rewrite Esbo in H.
  assert (Epo : u32 (32 + hashLength t + 4 * u32 (1 + 31) `div` 32) = 36 + hashLength t).
  { change (4 * u32 (1 + 31) `div` 32) with 4. rewrite u32_small by lia. lia. }
  rewrite Epo in H.
  set (size := pageSize t 0 1 (u32 (len mx)) 0 1 mx) in *.
  apply bind_Ok in H as (d1 & t1 & H1 & H). apply liftO_Ok in H1 as [H1 <-].
  apply bind_Ok in H as (d2 & t2 & H2 & H). apply liftO_Ok in H2 as [H2 <-].
  apply bind_Ok in H as (d3 & t3 & H3 & H). apply liftO_Ok in H3 as [H3 <-].
  apply bind_Ok in H as (id' & t4 & H4 & H). apply lift_Ok in H4.
  assert (Hp4 : pageMap t4 = pageMap t ∧ prevRoot t4 = prevRoot t).
  { replace t4 with (nextPageId t).2 by (by rewrite H4).
    unfold nextPageId. destruct (negb _); [done|]. by destruct (list.last _). }
  apply bind_Ok in H as ([[r2 d4] c] & t5 & H5 & H).
  (* the second pass on the arrow *)
  cbn [serialisePass2] in H5. inv_step H5.
  apply bind_Ok in H5 as (d5 & t6 & W4 & H5). apply liftO_Ok in W4 as [W4 <-].
  apply bind_Ok in H5 as (d6 & t7 & W5 & H5). apply liftO_Ok in W5 as [W5 <-].
  apply bind_Ok in H5 as (k & t8 & Hk & H5). apply liftO_Ok in Hk as [Hk <-].
  apply bind_Ok in H5 as ([d7 c7] & t9 & W6 & H5). apply liftO_Ok in W6 as [W6 <-].
  apply bind_Ok in H5 as (d8 & t10 & W8 & H5). apply liftO_Ok in W8 as [W8 <-].
  apply bind_Ok in H5 as (d9 & t11 & W9 & H5). simpl negb in W9. cbv iota in W9.
  apply liftO_Ok in W9 as [W9 <-].
  apply ret_Ok in H5 as [H5 <-]. injection H5 as <- <- <-.
  (* the key of the arrow is empty after its prefix *)
  assert (k = []) as ->.
  { unfold slice_from in Hk. destruct (_ && _); [|done]. injection Hk as <-.
    unfold len. rewrite Nat2Z.id. apply drop_all. }
  unfold serialiseKey in W6.
  destruct (PutUint32 d6 _ _) as [d6a|] eqn:W6a; [|done]. simpl in W6.
  destruct (copy_at d6a _ []) as [d6b|] eqn:W6b; [|done]. simpl in W6.
  injection W6 as <- <-. apply copy_at_nil in W6b as ->.
  cbn [nodeIndex structBit keyHeaderOffset arrowHeaderOffset keyBodyOffset valBodyOffset
       addArrowHeaderOffset incNodeIndex incStructBit] in *.
  apply bind_Ok in H as (d10 & t12 & W10 & H). apply liftO_Ok in W10 as [W10 <-].
  repeat (destruct (negb _); [done|]).
  inv_steps H. split; [done|]. cbn. destruct Hp4 as [-> ->]. split; [done|].
  eexists. split; [reflexivity|].
  (* the bytes 0 to 4 of the page *)
  pose proof (Uint32_PutUint32 _ _ _ _ H1) as U1.
  pose proof (set_bit_get_bit _ _ _ _ W8) as B8.
  assert (L : length d10 = length d8).
  { clear -W9 W10. same_length. congruence. }
  assert (L1 : length d8 = length d1).
  { clear -H2 H3 W4 W5 W6a W8. same_length. congruence. }
  apply (arrowPage_take d8).
  - rewrite (PutUint32_take 5 _ _ _ _ W10) by (change (u32 (12 + 4)) with 16; lia).
    apply (set_bit_take 5 _ _ _ _ W9).
    change (Z.shiftr (u32 0) 3) with 0. change (Z.shiftr 0 3) with 0.
    rewrite Z.add_0_r, u32_small; lia.
  - exact L.
  - split; [|exact B8].
    unfold Uint32 in *.
    rewrite (read_at_take 4 d1 d8); [exact U1| |exact L1|lia].
    rewrite (set_bit_take 4 _ _ _ _ W8) by (change (u32 (4 + Z.shiftr 0 3)) with 4; lia).
    rewrite (PutUint32_take 4 _ _ _ _ W6a) by lia.
    rewrite (PutUint32_take 4 _ _ _ _ W5) by (change (u32 (20 + 8)) with 28; lia).
    rewrite (PutUint64_take 4 _ _ _ _ W4) by lia.
    rewrite (copy_at_take 4 _ _ _ _ H3) by lia.
    by rewrite (PutUint32_take 4 _ _ _ _ H2) by lia.
Qed.

End ArrowPage.

Section ArrowPageRead.
Context `{cfg : Config}.

Lemma bind_panic {A B} (f : A → M B) (t : Avl3) : (panic ≫= f) t = Panic.
Proof. done. Qed.

Ltac read_or_panic :=
  match goal with
  | |- context [liftO ?o] =>
      let E := fresh "E" in
      destruct o eqn:E; [rewrite bind_liftO|by left]
  end.

(** The turns of the loop after the one node of the page was read. *)
Lemma deserialiseLoop_after_arrow (fuel : nat) (s : Avl3) (id : PageID) (k : bytes) (h : Z)
    (data prefix : bytes) (msb pbo sbo : Z) (d : DState) (x : Ref3 * bool) (t : Avl3) :
  d_stack d = [x] → d_noLeaf d = true → d_nodeIndex d = 1 →
  deserialiseLoop (S fuel) s id (Some k) h data prefix 1 msb pbo sbo d t = Panic ∨
  deserialiseLoop (S fuel) s id (Some k) h data prefix 1 msb pbo sbo d t = Ok (d, t).
Proof.
  intros Hs Hn Hi. cbn [deserialiseLoop]. rewrite Hi.
  destruct (_ || _); [|by right].
  destruct (get_bit data sbo (d_structBit d)) as [sbit|]; [rewrite bind_liftO|by left].
  change (1 =? 1) with true. rewrite andb_true_r.
  destruct sbit; cbn [negb]; cbv iota; [|by right].
  unfold deserialiseStep. rewrite Hn, Hs. destruct x. by left.
Qed.

(** [deserialisePage] with a key on a page that holds one arrow: it
    answers [nil] or it panics. *)
Lemma deserialisePage_arrowPage (fuel : nat) (id : PageID) (k : bytes) (h : Z)
    (t : Avl3) (data : bytes) :
  pageMap t !! id = Some data → arrowPage data → (2 ≤ fuel)%nat →
  deserialisePage fuel id (Some k) h t = Panic ∨
  ∃ releaseId, deserialisePage fuel id (Some k) h t = Ok ((Nil, releaseId), t).
Proof.
  intros Hp [Hn Hb] Hf. unfold deserialisePage. rewrite bind_get, Hp, Hn, bind_liftO.
  change (1 =? 0) with false. cbv iota.
  change (u32 (0 + 4)) with 4.
  change (u32 (4 * (u32 (1 + 31) / 32))) with 4.
  destruct fuel as [|[|fuel]]; [lia|lia|].
  (* the arrows are counted *)
  assert (Hc : countPages (S (S fuel)) data 4 4 0 0 t = Panic ∨
               ∃ pc, countPages (S (S fuel)) data 4 4 0 0 t = Ok (pc, t)).
  { cbn [countPages]. change (0 <? 4) with true. cbv iota.
    destruct (Uint32 data (u32 (4 + 0))) as [w|]; [|by left].
    rewrite bind_liftO. change (u32 (0 + 4) <? 4) with false. cbv iota.
    right. by eexists. }
  destruct Hc as [Hc|[pc Hc]].
  { left. unfold mbind, M_bind in *. by rewrite Hc. }
  run_with ltac:(exact Hc).
  read_or_panic. read_or_panic. read_or_panic. read_or_panic.
  (* the loop *)
  match goal with
  | |- context [deserialiseLoop _ _ _ _ _ _ ?pre _ ?msb _ ?sbo ?d0] =>
      assert (Hl : deserialiseLoop (S (S fuel)) t id (Some k) h data pre 1 msb 4 sbo d0 t
                   = Panic ∨
                   ∃ d, deserialiseLoop (S (S fuel)) t id (Some k) h data pre 1 msb 4 sbo d0 t
                        = Ok (d, t) ∧ d_point d = None)
  end.
  { remember (S fuel) as f1 eqn:Ef1. cbn [deserialiseLoop d_nodeIndex d_structBit].
    change (0 <? 1) with true. cbn [orb]. cbv iota.
    read_or_panic. change (0 =? 1) with false. rewrite andb_false_r. cbv iota.
    unfold deserialiseStep. cbn [d_noLeaf d_nodeIndex d_stack d_point
      d_arrowHeaderOffset d_keyHeaderOffset d_structBit d_releaseId
      d_valueHeaderOffset d_valBodyOffset].
    rewrite Hb. cbn [mbind option_bind]. cbv iota.
    destruct (Uint64 data _) as [aid|]; [|by left]. cbn [mbind option_bind].
    destruct (Uint32 data (u32 (_ + 8))) as [ah'|]; [|by left]. cbn [mbind option_bind].
    destruct (deserialiseKey data _ _) as [[amx kho]|]; [|by left].
    cbn [mbind option_bind]. rewrite bind_liftO. subst f1.
    match goal with
    | |- context [deserialiseLoop _ ?s0 _ _ _ _ ?pre _ ?msb ?pbo ?sbo ?d1] =>
        destruct (deserialiseLoop_after_arrow fuel s0 id k h data pre msb pbo sbo d1
                    (Arrow3 None aid ah' amx, negb b) t) as [El|El];
          [reflexivity|reflexivity|reflexivity|by left|]
    end.
    right. eexists. split; [exact El|done]. }
  destruct Hl as [Hl|(d & Hl & Hd)].
  { left. unfold mbind, M_bind in *. by rewrite Hl. }
  run_with ltac:(exact Hl). rewrite Hd.
  rewrite (bool_decide_eq_false_2 (Some k = None)) by done. cbn [andb].
  right. by eexists.
Qed.

End ArrowPageRead.

(** ** [Commit] of a tree that was not changed since the last [Commit] *)

Section CommitUnchanged.
Context `{cfg : Config}.

(** Freeing pages stores no page: a page is removed or is as before. *)
Lemma free_all_pages (X : gset Z) (t : Avl3) (id : PageID) :
  pageMap (set_fold freePageId t X) !! id = None ∨
  pageMap (set_fold freePageId t X) !! id = pageMap t !! id.
Proof.
  apply (set_fold_ind_L (λ r _, pageMap r !! id = None ∨ pageMap r !! id = pageMap t !! id));
    [by right|].
  intros x Y r _ Hr. unfold freePageId. destruct (pageMap r !! x) eqn:Ex; [|done].
  cbn [pageMap set_freelist set_pageMap set_pageSpace].
  destruct (decide (x = id)) as [->|Hne].
  - left. apply lookup_delete_eq.
  - by rewrite lookup_delete_ne.
Qed.

(** A page that is not stored is read as [nil]. *)
Lemma deserialisePage_missing (fuel : nat) (id : PageID) (k : option bytes) (h : Z)
    (t : Avl3) :
  pageMap t !! id = None → deserialisePage fuel id k h t = Ok ((Nil, false), t).
Proof. intros Hp. unfold deserialisePage. by rewrite bind_get, Hp. Qed.

Lemma deserialisePage_deadPage (fuel : nat) (id : PageID) (k : bytes) (h : Z) (t : Avl3) :
  deadPage t id → (2 ≤ fuel)%nat →
  deserialisePage fuel id (Some k) h t = Panic ∨
  ∃ releaseId, deserialisePage fuel id (Some k) h t = Ok ((Nil, releaseId), t).
Proof.
  intros [Hp|(data & Hp & Ha)] Hf.
  - right. exists false. by apply deserialisePage_missing.
  - by apply (deserialisePage_arrowPage fuel id k h t data).
Qed.

(** Every operation on a tree whose root is an arrow to such a page
    panics. *)
Lemma GetLoop_deadPage (fuel : nat) (a : option ArrowPtr) (id : PageID) (h : Z)
    (mx key : bytes) (t : Avl3) :
  deadPage t id → (3 ≤ fuel)%nat → GetLoop fuel (Arrow3 a id h mx) key t = Panic.
Proof.
  intros Hd Hf. destruct fuel as [|fuel]; [lia|]. cbn [GetLoop].
  destruct (deserialisePage_deadPage fuel id mx h t Hd ltac:(lia)) as [E|[rel E]];
    unfold mbind, M_bind; by rewrite E.
Qed.

Lemma InsertLoop_deadPage (fuel : nat) (a : option ArrowPtr) (id : PageID) (h : Z)
    (mx key value : bytes) (t : Avl3) :
  deadPage t id → (3 ≤ fuel)%nat → InsertLoop fuel (Arrow3 a id h mx) key value t = Panic.
Proof.
  intros Hd Hf. destruct fuel as [|fuel]; [lia|]. cbn [InsertLoop].
  destruct (deserialisePage_deadPage fuel id mx h t Hd ltac:(lia)) as [E|[rel E]];
    unfold mbind, M_bind; by rewrite E.
Qed.

Lemma DeleteLoop_deadPage (fuel : nat) (a : option ArrowPtr) (id : PageID) (h : Z)
    (mx key : bytes) (t : Avl3) :
  deadPage t id → (3 ≤ fuel)%nat → DeleteLoop fuel (Arrow3 a id h mx) key t = Panic.
Proof.
  intros Hd Hf. destruct fuel as [|fuel]; [lia|]. cbn [DeleteLoop].
  destruct (deserialisePage_deadPage fuel id mx h t Hd ltac:(lia)) as [E|[rel E]];
    unfold mbind, M_bind; by rewrite E.
Qed.

Lemma commitPage_arrow_deadPage (arr : option ArrowPtr) (pid : PageID) (h : Z) (mx : bytes)
    (t : Avl3) (r' : Ref3) (id : PageID) (t' : Avl3) (id0 : PageID) :
  0 ≤ hashLength t < 2 ^ 32 - 36 →
  commitPage (Arrow3 arr pid h mx) (mkMetrics mx 0 1 (u32 (len mx)) 0 1 pin0) t
    = Ok ((r', id), t') →
  r' = Arrow3 arr pid h mx ∧ kept t t' ∧ prevRoot t' = prevRoot t ∧
  deadPage t' id ∧ (deadPage t id0 → deadPage t' id0).
Proof.
  intros Hh H. pose proof (commitPage_kept _ _ _ _ _ _ H) as K.
  apply commitPage_arrow in H as (-> & Hpr & data & Hp & Ha); [|done].
  split; [done|]. split; [done|]. split; [done|]. unfold deadPage. rewrite Hp. split.
  - right. exists data. by rewrite lookup_insert_eq.
  - intros Hd. destruct (decide (id = id0)) as [->|Hne].
    + right. exists data. by rewrite lookup_insert_eq.
    + by rewrite lookup_insert_ne.
Qed.

(** [Commit] of a tree whose root is an arrow leaves the root as an arrow
    to a page that is missing or holds one arrow. *)
Lemma Commit_arrow_deadPage (t t' : Avl3) (n : Z) (a : option ArrowPtr) (pid : PageID)
    (h : Z) (mx : bytes) :
  root t = Arrow3 a pid h mx →
  match prevRoot t with Leaf3 _ _ _ _ _ | Fork3 _ _ _ _ _ => False | _ => True end →
  0 ≤ hashLength t < 2 ^ 32 - 36 →
  Commit t = Ok (n, t') →
  ∃ id, root t' = Arrow3 (Some []) id h mx ∧ deadPage t' id.
Proof.
  intros Er Ep Hh H. unfold Commit in H. inv_step H. rewrite Er in H.
  cbn [serialisePass1] in H. rewrite bind_ret in H. inv_step H.
  apply bind_Ok in H as ([cr currentId] & t2 & H2 & H).
  apply (commitPage_arrow_deadPage _ _ _ _ _ _ _ _ currentId) in H2
    as (-> & (K1 & K2 & K3 & K4) & Ep2 & Hd2 & _); [|done].
  cbn [hashLength root prevRoot set_root] in *.
  inv_step H. inv_step H.
  apply bind_Ok in H as ([] & t3 & H3 & H).
  assert (K : root t3 = Arrow3 a pid h mx ∧ deadPage t3 currentId).
  { cbn [prevRoot set_root] in H3.
    rewrite Ep2 in H3.
    destruct (prevRoot t) as [| | |pa ppid ph pmx] eqn:Epr; [|done|done|].
    - inv_steps H3. by cbn.
    - cbn [serialisePass1] in H3. rewrite bind_ret in H3. inv_step H3.
      apply bind_Ok in H3 as ([cp prevId] & t5 & H5 & H3).
      apply (commitPage_arrow_deadPage _ _ _ _ _ _ _ _ currentId) in H5
        as (-> & (D1 & D2 & D3 & D4) & _ & _ & Hd5); [|cbn; lia].
      inv_steps H3. cbn in *. split; [congruence|]. by apply Hd5. }
  destruct K as [Kr Kd]. inv_steps H.
  pose proof (kept_free_all (pagesToRecycle t3) t3) as (F1 & F2 & F3 & F4).
  pose proof (free_all_pages (pagesToRecycle t3) t3 currentId) as Fp.
  cbn in *. rewrite F3, Kr in *. cbn in *.
  match goal with H : Some _ = Some _ |- _ => injection H as <- end.
  match goal with H : Some _ = Some _ |- _ => injection H as <- end.
  exists currentId. split; [done|].
  unfold deadPage in *. cbn. destruct Fp as [Fp|Fp]; [by left|]. by rewrite Fp.
Qed.

(** [Commit] of a tree that was not changed since the last [Commit] (its
    root is an arrow, its previous root is [nil] or an arrow), when it
    returns, leaves an engine on which [Get], [Insert] and [Delete] panic
    for every key: the page of the new root holds the arrow alone, and
    [deserialisePage] finds no point in it. *)
Theorem Commit_unchanged_panics (t t' : Avl3) (n : Z) (a : option ArrowPtr) (pid : PageID)
    (h : Z) (mx : bytes) (fuel : nat) (key value : bytes) :
  root t = Arrow3 a pid h mx →
  match prevRoot t with Leaf3 _ _ _ _ _ | Fork3 _ _ _ _ _ => False | _ => True end →
  0 ≤ hashLength t < 2 ^ 32 - 36 →
  Commit t = Ok (n, t') →
  (3 ≤ fuel)%nat →
  Get fuel key t' = Panic ∧ Insert fuel key value t' = Panic ∧ Delete fuel key t' = Panic.
Proof.
  intros Er Ep Hh H Hf.
  destruct (Commit_arrow_deadPage t t' n a pid h mx Er Ep Hh H) as (id & Er' & Hd).
  split; [|split].
  - unfold Get. rewrite bind_get, Er'. by apply GetLoop_deadPage.
  - unfold Insert. rewrite bind_get, Er'. unfold mbind, M_bind.
    by rewrite InsertLoop_deadPage.
  - unfold Delete. rewrite bind_get, Er'. unfold mbind, M_bind.
    by rewrite DeleteLoop_deadPage.
Qed.

End CommitUnchanged.

Lemma Commit_unchanged_panics_witness :
  root abc_committed.2 = Arrow3 (Some []) 1 3 keyC ∧
  match prevRoot abc_committed.2 with
  | Leaf3 _ _ _ _ _ | Fork3 _ _ _ _ _ => False
  | _ => True
  end ∧
  0 ≤ hashLength abc_committed.2 < 2 ^ 32 - 36 ∧
  @Commit cfg0 abc_committed.2 = Ok (abc_recommitted.1, abc_recommitted.2) ∧
  (3 ≤ 10)%nat ∧
  @Get cfg0 10 keyB abc_recommitted.2 = Panic ∧
  @Insert cfg0 10 keyB ["9"%byte] abc_recommitted.2 = Panic ∧
  @Delete cfg0 10 keyB abc_recommitted.2 = Panic.
Proof.
  assert (H1 : root abc_committed.2 = Arrow3 (Some []) 1 3 keyC) by reflexivity.
  assert (H2 : match prevRoot abc_committed.2 with
               | Leaf3 _ _ _ _ _ | Fork3 _ _ _ _ _ => False
               | _ => True
               end) by exact I.
  assert (H3 : 0 ≤ hashLength abc_committed.2 < 2 ^ 32 - 36) by (vm_compute; split; congruence).
  assert (H4 : @Commit cfg0 abc_committed.2 = Ok (abc_recommitted.1, abc_recommitted.2))
    by (vm_compute; reflexivity).
  assert (H5 : (3 ≤ 10)%nat) by lia.
  split; [exact H1|]. split; [exact H2|]. split; [exact H3|]. split; [exact H4|].
  split; [exact H5|].
  exact (@Commit_unchanged_panics cfg0 abc_committed.2 abc_recommitted.2 abc_recommitted.1
           (Some []) 1 3 keyC 10 keyB ["9"%byte] H1 H2 H3 H4 H5).
Defined.

(** ** Byte buffers, byte by byte *)

Lemma keeps_refl (P : Z → Prop) (data : bytes) : keeps P data data.
Proof. by split. Qed.

Lemma keeps_weaken (P Q : Z → Prop) (data data' : bytes) :
  keeps P data data' → (∀ i, 0 ≤ i < len data → Q i → P i) → keeps Q data data'.
Proof.
  intros [Hl Hk] HPQ. split; [done|]. intros i Hi.
  destruct (decide (i < length data)%nat) as [Hlt|Hge].
  - apply Hk, HPQ; [unfold len; lia|done].
  - rewrite !lookup_ge_None_2 by lia. done.
Qed.

Lemma keeps_trans (P : Z → Prop) (d1 d2 d3 : bytes) :
  keeps P d1 d2 → keeps P d2 d3 → keeps P d1 d3.
Proof.
  intros [Hl1 Hk1] [Hl2 Hk2]. split; [congruence|].
  intros i Hi. rewrite Hk2, Hk1; done.
Qed.











(** ** Bits of a byte buffer *)








(** ** The number of bits set *)






Lemma ones_0 (n : nat) : ones n 0 = 0.
Proof.
  unfold ones. induction (seq 0 n) as [|a l IH]; [done|]. simpl.
  by rewrite Z.bits_0, IH.
Qed.












Section CountPages.
Context `{cfg : Config}.



End CountPages.

(** ** The layout of a page *)

Section LayoutFacts.
Context `{cfg : Config}.
Variable L : Layout.
Hypothesis HL : layoutOK L.


Lemma pageTree_keylen (r : Ref3) (mx : bytes) :
  pageTree L r → getmax r = Some mx → len (L_prefix L) ≤ len mx.
Proof.
  revert mx.
  induction r as [|nd k v vi vl|nd h fl IHl fr IHr mx'|a pid h mx']; simpl;
    intros mx; [done|..].
  - intros (_ & Hp & _) [= <-]. rewrite <- Hp at 1. unfold len. rewrite length_take. lia.
  - intros (_ & _ & Hr & _ & _ & Hm) [= <-]. by apply IHr.
  - intros (_ & Hp & _) [= <-]. rewrite <- Hp at 1. unfold len. rewrite length_take. lia.
Qed.









End LayoutFacts.

Section Frames.
Context `{cfg : Config}.
Variable L : Layout.
Hypothesis HL : layoutOK L.

Ltac layout :=
  unfold layoutOK, inLayout, inLayoutW, cle, footB, bitRegion, L_kh0, L_kb0, nextBit, len in *;
  cbn [nodeIndex structBit keyHeaderOffset arrowHeaderOffset valueHeaderOffset
       keyBodyOffset valBodyOffset] in *;
  lia.

Lemma framed_refl (c : Cursors) (data : bytes) : framed L c c data data.
Proof. split; [apply keeps_refl|done]. Qed.

Lemma framed_trans (c c1 c2 : Cursors) (d d1 d2 : bytes) :
  framed L c c1 d d1 → framed L c1 c2 d1 d2 → cle c c1 → cle c1 c2 →
  framed L c c2 d d2.
Proof.
  intros (K1 & S1 & P1) (K2 & S2 & P2) C1 C2. split; [|split].
  - eapply keeps_trans.
    + eapply keeps_weaken; [exact K1|]. cbv beta. intros i _ [Hf Hb]. split; [|done].
      intros Hf'. apply Hf. layout.
    + eapply keeps_weaken; [exact K2|]. cbv beta. intros i _ [Hf Hb]. split; [|done].
      intros Hf'. apply Hf. layout.
  - intros b Hb Hn. rewrite S2, S1; [done|done|layout|done|layout].
  - intros b Hb Hn. rewrite P2, P1; [done|done|layout|done|layout].
Qed.




End Frames.

Section Pass2.
Context `{cfg : Config}.
Variable L : Layout.
Hypothesis HL : layoutOK L.

Ltac layout :=
  unfold layoutOK, inLayout, inLayoutW, cle, footB, bitRegion, L_kh0, L_kb0, nextBit, len in *;
  cbn [nodeIndex structBit keyHeaderOffset arrowHeaderOffset valueHeaderOffset
       keyBodyOffset valBodyOffset] in *;
  lia.















End Pass2.

(** ** Reading a page *)

Section Reading.
Context `{cfg : Config}.
Variable L : Layout.
Hypothesis HL : layoutOK L.
Variable t : Avl3.
Hypothesis Hhl : hashLength t = L_hl L.
Variable id : PageID.
Variable key : bytes.
Variable height : Z.
Variable data : bytes.
Hypothesis Hlen : len data = L_size L.
Variable msb : Z.

Ltac layout :=
  unfold layoutOK, inLayout, inLayoutW, cle, footB, bitRegion, L_kh0, L_kb0, nextBit, len in *;
  cbn [nodeIndex structBit keyHeaderOffset arrowHeaderOffset valueHeaderOffset
       keyBodyOffset valBodyOffset] in *;
  lia.

Notation loop fuel d :=
  (deserialiseLoop fuel t id (Some key) height data (L_prefix L) (L_nodeCount L) msb 4
     (L_sbo L) d).

Notation step sbit d :=
  (deserialiseStep t id (Some key) height data (L_prefix L) 4 sbit d).












End Reading.

(** ** The page of a subtree *)

Section Measures.
Context `{cfg : Config}.
Variable L : Layout.






End Measures.

Section LayoutOf.
Context `{cfg : Config}.


End LayoutOf.

Section CommitPage.
Context `{cfg : Config}.

Ltac layout :=
  unfold startC, endC in *;
  unfold layoutOK, inLayout, inLayoutW, cle, footB, bitRegion, L_kh0, L_kb0, nextBit, len
    in *;
  cbn [nodeIndex structBit keyHeaderOffset arrowHeaderOffset valueHeaderOffset
       keyBodyOffset valBodyOffset] in *;
  lia.




End CommitPage.

Section ReadPage.
Context `{cfg : Config}.

Ltac layout :=
  unfold startC, endC in *;
  unfold layoutOK, inLayout, inLayoutW, cle, footB, bitRegion, L_kh0, L_kb0, nextBit, len
    in *;
  cbn [nodeIndex structBit keyHeaderOffset arrowHeaderOffset valueHeaderOffset
       keyBodyOffset valBodyOffset] in *;
  lia.


End ReadPage.

Section PageRoundTrip.
Context `{cfg : Config}.




End PageRoundTrip.



